(** * Items API: validation schemas, persistence gateway and request handlers

    A shallow embedding of the FastAPI/SQLite item service:
    - [schemas.py]: the pydantic models [ItemBase]/[ItemCreate]/[ItemUpdate];
    - [models.py]: the [items] table and its NOT NULL columns;
    - [database.py]: the per-request session of [get_db];
    - [main.py]: the five request handlers, including the retry loop of
      [update_item].

    Conventions of the embedding:
    - a request body is a record of JSON members, each missing, [null] or a
      value of the member's JSON type; text is a string of 8-bit characters;
    - Python's [decimal.Decimal] is a sign/coefficient/exponent triple under
      the default context (precision 28, ROUND_HALF_EVEN); NaN and the
      infinities, which pydantic refuses, are not values;
    - the store is the list of rows of [items] in key order, read and
      written through the unit of work of one session; prices are compared
      as exact decimals and [LIKE] is SQLite's;
    - failures of the store are scripted, one entry per awaited store call;
      a rollback is taken not to fail;
    - FastAPI answers 422 to a body or query the schema refuses, 500 to an
      exception that is not an [HTTPException], and sends what an endpoint
      returns through its [response_model]; the exit of [get_db] (commit or
      rollback) belongs to the request;
    - delays are counted in milliseconds. *)

From Stdlib Require Import ZArith NArith Lia Bool List String Ascii.
From stdpp Require Import gmap strings list pretty.

Local Open Scope string_scope.
Local Open Scope list_scope.
Local Open Scope Z_scope.

(* ===================================================================== *)
(** ** Strings as Python uses them in the handlers *)
(* ===================================================================== *)

Module Str.

(** [c.lower()] on one ASCII character. *)
Definition lower_ascii (c : ascii) : ascii :=
  let n := nat_of_ascii c in
  if (65 <=? n)%nat && (n <=? 90)%nat then ascii_of_nat (n + 32) else c.

(** [s.lower()]. *)
Fixpoint lower (s : string) : string :=
  match s with
  | EmptyString => EmptyString
  | String c s' => String (lower_ascii c) (lower s')
  end.

(** [hay.startswith(needle)]. *)
Fixpoint startswith (needle hay : string) : bool :=
  match needle, hay with
  | EmptyString, _ => true
  | String _ _, EmptyString => false
  | String a n', String b h' => Ascii.eqb a b && startswith n' h'
  end.

(** [needle in hay]. *)
Fixpoint contains (needle hay : string) : bool :=
  startswith needle hay
  || match hay with
     | EmptyString => false
     | String _ h' => contains needle h'
     end.

(** SQL [LIKE] as SQLite evaluates it: [%] matches any run of characters,
    [_] matches exactly one character, every other character matches
    itself up to ASCII case. *)
Fixpoint like (pat s : string) : bool :=
  match pat with
  | EmptyString => match s with EmptyString => true | _ => false end
  | String p pat' =>
      if Ascii.eqb p "%"%char then
        (fix any (s : string) : bool :=
           like pat' s
           || match s with
              | EmptyString => false
              | String _ s' => any s'
              end) s
      else
        match s with
        | EmptyString => false
        | String c s' =>
            (Ascii.eqb p "_"%char || Ascii.eqb (lower_ascii p) (lower_ascii c))
            && like pat' s'
        end
  end.

End Str.

(* ===================================================================== *)
(** ** [decimal.Decimal], finite values, default context *)
(* ===================================================================== *)

Module Dec.

(** A finite decimal: [(-1)^sign * coeff * 10^exp]. *)
Record t := mk { sign : bool; coeff : N; exp : Z }.

(** The default context. *)
Definition prec : Z := 28.
Definition Emax : Z := 999999.
Definition Emin : Z := -999999.
Definition Etiny : Z := Emin - prec + 1.

(** [len(self._int)]: the number of decimal digits of the coefficient
    (one digit for zero). *)
Fixpoint ndigits_aux (fuel : nat) (n : N) : Z :=
  match fuel with
  | O => 1
  | S fuel' => if (n <? 10)%N then 1 else 1 + ndigits_aux fuel' (n / 10)%N
  end.

Definition ndigits (n : N) : Z := ndigits_aux (N.to_nat (N.size n)) n.

(** [self.adjusted()]. *)
Definition adjusted (d : t) : Z := exp d + ndigits (coeff d) - 1.

(** The signed coefficient. *)
Definition scoeff (d : t) : Z :=
  if sign d then - Z.of_N (coeff d) else Z.of_N (coeff d).

(** Three-way comparison of the values of two decimals, after aligning
    both to the smaller exponent. *)
Definition compare (a b : t) : comparison :=
  let m := Z.min (exp a) (exp b) in
  Z.compare (scoeff a * 10 ^ (exp a - m)) (scoeff b * 10 ^ (exp b - m)).

Definition ltb (a b : t) : bool :=
  match compare a b with Lt => true | _ => false end.
Definition leb (a b : t) : bool :=
  match compare a b with Gt => false | _ => true end.
Definition geb (a b : t) : bool := leb b a.

Definition zero : t := mk false 0 0.

(** [Decimal('0.01')]. *)
Definition cent : t := mk false 1 (-2).

(** [self._rescale(e, ROUND_HALF_EVEN)]. *)
Definition rescale (d : t) (e : Z) : t :=
  if (coeff d =? 0)%N then mk (sign d) 0 e
  else if e <=? exp d then
    mk (sign d) (coeff d * 10 ^ Z.to_N (exp d - e))%N e
  else
    let p := (10 ^ Z.to_N (e - exp d))%N in
    let q := (coeff d / p)%N in
    let r := (coeff d mod p)%N in
    let up := (p <? 2 * r)%N || ((2 * r =? p)%N && N.odd q) in
    mk (sign d) (if up then q + 1 else q)%N e.

(** [self.quantize(other)] under the default context; [None] is
    [decimal.InvalidOperation] (result does not fit the precision). *)
Definition quantize (d other : t) : option t :=
  let e := exp other in
  if negb ((Etiny <=? e) && (e <=? Emax)) then None
  else if (coeff d =? 0)%N then Some (mk (sign d) 0 e)
  else if Emax <? adjusted d then None
  else if prec <? adjusted d - e + 1 then None
  else
    let ans := rescale d e in
    if Emax <? adjusted ans then None
    else if prec <? ndigits (coeff ans) then None
    else Some ans.

End Dec.

(* ===================================================================== *)
(** ** schemas.py *)
(* ===================================================================== *)

(** One member of the JSON request body: missing, [null], or a value of
    the member's JSON type. *)
Inductive jfield (A : Type) : Type :=
| Absent
| Null
| Given (a : A).
Arguments Absent {A}.
Arguments Null {A}.
Arguments Given {A} a.

(** The request body of [POST /items/] and [PUT /items/{item_id}]. *)
Record body := Body {
  b_name : jfield string;
  b_description : jfield string;
  b_price : jfield Dec.t;
  b_quantity : jfield Z
}.

(** Outcome of pydantic validation.  [Invalid] is [ValidationError] with
    the locations that failed; [Escaped] is an exception that is neither
    [ValueError] nor [AssertionError] leaving a validator, which pydantic
    does not collect and which ends validation at once. *)
Inductive vres (A : Type) : Type :=
| Valid (a : A)
| Invalid (errors : list string)
| Escaped (exc : string).
Arguments Valid {A} a.
Arguments Invalid {A} errors.
Arguments Escaped {A} exc.

(** Fields are validated in declaration order; errors are collected and
    validation goes on, an escaping exception stops it. *)
Definition vap {A B : Type} (f : vres (A -> B)) (x : vres A) : vres B :=
  match f with
  | Escaped e => Escaped e
  | Valid g =>
      match x with
      | Valid a => Valid (g a)
      | Invalid e => Invalid e
      | Escaped e => Escaped e
      end
  | Invalid e1 =>
      match x with
      | Valid _ => Invalid e1
      | Invalid e2 => Invalid (e1 ++ e2)
      | Escaped e => Escaped e
      end
  end.

Definition vbind {A B : Type} (x : vres A) (k : A -> vres B) : vres B :=
  match x with
  | Valid a => k a
  | Invalid e => Invalid e
  | Escaped e => Escaped e
  end.

Module Schema.

(** [Field(..., min_length=lo, max_length=hi)] on a [str]. *)
Definition constrained_str (loc : string) (lo hi : nat) (s : string) : vres string :=
  if (String.length s <? lo)%nat then Invalid [loc +:+ ": string_too_short"]
  else if (hi <? String.length s)%nat then Invalid [loc +:+ ": string_too_long"]
  else Valid s.

(** [Field(..., ge=0)] on a [Decimal]. *)
Definition decimal_ge0 (loc : string) (v : Dec.t) : vres Dec.t :=
  if Dec.geb v Dec.zero then Valid v
  else Invalid [loc +:+ ": greater_than_equal"].

(** [Field(..., ge=0)] on an [int]. *)
Definition int_ge0 (loc : string) (q : Z) : vres Z :=
  if 0 <=? q then Valid q else Invalid [loc +:+ ": greater_than_equal"].

(** A field declared [T = Field(...)]: required, [null] refused. *)
Definition required {A : Type} (loc : string) (inner : A -> vres A)
    (f : jfield A) : vres A :=
  match f with
  | Absent => Invalid [loc +:+ ": missing"]
  | Null => Invalid [loc +:+ ": none_not_allowed"]
  | Given a => inner a
  end.

(** A field declared [Optional[T] = Field(...)]: the ellipsis default
    keeps it required; [null] is accepted. *)
Definition required_nullable {A : Type} (loc : string) (inner : A -> vres A)
    (f : jfield A) : vres (option A) :=
  match f with
  | Absent => Invalid [loc +:+ ": missing"]
  | Null => Valid None
  | Given a => vbind (inner a) (fun a' => Valid (Some a'))
  end.

(** A field declared [Optional[T] = Field(None, ...)]: may be left out. *)
Definition optional_nullable {A : Type} (inner : A -> vres A)
    (f : jfield A) : vres (option A) :=
  match f with
  | Absent => Valid None
  | Null => Valid None
  | Given a => vbind (inner a) (fun a' => Valid (Some a'))
  end.

End Schema.

(** [ItemBase.validate_price]. *)
Definition ItemBase_validate_price (v : Dec.t) : vres Dec.t :=
  if Dec.ltb v Dec.zero then Invalid ["price: Value error, Price must be positive"]
  else
    match Dec.quantize v Dec.cent with
    | Some q => Valid q
    | None => Escaped "decimal.InvalidOperation"
    end.

(** [ItemUpdate.validate_price]. *)
Definition ItemUpdate_validate_price (v : option Dec.t) : vres (option Dec.t) :=
  match v with
  | Some d =>
      if Dec.ltb d Dec.zero then Invalid ["price: Value error, Price must be positive"]
      else
        match Dec.quantize d Dec.cent with
        | Some q => Valid (Some q)
        | None => Escaped "decimal.InvalidOperation"
        end
  | None => Valid None
  end.

(** A validated [ItemCreate] (it adds nothing to [ItemBase]). *)
Record ItemCreate := mkItemCreate {
  ic_name : string;
  ic_description : option string;
  ic_price : Dec.t;
  ic_quantity : Z
}.

(** A validated [ItemUpdate], with pydantic's [model_fields_set]. *)
Record ItemUpdate := mkItemUpdate {
  iu_name : option string;
  iu_description : option string;
  iu_price : option Dec.t;
  iu_quantity : option Z;
  iu_fields_set : gset string
}.

(** Parsing a body as [schemas.ItemCreate]. *)
Definition ItemCreate_validate (b : body) : vres ItemCreate :=
  vap (vap (vap (vap (Valid mkItemCreate)
    (Schema.required "name" (Schema.constrained_str "name" 1 50) (b_name b)))
    (Schema.optional_nullable (Schema.constrained_str "description" 0 500)
       (b_description b)))
    (vbind (Schema.required "price" (Schema.decimal_ge0 "price") (b_price b))
       ItemBase_validate_price))
    (Schema.required "quantity" (Schema.int_ge0 "quantity") (b_quantity b)).

(** The members of the body that were supplied at all. *)
Definition supplied {A : Type} (k : string) (f : jfield A) : gset string :=
  match f with
  | Absent => ∅
  | _ => {[ k ]}
  end.

Definition body_fields_set (b : body) : gset string :=
  supplied "name" (b_name b) ∪ supplied "description" (b_description b)
  ∪ supplied "price" (b_price b) ∪ supplied "quantity" (b_quantity b).

(** Parsing a body as [schemas.ItemUpdate]. *)
Definition ItemUpdate_validate (b : body) : vres ItemUpdate :=
  vap (vap (vap (vap (vap (Valid mkItemUpdate)
    (Schema.required_nullable "name" (Schema.constrained_str "name" 1 50) (b_name b)))
    (Schema.optional_nullable (Schema.constrained_str "description" 0 500)
       (b_description b)))
    (vbind (Schema.required_nullable "price" (Schema.decimal_ge0 "price") (b_price b))
       ItemUpdate_validate_price))
    (Schema.required_nullable "quantity" (Schema.int_ge0 "quantity") (b_quantity b)))
    (Valid (body_fields_set b)).

(** Python values held by a dumped model. *)
Inductive value : Type :=
| VNone
| VStr (s : string)
| VDec (d : Dec.t)
| VInt (z : Z).

Definition of_opt {A : Type} (inj : A -> value) (o : option A) : value :=
  match o with
  | Some a => inj a
  | None => VNone
  end.

(** [item.model_dump()]. *)
Definition ItemUpdate_model_dump (it : ItemUpdate) : gmap string value :=
  <["name" := of_opt VStr (iu_name it)]>
  (<["description" := of_opt VStr (iu_description it)]>
  (<["price" := of_opt VDec (iu_price it)]>
  (<["quantity" := of_opt VInt (iu_quantity it)]> ∅))).

(** [item.model_dump(exclude_unset=True)]: only the members of
    [model_fields_set] are kept, whatever their value. *)
Definition ItemUpdate_model_dump_exclude_unset (it : ItemUpdate) : gmap string value :=
  filter (fun kv => kv.1 ∈ iu_fields_set it) (ItemUpdate_model_dump it).

(* ===================================================================== *)
(** ** [Decimal(str)] *)
(* ===================================================================== *)

Module DecParse.

Definition digit (c : ascii) : option N :=
  let n := nat_of_ascii c in
  if (48 <=? n)%nat && (n <=? 57)%nat then Some (N.of_nat (n - 48)) else None.

(** Reads a run of digits: the number read so far, how many digits were
    read, and the rest of the text. *)
Fixpoint digits (s : string) (acc : N) (n : nat) : N * nat * string :=
  match s with
  | String c s' =>
      match digit c with
      | Some d => digits s' (acc * 10 + d)%N (S n)
      | None => (acc, n, s)
      end
  | EmptyString => (acc, n, s)
  end.

Definition signed (s : string) : bool * string :=
  match s with
  | String "-" r => (true, r)
  | String "+" r => (false, r)
  | _ => (false, s)
  end.

(** [Decimal(s)] for a finite numeral [[sign] digits [. digits] [E [sign]
    digits]]; [None] is [decimal.InvalidOperation].  Special values and
    digit separators are left out: the one call of this constructor, in
    [update_item], is on a branch that a dumped [ItemUpdate] never takes. *)
Definition of_string (s : string) : option Dec.t :=
  let '(sg, s1) := signed s in
  let '(ip, ni, s2) := digits s1 0%N 0%nat in
  let '(c, nf, s3) :=
    match s2 with
    | String "." r => digits r ip 0%nat
    | _ => (ip, 0%nat, s2)
    end in
  if (ni + nf =? 0)%nat then None
  else
    match s3 with
    | EmptyString => Some (Dec.mk sg c (- Z.of_nat nf))
    | String e r =>
        if Ascii.eqb e "e" || Ascii.eqb e "E" then
          let '(esg, r1) := signed r in
          let '(ev, ne, r2) := digits r1 0%N 0%nat in
          match ne, r2 with
          | S _, EmptyString =>
              Some (Dec.mk sg c
                      ((if esg then - Z.of_N ev else Z.of_N ev) - Z.of_nat nf))
          | _, _ => None
          end
        else None
    end.

End DecParse.

(* ===================================================================== *)
(** ** [str(Decimal)] and the dumps of schemas.py *)
(* ===================================================================== *)

Module DecStr.

(** The character of one decimal digit. *)
Definition digit_char (d : N) : ascii := ascii_of_N (48 + d).

(** [str(n)] for a natural number: the coefficient's digits, [self._int]. *)
Fixpoint digits_aux (fuel : nat) (n : N) : string :=
  match fuel with
  | O => String (digit_char n) ""
  | S fuel' =>
      if (n <? 10)%N then String (digit_char n) ""
      else digits_aux fuel' (n / 10)%N +:+ String (digit_char (n mod 10)%N) ""
  end.

Definition digits_of (n : N) : string := digits_aux (N.to_nat (N.size n)) n.

(** ['0' * n]. *)
Fixpoint zeros (n : nat) : string :=
  match n with
  | O => ""
  | S n' => String "0" (zeros n')
  end.

(** [s[:n]] and [s[n:]]. *)
Fixpoint take (n : nat) (s : string) : string :=
  match n, s with
  | S n', String c s' => String c (take n' s')
  | _, _ => ""
  end.

Fixpoint drop (n : nat) (s : string) : string :=
  match n, s with
  | S n', String _ s' => drop n' s'
  | _, _ => s
  end.

(** ["%+d" % k]. *)
Definition signed_int (k : Z) : string :=
  (if k <? 0 then "-" else "+") +:+ digits_of (Z.abs_N k).

(** [Decimal.__str__] on a finite decimal (scientific notation, capital
    [E]): plain digits when the exponent is at most zero and fewer than six
    zeros would follow the point, one digit before the point and an
    exponent otherwise. *)
Definition to_str (d : Dec.t) : string :=
  let sign := if Dec.sign d then "-" else "" in
  let int_ := digits_of (Dec.coeff d) in
  let len := Z.of_nat (String.length int_) in
  let leftdigits := Dec.exp d + len in
  let dotplace :=
    if (Dec.exp d <=? 0) && (-6 <? leftdigits) then leftdigits else 1 in
  let intpart :=
    if dotplace <=? 0 then "0"
    else if len <=? dotplace then int_ +:+ zeros (Z.to_nat (dotplace - len))
    else take (Z.to_nat dotplace) int_ in
  let fracpart :=
    if dotplace <=? 0 then "." +:+ zeros (Z.to_nat (- dotplace)) +:+ int_
    else if len <=? dotplace then ""
    else "." +:+ drop (Z.to_nat dotplace) int_ in
  let exp :=
    if leftdigits =? dotplace then ""
    else "E" +:+ signed_int (leftdigits - dotplace) in
  sign +:+ intpart +:+ fracpart +:+ exp.

End DecStr.

(** [DecimalEncoder.default]: a [Decimal] is rendered as its text; anything
    else goes to [JSONEncoder.default], which raises [TypeError] ([None]). *)
Definition DecimalEncoder_default (obj : value) : option string :=
  match obj with
  | VDec d => Some (DecStr.to_str d)
  | _ => None
  end.

(** [item.model_dump()] on an [ItemBase]. *)
Definition ItemBase_model_dump (item : ItemCreate) : gmap string value :=
  <["name" := VStr (ic_name item)]>
  (<["description" := of_opt VStr (ic_description item)]>
  (<["price" := VDec (ic_price item)]>
  (<["quantity" := VInt (ic_quantity item)]> ∅))).

(** [ItemBase.dict()], called without keyword arguments as [create_item]
    does: every [Decimal] of the dump is replaced by its text. *)
Definition ItemBase_dict (item : ItemCreate) : gmap string value :=
  (fun v => match v with
            | VDec d => VStr (DecStr.to_str d)
            | _ => v
            end) <$> ItemBase_model_dump item.

(** [ItemUpdate.dict()], called without keyword arguments: the entries
    bound to [None] are left out and every [Decimal] is replaced by its
    text. *)
Definition ItemUpdate_dict (it : ItemUpdate) : gmap string value :=
  omap (fun v => match v with
                 | VNone => None
                 | VDec d => Some (VStr (DecStr.to_str d))
                 | _ => Some v
                 end) (ItemUpdate_model_dump it).

(* ===================================================================== *)
(** ** models.py: the [items] table *)
(* ===================================================================== *)

Module models.

(** A row of [items]: [id] is the primary key; [name], [price] and
    [quantity] are NOT NULL, [description] is nullable. *)
Record Item := mkItem {
  id : Z;
  name : string;
  description : option string;
  price : Dec.t;
  quantity : Z
}.

End models.

(* ===================================================================== *)
(** ** Exceptions and the handler monad *)
(* ===================================================================== *)

Inductive exn : Type :=
| OperationalError (msg : string)      (* sqlalchemy.exc.OperationalError *)
| IntegrityError (msg : string)        (* sqlalchemy.exc.IntegrityError *)
| HTTPException (status_code : Z) (detail : string)
| OtherException (msg : string).       (* any other Exception *)

(** [str(e)]; a database error carries its rendered message. *)
Definition exn_str (e : exn) : string :=
  match e with
  | OperationalError msg => msg
  | IntegrityError msg => msg
  | HTTPException status_code detail => pretty status_code +:+ ": " +:+ detail
  | OtherException msg => msg
  end.

(** What the store itself can raise on an awaited call. *)
Inductive store_exc : Type :=
| StoreOperational (msg : string)
| StoreIntegrity (msg : string)
| StoreOther (msg : string).

Definition exn_of_store (e : store_exc) : exn :=
  match e with
  | StoreOperational msg => OperationalError msg
  | StoreIntegrity msg => IntegrityError msg
  | StoreOther msg => OtherException msg
  end.

(** What the session asked of the store, and the pauses of the handler. *)
Inductive event : Type :=
| EvSelect
| EvUpdate
| EvFlush
| EvCommit
| EvRollback
| EvSleep (ms : Z).

(** One [AsyncSession].  [committed] is the table as stored, [working] the
    table as seen inside the open transaction; [new_] and [deleted] are the
    unit of work still to be flushed; [new_ids] are the primary keys given
    to flushed objects.  [faults] scripts the store: each awaited store call
    takes the next entry and raises it when it is [Some]. *)
Record session := mkSession {
  committed : list models.Item;
  working : list models.Item;
  new_ : list ItemCreate;
  deleted : list Z;
  new_ids : list Z;
  faults : list (option store_exc);
  log : list event
}.

Inductive result (A : Type) : Type :=
| Ret (a : A)
| Raise (e : exn).
Arguments Ret {A} a.
Arguments Raise {A} e.

Definition db (A : Type) : Type := session -> result A * session.

#[export] Instance db_ret : MRet db := fun A a s => (Ret a, s).

#[export] Instance db_bind : MBind db := fun A B k m s =>
  match m s with
  | (Ret a, s') => k a s'
  | (Raise e, s') => (Raise e, s')
  end.

#[export] Instance db_throw : MThrow exn db := fun A e s => (Raise e, s).

(** [try: body except Exception as e: handler(e)]. *)
Definition try_except {A : Type} (body : db A) (handler : exn -> db A) : db A :=
  fun s =>
    match body s with
    | (Ret a, s') => (Ret a, s')
    | (Raise e, s') => handler e s'
    end.

Definition gets {A : Type} (f : session -> A) : db A := fun s => (Ret (f s), s).

Definition modify (f : session -> session) : db unit := fun s => (Ret tt, f s).

Definition of_result {A : Type} (r : result A) : db A := fun s => (r, s).

Definition emit (ev : event) : db unit := fun s =>
  (Ret tt, mkSession (committed s) (working s) (new_ s) (deleted s) (new_ids s)
             (faults s) (log s ++ [ev])).

(** The failure scripted for the next store call, if any. *)
Definition next_fault (s : session) : option store_exc :=
  match faults s with
  | Some e :: _ => Some e
  | _ => None
  end.

(** The session once a store call was made: one script entry is used up
    and the call is logged. *)
Definition called (ev : event) (s : session) : session :=
  mkSession (committed s) (working s) (new_ s) (deleted s) (new_ids s)
    (tail (faults s)) (log s ++ [ev]).

(** An awaited call into the store: logged, and failing as scripted. *)
Definition store_call (ev : event) : db unit := fun s =>
  match next_fault s with
  | Some e => (Raise (exn_of_store e), called ev s)
  | None => (Ret tt, called ev s)
  end.

(* ===================================================================== *)
(** ** Statements *)
(* ===================================================================== *)

Inductive clause : Type :=
| IdEq (item_id : Z)                    (* Item.id == item_id *)
| PriceGe (min_price : Dec.t)           (* Item.price >= min_price *)
| PriceLe (max_price : Dec.t)           (* Item.price <= max_price *)
| NameContains (s : string).            (* Item.name.contains(s) *)

(** [select(models.Item)] with its [where], [offset] and [limit]. *)
Record select_stmt := mkSelect {
  whereclause : list clause;
  offset_ : option Z;
  limit_ : option Z
}.

Definition select_Item : select_stmt := mkSelect [] None None.

Definition where_ (c : clause) (q : select_stmt) : select_stmt :=
  mkSelect (whereclause q ++ [c]) (offset_ q) (limit_ q).

Definition offset (n : Z) (q : select_stmt) : select_stmt :=
  mkSelect (whereclause q) (Some n) (limit_ q).

Definition limit (n : Z) (q : select_stmt) : select_stmt :=
  mkSelect (whereclause q) (offset_ q) (Some n).

Definition eval_clause (r : models.Item) (c : clause) : bool :=
  match c with
  | IdEq item_id => models.id r =? item_id
  | PriceGe min_price => Dec.geb (models.price r) min_price
  | PriceLe max_price => Dec.leb (models.price r) max_price
  | NameContains s => Str.like ("%" +:+ s +:+ "%") (models.name r)
  end.

Definition matches (q : select_stmt) (r : models.Item) : bool :=
  forallb (eval_clause r) (whereclause q).

(** [OFFSET]/[LIMIT] as SQLite reads them: a negative offset is no offset,
    a negative limit is no limit. *)
Definition paginate (q : select_stmt) (rows : list models.Item) : list models.Item :=
  let skipped :=
    match offset_ q with
    | Some n => drop (Z.to_nat n) rows
    | None => rows
    end in
  match limit_ q with
  | Some n => if n <? 0 then skipped else take (Z.to_nat n) skipped
  | None => skipped
  end.

Definition run_select (q : select_stmt) (table : list models.Item) : list models.Item :=
  paginate q (List.filter (matches q) table).

(** The [update(models.Item)] statement of [update_item], whose [values]
    are the dumped dict, on one row.  A [None] bound to a NOT NULL column is refused by the
    store.  [model_dump] only yields the schema's four members with values
    of the member's type; anything else does not compile to a statement. *)
Definition not_null (column : string) : exn :=
  IntegrityError ("(sqlite3.IntegrityError) NOT NULL constraint failed: items." +:+ column).

Definition statement_error : exn := OtherException "StatementError".

Definition set_name (v : option value) (r : models.Item) : result models.Item :=
  match v with
  | None => Ret r
  | Some (VStr s) =>
      Ret (models.mkItem (models.id r) s (models.description r) (models.price r)
             (models.quantity r))
  | Some VNone => Raise (not_null "name")
  | Some _ => Raise statement_error
  end.

Definition set_description (v : option value) (r : models.Item) : result models.Item :=
  match v with
  | None => Ret r
  | Some (VStr s) =>
      Ret (models.mkItem (models.id r) (models.name r) (Some s) (models.price r)
             (models.quantity r))
  | Some VNone =>
      Ret (models.mkItem (models.id r) (models.name r) None (models.price r)
             (models.quantity r))
  | Some _ => Raise statement_error
  end.

Definition set_price (v : option value) (r : models.Item) : result models.Item :=
  match v with
  | None => Ret r
  | Some (VDec d) =>
      Ret (models.mkItem (models.id r) (models.name r) (models.description r) d
             (models.quantity r))
  | Some VNone => Raise (not_null "price")
  | Some _ => Raise statement_error
  end.

Definition set_quantity (v : option value) (r : models.Item) : result models.Item :=
  match v with
  | None => Ret r
  | Some (VInt q) =>
      Ret (models.mkItem (models.id r) (models.name r) (models.description r)
             (models.price r) q)
  | Some VNone => Raise (not_null "quantity")
  | Some _ => Raise statement_error
  end.

Definition rbind {A B : Type} (x : result A) (k : A -> result B) : result B :=
  match x with
  | Ret a => k a
  | Raise e => Raise e
  end.

Definition data_columns : gset string :=
  {[ "name"; "description"; "price"; "quantity" ]}.

Definition set_values (data : gmap string value) (r : models.Item) : result models.Item :=
  if decide (dom data ⊆ data_columns) then
    rbind (set_name (data !! "name") r) (fun r1 =>
    rbind (set_description (data !! "description") r1) (fun r2 =>
    rbind (set_price (data !! "price") r2) (fun r3 =>
    set_quantity (data !! "quantity") r3)))
  else Raise (OtherException "CompileError: Unconsumed column names").

(** The statement over the whole table: every row with the id is rewritten;
    a refused row fails the statement. *)
Fixpoint update_rows (item_id : Z) (data : gmap string value)
    (table : list models.Item) : result (list models.Item) :=
  match table with
  | [] => Ret []
  | r :: rest =>
      rbind (if models.id r =? item_id then set_values data r else Ret r) (fun r' =>
      rbind (update_rows item_id data rest) (fun rest' => Ret (r' :: rest')))
  end.

(* ===================================================================== *)
(** ** The session *)
(* ===================================================================== *)

(** The primary key SQLite gives a new row: one more than the largest. *)
Definition next_id (table : list models.Item) : Z :=
  1 + foldr Z.max 0 (map models.id table).

Definition new_row (i : Z) (it : ItemCreate) : models.Item :=
  models.mkItem i (ic_name it) (ic_description it) (ic_price it) (ic_quantity it).

Fixpoint insert_all (news : list ItemCreate) (table : list models.Item)
    : list models.Item * list Z :=
  match news with
  | [] => (table, [])
  | it :: rest =>
      let i := next_id table in
      let '(table', ids) := insert_all rest (table ++ [new_row i it]) in
      (table', i :: ids)
  end.

Definition delete_ids (ids : list Z) (table : list models.Item) : list models.Item :=
  List.filter (fun r => negb (existsb (Z.eqb (models.id r)) ids)) table.

(** The unit of work written into the open transaction. *)
Definition flushed (s : session) : session :=
  let '(table, ids) := insert_all (new_ s) (delete_ids (deleted s) (working s)) in
  mkSession (committed s) table [] [] (new_ids s ++ ids) (faults s) (log s).

(** [await db.execute(select ...)] followed by [result.scalars().all()]. *)
Definition db_execute (q : select_stmt) : db (list models.Item) :=
  store_call EvSelect ;; gets (fun s => run_select q (working s)).

(** [await db.execute(update ...)]. *)
Definition db_execute_update (item_id : Z) (data : gmap string value) : db unit :=
  store_call EvUpdate ;;
  table ← gets working ;
  table' ← of_result (update_rows item_id data table) ;
  modify (fun s => mkSession (committed s) table' (new_ s) (deleted s) (new_ids s)
                     (faults s) (log s)).

(** [db.add(obj)]. *)
Definition db_add (it : ItemCreate) : db unit :=
  modify (fun s => mkSession (committed s) (working s) (new_ s ++ [it]) (deleted s)
                     (new_ids s) (faults s) (log s)).

(** [await db.delete(obj)]. *)
Definition db_delete (r : models.Item) : db unit :=
  modify (fun s => mkSession (committed s) (working s) (new_ s)
                     (deleted s ++ [models.id r]) (new_ids s) (faults s) (log s)).

(** [await db.flush()]. *)
Definition db_flush : db unit :=
  store_call EvFlush ;; modify flushed.

(** [await db.commit()]: flushes, then makes the transaction durable. *)
Definition durable (s : session) : session :=
  let s' := flushed s in
  mkSession (working s') (working s') [] [] (new_ids s') (faults s') (log s').

Definition db_commit : db unit := store_call EvCommit ;; modify durable.

(** [await db.rollback()]: the open transaction and the unit of work are
    dropped. *)
Definition db_rollback : db unit :=
  modify (fun s => mkSession (committed s) (committed s) [] [] (new_ids s) (faults s)
                     (log s ++ [EvRollback])).

(** [await asyncio.sleep(...)], the delay counted in milliseconds. *)
Definition asyncio_sleep (ms : Z) : db unit := emit (EvSleep ms).

(** [db_item.id] once the object was flushed; the attribute is the key of
    the object added last. *)
Definition db_item_id : db Z :=
  ids ← gets new_ids ;
  match last ids with
  | Some i => mret i
  | None => mthrow (OtherException "NoResultFound")
  end.

(** [result.scalar_one_or_none()]. *)
Definition scalar_one_or_none (rows : list models.Item) : db (option models.Item) :=
  match rows with
  | [] => mret None
  | [r] => mret (Some r)
  | _ => mthrow (OtherException "MultipleResultsFound")
  end.

(** [result.scalar_one()]. *)
Definition scalar_one (rows : list models.Item) : db models.Item :=
  match rows with
  | [] => mthrow (OtherException "NoResultFound")
  | [r] => mret r
  | _ => mthrow (OtherException "MultipleResultsFound")
  end.

(* ===================================================================== *)
(** ** main.py: the handlers *)
(* ===================================================================== *)

(** [create_item].  [item.dict()] renders the price as text and the
    [Numeric] column reads it back; that round trip is the identity on a
    quantized decimal, so the row keeps the [Decimal]. *)
Definition create_item (item : ItemCreate) : db models.Item :=
  try_except
    (db_add item ;;
     db_commit ;;
     i ← db_item_id ;
     rows ← db_execute (where_ (IdEq i) select_Item) ;
     scalar_one rows)
    (fun e =>
       match e with
       | IntegrityError _ =>
           db_rollback ;;
           mthrow (HTTPException 400 ("Database integrity error: " +:+ exn_str e))
       | _ =>
           db_rollback ;;
           mthrow (HTTPException 500 ("Internal server error: " +:+ exn_str e))
       end).

(** [list_items]. *)
Definition list_items (skip limit_n : Z) (min_price max_price : option Dec.t)
    (name_contains : option string) : db (list models.Item) :=
  try_except
    (let query := select_Item in
     let query :=
       match min_price with
       | Some m => where_ (PriceGe m) query
       | None => query
       end in
     let query :=
       match max_price with
       | Some m => where_ (PriceLe m) query
       | None => query
       end in
     let query :=
       match name_contains with
       | Some (String c s) => where_ (NameContains (String c s)) query
       | _ => query
       end in
     db_execute (limit limit_n (offset skip query)))
    (fun e => mthrow (HTTPException 500 ("Database error: " +:+ exn_str e))).

(** [get_item]. *)
Definition get_item (item_id : Z) : db models.Item :=
  try_except
    (rows ← db_execute (where_ (IdEq item_id) select_Item) ;
     db_item ← scalar_one_or_none rows ;
     match db_item with
     | None => mthrow (HTTPException 404 "Item not found")
     | Some r => mret r
     end)
    (fun e =>
       match e with
       | HTTPException _ _ => mthrow e
       | _ => mthrow (HTTPException 500 ("Database error: " +:+ exn_str e))
       end).

Definition max_retries : Z := 3.

(** [retry_delay], in milliseconds. *)
Definition retry_delay : Z := 100.

(** [range(n)]. *)
Definition range (n : Z) : list Z := map Z.of_nat (seq 0 (Z.to_nat n)).

(** The conversion of a textual price before the statement is built. *)
Definition price_to_decimal (update_data : gmap string value) : db (gmap string value) :=
  match update_data !! "price" with
  | Some (VStr s) =>
      match DecParse.of_string s with
      | Some d => mret (<["price" := VDec d]> update_data)
      | None => mthrow (OtherException "decimal.InvalidOperation")
      end
  | _ => mret update_data
  end.

(** The [try] block of one attempt of [update_item]. *)
Definition update_item_try (item_id : Z) (item : ItemUpdate) : db models.Item :=
  rows ← db_execute (where_ (IdEq item_id) select_Item) ;
  existing_item ← scalar_one_or_none rows ;
  match existing_item with
  | None => mthrow (HTTPException 404 "Item not found")
  | Some _ =>
      let update_data := ItemUpdate_model_dump_exclude_unset item in
      if decide (update_data = ∅) then
        mthrow (HTTPException 400 "No fields to update provided")
      else
        update_data ← price_to_decimal update_data ;
        db_execute_update item_id update_data ;;
        db_commit ;;
        rows ← db_execute (where_ (IdEq item_id) select_Item) ;
        scalar_one rows
  end.

(** The [for attempt in range(max_retries)] loop of [update_item], with its
    three [except] clauses; the clause for [Exception] also receives the
    [HTTPException]s raised inside the [try] block. *)
Fixpoint update_item_for (attempts : list Z) (item_id : Z) (item : ItemUpdate)
    : db models.Item :=
  match attempts with
  | [] => mthrow (HTTPException 500 "Max retries exceeded for update operation")
  | attempt :: rest =>
      try_except (update_item_try item_id item)
        (fun e =>
           match e with
           | OperationalError _ =>
               if Str.contains "locked" (Str.lower (exn_str e))
                  && (attempt <? max_retries - 1)
               then
                 db_rollback ;;
                 asyncio_sleep (retry_delay * (attempt + 1)) ;;
                 update_item_for rest item_id item
               else
                 db_rollback ;;
                 mthrow (HTTPException 500 "Database is busy, please try again later")
           | IntegrityError _ =>
               db_rollback ;;
               mthrow (HTTPException 400 ("Database integrity error: " +:+ exn_str e))
           | _ =>
               db_rollback ;;
               mthrow (HTTPException 500 ("Internal server error: " +:+ exn_str e))
           end)
  end.

(** [update_item]. *)
Definition update_item (item_id : Z) (item : ItemUpdate) : db models.Item :=
  update_item_for (range max_retries) item_id item.

(** [delete_item]. *)
Definition delete_item (item_id : Z) : db string :=
  try_except
    (rows ← db_execute (where_ (IdEq item_id) select_Item) ;
     db_item ← scalar_one_or_none rows ;
     match db_item with
     | None => mthrow (HTTPException 404 "Item not found")
     | Some r =>
         db_delete r ;;
         db_flush ;;
         mret "Item deleted successfully"
     end)
    (fun e =>
       match e with
       | HTTPException _ _ => db_rollback ;; mthrow e
       | _ =>
           db_rollback ;;
           mthrow (HTTPException 500 ("Database error: " +:+ exn_str e))
       end).

(* ===================================================================== *)
(** ** database.py and the routes *)
(* ===================================================================== *)

(** [AsyncSessionLocal()]: a new session over the stored table. *)
Definition AsyncSessionLocal (s : session) : session :=
  mkSession (committed s) (committed s) [] [] [] (faults s) (log s).

(** [get_db] around an endpoint: commit when it returns, roll back and
    re-raise when it (or the commit) raises. *)
Definition get_db {A : Type} (endpoint : db A) : db A :=
  try_except
    (a ← endpoint ; db_commit ;; mret a)
    (fun e => db_rollback ;; mthrow e).

(** What the client receives. *)
Inductive response (A : Type) : Type :=
| Response (status_code : Z) (content : A)
| ErrorResponse (status_code : Z) (detail : string).
Arguments Response {A} status_code content.
Arguments ErrorResponse {A} status_code detail.

Definition respond {A : Type} (success : Z) (r : result A) : response A :=
  match r with
  | Ret a => Response success a
  | Raise (HTTPException status_code detail) => ErrorResponse status_code detail
  | Raise _ => ErrorResponse 500 "Internal Server Error"
  end.

(** [response_model=schemas.Item]: what the endpoint returned is read, by
    attribute, into [schemas.Item], which has the fields and the validator
    of [ItemBase] and the [id]. *)
Definition Item_validate (r : models.Item) : vres models.Item :=
  vap (vap (vap (vap (Valid (models.mkItem (models.id r)))
    (Schema.constrained_str "name" 1 50 (models.name r)))
    (Schema.optional_nullable (Schema.constrained_str "description" 0 500)
       (from_option Given Null (models.description r))))
    (vbind (Schema.decimal_ge0 "price" (models.price r)) ItemBase_validate_price))
    (Schema.int_ge0 "quantity" (models.quantity r)).

(** [response_model=List[schemas.Item]]. *)
Fixpoint List_Item_validate (rows : list models.Item) : vres (list models.Item) :=
  match rows with
  | [] => Valid []
  | r :: rows' => vap (vap (Valid cons) (Item_validate r)) (List_Item_validate rows')
  end.

(** A route without [response_model]. *)
Definition as_returned {A : Type} (content : A) : vres A := Valid content.

(** FastAPI's [serialize_response]: content the response model refuses is
    an exception of the request. *)
Definition serialize_response {A : Type} (response_model : A -> vres A) (content : A)
    : db A :=
  match response_model content with
  | Valid a => mret a
  | _ => mthrow (OtherException "ResponseValidationError")
  end.

(** A route whose parameters were accepted: the endpoint runs inside
    [get_db] on a new session and what it returns goes through the response
    model. *)
Definition route {A : Type} (success : Z) (response_model : A -> vres A)
    (endpoint : db A) (s : session) : response A * session :=
  let '(r, s') :=
    get_db (content ← endpoint ; serialize_response response_model content)
      (AsyncSessionLocal s) in
  (respond success r, s').

(** FastAPI in front of an endpoint.  Parameters the schema refuses are
    answered 422 and an exception that escaped a validator 500; in both
    cases the endpoint does not run and nothing is sent to the store. *)
Definition validated {P A : Type} (v : vres P)
    (endpoint : P -> session -> response A * session) (s : session)
    : response A * session :=
  match v with
  | Valid p => endpoint p s
  | Invalid errors => (ErrorResponse 422 (String.concat "; " errors), s)
  | Escaped _ => (ErrorResponse 500 "Internal Server Error", s)
  end.

(** [POST /items/]. *)
Definition post_items (b : body) (s : session) : response models.Item * session :=
  validated (ItemCreate_validate b)
    (fun item => route 201 Item_validate (create_item item)) s.

(** The query string of [GET /items/]. *)
Record list_query := mkListQuery {
  q_skip : option Z;
  q_limit : option Z;
  q_min_price : option Dec.t;
  q_max_price : option Dec.t;
  q_name_contains : option string
}.

(** The [Query(...)] declarations of [list_items]. *)
Definition list_query_validate (q : list_query)
    : vres (Z * Z * option Dec.t * option Dec.t * option string) :=
  let skip := default 0 (q_skip q) in
  let limit_n := default 100 (q_limit q) in
  vap (vap (vap (vap (vap (Valid (fun a b c d e => (a, b, c, d, e)))
    (if 0 <=? skip then Valid skip else Invalid ["skip: greater_than_equal"]))
    (if limit_n <? 1 then Invalid ["limit: greater_than_equal"]
     else if 1000 <? limit_n then Invalid ["limit: less_than_equal"]
     else Valid limit_n))
    (Schema.optional_nullable (Schema.decimal_ge0 "min_price")
       (from_option Given Absent (q_min_price q))))
    (Schema.optional_nullable (Schema.decimal_ge0 "max_price")
       (from_option Given Absent (q_max_price q))))
    (Valid (q_name_contains q)).

(** [GET /items/]. *)
Definition get_items (q : list_query) (s : session)
    : response (list models.Item) * session :=
  validated (list_query_validate q)
    (fun '(skip, limit_n, min_price, max_price, name_contains) =>
       route 200 List_Item_validate
         (list_items skip limit_n min_price max_price name_contains)) s.

(** [GET /items/{item_id}]. *)
Definition get_items_id (item_id : Z) (s : session) : response models.Item * session :=
  route 200 Item_validate (get_item item_id) s.

(** [PUT /items/{item_id}]. *)
Definition put_items_id (item_id : Z) (b : body) (s : session)
    : response models.Item * session :=
  validated (ItemUpdate_validate b)
    (fun item => route 200 Item_validate (update_item item_id item)) s.

(** [DELETE /items/{item_id}]. *)
Definition delete_items_id (item_id : Z) (s : session) : response string * session :=
  route 200 as_returned (delete_item item_id) s.

(** A store holding [table], failing as [script] says, nothing logged. *)
Definition store (table : list models.Item) (script : list (option store_exc)) : session :=
  mkSession table table [] [] [] script [].

(* ===================================================================== *)
(** ** Vocabulary of the statements *)
(* ===================================================================== *)

(** The rows of a table that carry a given primary key. *)
Definition rows_with (item_id : Z) (table : list models.Item) : list models.Item :=
  List.filter (fun r => models.id r =? item_id) table.

(** The store raises nothing of its own from here on. *)
Definition quiet (s : session) : Prop := Forall (eq None) (faults s).

(** The delays the handler slept, oldest first. *)
Fixpoint sleeps (l : list event) : list Z :=
  match l with
  | [] => []
  | EvSleep ms :: l' => ms :: sleeps l'
  | _ :: l' => sleeps l'
  end.

(** The store calls made, without the handler's own pauses. *)
Definition store_events (l : list event) : list event :=
  List.filter (fun ev => match ev with EvSleep _ => false | _ => true end) l.

(** A message of the store that reports a lock, as [update_item] tests it. *)
Definition locked (msg : string) : bool := Str.contains "locked" (Str.lower msg).

(** The state after the [except] clause of a retried attempt. *)
Definition backoff (attempt : Z) (s : session) : session :=
  snd (asyncio_sleep (retry_delay * (attempt + 1)) (snd (db_rollback s))).

Definition rolled_back (s : session) : session := snd (db_rollback s).

(** A price with exactly two decimal places. *)
Definition two_places (d : Dec.t) : Prop := Dec.exp d = -2.

Definition has_two_places (r : models.Item) : Prop := two_places (models.price r).

Definition normalized (table : list models.Item) : Prop := Forall has_two_places table.

(** [q] is [v] rounded to cents, to nearest and ties to the even cent:
    the sign is kept; a value with at most two decimals is padded; one with
    more is at most half a cent away, and exactly half only from an even
    cent. *)
Definition rounded_to_cents (v q : Dec.t) : Prop :=
  Dec.exp q = -2
  /\ Dec.sign q = Dec.sign v
  /\ (-2 <= Dec.exp v ->
      Z.of_N (Dec.coeff q) = Z.of_N (Dec.coeff v) * 10 ^ (Dec.exp v + 2))
  /\ (Dec.exp v < -2 ->
      let p := 10 ^ (-2 - Dec.exp v) in
      let err := Z.abs (Z.of_N (Dec.coeff v) - Z.of_N (Dec.coeff q) * p) in
      2 * err <= p /\ (2 * err = p -> Z.even (Z.of_N (Dec.coeff q)) = true)).

(** The listing as the specification words it: the name filter keeps the
    rows whose name has the given text as a substring. *)
Definition spec_matches (min_price max_price : option Dec.t)
    (name_contains : option string) (r : models.Item) : bool :=
  from_option (fun m => Dec.geb (models.price r) m) true min_price
  && from_option (fun m => Dec.leb (models.price r) m) true max_price
  && from_option (fun t => Str.contains t (models.name r)) true name_contains.

(** The listing as the store evaluates it: the name filter is the pattern
    [%text%] under [LIKE]. *)
Definition like_matches (min_price max_price : option Dec.t)
    (name_contains : option string) (r : models.Item) : bool :=
  from_option (fun m => Dec.geb (models.price r) m) true min_price
  && from_option (fun m => Dec.leb (models.price r) m) true max_price
  && from_option (fun t => Str.like ("%" +:+ t +:+ "%") (models.name r)) true
       name_contains.

Definition page (skip limit_n : Z) (rows : list models.Item) : list models.Item :=
  take (Z.to_nat limit_n) (drop (Z.to_nat skip) rows).

(** A handler respects a relation between the session before and after. *)
Definition steps (R : session -> session -> Prop) {A : Type} (m : db A) : Prop :=
  forall s r s', m s = (r, s') -> R s s'.

(** The handler did not pause between two states. *)
Definition same_sleeps (s s' : session) : Prop := sleeps (log s') = sleeps (log s).

(** A row that [schemas.Item] sends as it is stored. *)
Definition presentable (r : models.Item) : Prop := Item_validate r = Valid r.

(** An item whose row has the property [P] under whatever key it gets. *)
Definition insertable (P : models.Item -> Prop) (it : ItemCreate) : Prop :=
  forall i, P (new_row i it).

(** Every row the session holds -- stored, inside the open transaction, or
    waiting to be inserted -- has the property [P]. *)
Definition session_of (P : models.Item -> Prop) (s : session) : Prop :=
  Forall P (committed s)
  /\ Forall P (working s)
  /\ Forall (insertable P) (new_ s).

Definition keeps (P : models.Item -> Prop) (s s' : session) : Prop :=
  session_of P s -> session_of P s'.

(** The values of an UPDATE statement take rows with [P] to rows with
    [P]. *)
Definition assigns (P : models.Item -> Prop) (data : gmap string value) : Prop :=
  forall r r', set_values data r = Ret r' -> P r -> P r'.

(** The price an update carries, when it carries one, has two decimal
    places. *)
Definition price_normalized (data : gmap string value) : Prop :=
  forall v, data !! "price" = Some v ->
            v = VNone \/ exists d, v = VDec d /\ two_places d.

(** Sample data. *)
Module Sample.

Definition cents (n : N) : Dec.t := Dec.mk false n (-2).

Definition widget : models.Item :=
  models.mkItem 1 "Widget" (Some "a widget") (cents 1000) 5.

Definition widget_body : body :=
  Body (Given "Widget") (Given "a widget") (Given (Dec.mk false 9999 (-3))) (Given 5).

Definition quantity_only : body := Body Absent Absent Absent (Given 3).

Definition no_fields : body := Body Absent Absent Absent Absent.

Definition full_update : body :=
  Body (Given "Gadget") Absent (Given (Dec.mk false 5 0)) (Given 3).

Definition null_name : body :=
  Body Null Absent (Given (Dec.mk false 5 0)) (Given 3).

Definition null_description : body :=
  Body (Given "Gadget") Null (Given (Dec.mk false 5 0)) (Given 3).

Definition empty_name_huge_price : body :=
  Body (Given "") Absent (Given (Dec.mk false 1 30)) (Given 1).

Definition three_prices : list models.Item :=
  [ models.mkItem 1 "a" None (cents 500) 1;
    models.mkItem 2 "b" None (cents 1000) 1;
    models.mkItem 3 "c" None (cents 1500) 1 ].

Definition abc : models.Item := models.mkItem 1 "abc" None (cents 500) 1.

Definition lock : store_exc :=
  StoreOperational "(sqlite3.OperationalError) database is locked".

Definition disk_error : store_exc :=
  StoreOperational "(sqlite3.OperationalError) disk I/O error".

(** The [ItemUpdate] a body parses to. *)
Definition parsed_update (b : body) : ItemUpdate :=
  match ItemUpdate_validate b with
  | Valid it => it
  | _ => mkItemUpdate None None None None ∅
  end.

Definition gadget : models.Item := models.mkItem 1 "Gadget" (Some "a widget") (cents 500) 3.

(** An [ItemUpdate] with only [quantity] set; no request body parses to
    it. *)
Definition only_quantity_set : ItemUpdate :=
  mkItemUpdate None None None (Some 3) {[ "quantity" ]}.

End Sample.

(* ===================================================================== *)
(** ** Vocabulary of the round trips, the effects and the invariants *)
(* ===================================================================== *)

(** A text made of decimal digits only. *)
Fixpoint all_digits (s : string) : bool :=
  match s with
  | EmptyString => true
  | String c s' =>
      match DecParse.digit c with
      | Some _ => all_digits s'
      | None => false
      end
  end.

(** The number [Decimal(text)] reads from a run of digits that continues
    the number [acc]. *)
Definition digits_value (ds : string) (acc : N) : N :=
  fst (fst (DecParse.digits ds acc 0)).

(** The exponent part of a rendered decimal: none, or [E] and a signed
    integer. *)
Definition exp_text (e : option Z) : string :=
  match e with
  | None => ""
  | Some k => "E" +:+ DecStr.signed_int k
  end.

(** A dict without the keys bound to [None]. *)
Definition without_None (data : gmap string value) : gmap string value :=
  omap (fun v => match v with VNone => None | _ => Some v end) data.

(** Nothing is pending in the session: the open transaction holds the
    stored table and the unit of work is empty. *)
Definition settled (s : session) : Prop :=
  working s = committed s /\ new_ s = [] /\ deleted s = [].

(** A step that writes nothing: from a session with nothing pending it
    leads to such a session over the same stored table. *)
Definition reads_only (s s' : session) : Prop :=
  settled s -> settled s' /\ committed s' = committed s.

(** A step that leaves the stored table as it is. *)
Definition same_committed (s s' : session) : Prop := committed s' = committed s.

(** The pauses [update_item] can take over a list of attempts: one after
    each attempt that is not the last allowed. *)
Definition pauses (attempts : list Z) : list Z :=
  map (fun attempt => retry_delay * (attempt + 1))
    (List.filter (fun attempt => attempt <? max_retries - 1) attempts).

(** A request to one of the five routes. *)
Inductive request : Type :=
| POST_items (b : body)
| GET_items (q : list_query)
| GET_items_id (item_id : Z)
| PUT_items_id (item_id : Z) (b : body)
| DELETE_items_id (item_id : Z).

(** The session after the application served a request. *)
Definition serve (s : session) (req : request) : session :=
  match req with
  | POST_items b => snd (post_items b s)
  | GET_items q => snd (get_items q s)
  | GET_items_id item_id => snd (get_items_id item_id s)
  | PUT_items_id item_id b => snd (put_items_id item_id b s)
  | DELETE_items_id item_id => snd (delete_items_id item_id s)
  end.

(** A view [f] of the table is settled in a session: the open transaction
    shows what is stored and the unit of work is empty. *)
Definition in_step {B : Type} (f : list models.Item -> B) (s : session) : Prop :=
  f (working s) = f (committed s) /\ new_ s = [] /\ deleted s = [].

(** A step that does not change the view [f] of the stored table. *)
Definition stable {B : Type} (f : list models.Item -> B) (s s' : session) : Prop :=
  in_step f s -> in_step f s' /\ f (committed s') = f (committed s).

(** The rows that do not carry a given key. *)
Definition rows_without (item_id : Z) (table : list models.Item) : list models.Item :=
  List.filter (fun r => negb (models.id r =? item_id)) table.

(** No two rows of the table carry the same key. *)
Definition keyed (table : list models.Item) : Prop := NoDup (map models.id table).

(** A step that keeps the keys of the session's tables distinct. *)
Definition keys_kept (s s' : session) : Prop :=
  keyed (committed s) /\ keyed (working s) -> keyed (committed s') /\ keyed (working s').

(* ===================================================================== *)
(** * Properties *)
(* ===================================================================== *)

(** ** The decimal model on the documented examples *)

Example quantize_9_999 :
  Dec.quantize (Dec.mk false 9999 (-3)) Dec.cent = Some (Dec.mk false 1000 (-2)).
Proof. reflexivity. Qed.

Example quantize_half_even_down :
  Dec.quantize (Dec.mk false 125 (-3)) Dec.cent = Some (Dec.mk false 12 (-2)).
Proof. reflexivity. Qed.

Example quantize_half_even_up :
  Dec.quantize (Dec.mk false 135 (-3)) Dec.cent = Some (Dec.mk false 14 (-2)).
Proof. reflexivity. Qed.

Example quantize_too_many_digits :
  Dec.quantize (Dec.mk false 1 30) Dec.cent = None.
Proof. reflexivity. Qed.

Example like_wildcard : Str.like "%a_c%" "xabcx" = true.
Proof. reflexivity. Qed.

Example like_ignores_ascii_case : Str.like "%WID%" "Widget" = true.
Proof. reflexivity. Qed.

(** ** The update schema *)

(** C1. A body that supplies only [quantity] does not pass the update
    schema: [name] and [price] are declared with the ellipsis default and
    are reported missing; the request is answered 422 and the stored row is
    left as it was. *)
Theorem C1_update_schema_requires_name_price_quantity :
  ItemUpdate_validate Sample.quantity_only = Invalid ["name: missing"; "price: missing"]
  /\ put_items_id 1 Sample.quantity_only (store [Sample.widget] [])
     = (ErrorResponse 422 "name: missing; price: missing", store [Sample.widget] []).
Proof. split; vm_compute; reflexivity. Qed.

(** Reading a successful validation backwards. *)
Lemma vap_valid_inv {A B : Type} (f : vres (A -> B)) (x : vres A) (c : B) :
  vap f x = Valid c -> exists g a, f = Valid g /\ x = Valid a /\ c = g a.
Proof.
  destruct f as [g|e|e], x as [a|e'|e']; cbn [vap]; intros H;
    try discriminate.
  inversion H; eauto.
Qed.

Lemma vbind_valid_inv {A B : Type} (x : vres A) (k : A -> vres B) (c : B) :
  vbind x k = Valid c -> exists a, x = Valid a /\ k a = Valid c.
Proof. destruct x as [a|e|e]; cbn [vbind]; intros H; try discriminate; eauto. Qed.

Lemma ItemUpdate_validate_inv (b : body) (it : ItemUpdate) :
  ItemUpdate_validate b = Valid it ->
  exists n d p q,
    Schema.required_nullable "name" (Schema.constrained_str "name" 1 50) (b_name b)
    = Valid n
    /\ Schema.optional_nullable (Schema.constrained_str "description" 0 500)
         (b_description b) = Valid d
    /\ vbind (Schema.required_nullable "price" (Schema.decimal_ge0 "price") (b_price b))
         ItemUpdate_validate_price = Valid p
    /\ Schema.required_nullable "quantity" (Schema.int_ge0 "quantity") (b_quantity b)
       = Valid q
    /\ it = mkItemUpdate n d p q (body_fields_set b).
Proof.
  unfold ItemUpdate_validate. intros H.
  apply vap_valid_inv in H as (g5 & fs & H & Hfs & ->).
  apply vap_valid_inv in H as (g4 & q & H & Hq & ->).
  apply vap_valid_inv in H as (g3 & p & H & Hp & ->).
  apply vap_valid_inv in H as (g2 & d & H & Hd & ->).
  apply vap_valid_inv in H as (g1 & n & H & Hn & ->).
  inversion H; subst g1. inversion Hfs; subst fs.
  exists n, d, p, q. repeat split; assumption.
Qed.

Lemma required_nullable_valid_inv {A : Type} loc (inner : A -> vres A) f o :
  Schema.required_nullable loc inner f = Valid o ->
  (f = Null /\ o = None) \/ (exists a a', f = Given a /\ inner a = Valid a' /\ o = Some a').
Proof.
  destruct f as [| |a]; cbn [Schema.required_nullable]; intros H.
  - discriminate.
  - inversion H; auto.
  - apply vbind_valid_inv in H as (a' & Ha & H). inversion H; subst. eauto 6.
Qed.

(** Whatever passes the update schema supplied [name], [price] and
    [quantity]. *)
Lemma ItemUpdate_validate_supplied (b : body) (it : ItemUpdate) :
  ItemUpdate_validate b = Valid it ->
  b_name b <> Absent /\ b_price b <> Absent /\ b_quantity b <> Absent.
Proof.
  intros H. apply ItemUpdate_validate_inv in H as (n & d & p & q & Hn & _ & Hp & Hq & _).
  apply vbind_valid_inv in Hp as (p0 & Hp & _).
  apply required_nullable_valid_inv in Hn, Hp, Hq.
  repeat split; intros E;
    [ rewrite E in Hn; destruct Hn as [[? _]|(? & ? & ? & _)]
    | rewrite E in Hp; destruct Hp as [[? _]|(? & ? & ? & _)]
    | rewrite E in Hq; destruct Hq as [[? _]|(? & ? & ? & _)] ]; discriminate.
Qed.

(** C2. Updating only [quantity] of an existing item is refused by the
    update schema (422): the quantity is not changed and no record is
    returned. *)
Theorem C2_quantity_only_update_refused :
  let '(resp, s') := put_items_id 1 Sample.quantity_only (store [Sample.widget] []) in
  resp = ErrorResponse 422 "name: missing; price: missing"
  /\ map models.quantity (committed s') = [5]
  /\ log s' = [].
Proof. vm_compute. repeat split. Qed.

(** The handler itself merges: on an [ItemUpdate] object that has only
    [quantity] set it rewrites that column alone and returns the row read
    back after the commit. *)
Example update_item_merges_quantity :
  fst (update_item 1 Sample.only_quantity_set (store [Sample.widget] []))
  = Ret (models.mkItem 1 "Widget" (Some "a widget") (Sample.cents 1000) 3).
Proof. vm_compute. reflexivity. Qed.


(** C5. A store failure that is an [OperationalError] but reports no lock
    is answered with the busy message on the first attempt, without a
    retry and without a pause. *)
Theorem C5_operational_error_without_lock_reported_busy :
  let '(resp, s') :=
    put_items_id 1 Sample.full_update
      (store [Sample.widget] [None; Some Sample.disk_error]) in
  locked (exn_str (exn_of_store Sample.disk_error)) = false
  /\ resp = ErrorResponse 500 "Database is busy, please try again later"
  /\ sleeps (log s') = []
  /\ store_events (log s') = [EvSelect; EvUpdate; EvRollback; EvRollback].
Proof. vm_compute. repeat split. Qed.

(** C9. A create body with an empty name and a price too large to quantize
    under the 28-digit context is answered 500: [decimal.InvalidOperation]
    leaves [validate_price] and is not collected as a validation error.
    The store is not reached. *)
Theorem C9_empty_name_with_huge_price_is_server_error (s : session) :
  post_items Sample.empty_name_huge_price s
  = (ErrorResponse 500 "Internal Server Error", s).
Proof. unfold post_items, validated; cbn; reflexivity. Qed.

(** ** Running the handler monad *)

Lemma bind_run {A B : Type} (m : db A) (k : A -> db B) (s : session) :
  (m ≫= k) s
  = match m s with
    | (Ret a, s') => k a s'
    | (Raise e, s') => (Raise e, s')
    end.
Proof. reflexivity. Qed.

Lemma bind_ret_inv {A B : Type} (m : db A) (k : A -> db B) s b s' :
  (m ≫= k) s = (Ret b, s') ->
  exists a s1, m s = (Ret a, s1) /\ k a s1 = (Ret b, s').
Proof.
  rewrite bind_run. destruct (m s) as [[a|e] s1]; intros H; [eauto | discriminate].
Qed.

Lemma try_except_ret_inv {A : Type} (body : db A) (handler : exn -> db A) s a s' :
  try_except body handler s = (Ret a, s') ->
  body s = (Ret a, s')
  \/ exists e s1, body s = (Raise e, s1) /\ handler e s1 = (Ret a, s').
Proof.
  unfold try_except. destruct (body s) as [[a0|e] s1]; intros H; eauto.
Qed.

(** A relation between the state before and after that every primitive
    respects is respected by whatever is built from them. *)
Section Steps.

Variable R : session -> session -> Prop.
Hypothesis R_refl : forall s, R s s.
Hypothesis R_trans : forall a b c, R a b -> R b c -> R a c.

Lemma steps_ret {A : Type} (a : A) : steps R (mret a).
Proof. intros s r s' H. inversion H. apply R_refl. Qed.

Lemma steps_throw {A : Type} (e : exn) : steps R (mthrow e : db A).
Proof. intros s r s' H. inversion H. apply R_refl. Qed.

Lemma steps_gets {A : Type} (f : session -> A) : steps R (gets f).
Proof. intros s r s' H. inversion H. apply R_refl. Qed.

Lemma steps_of_result {A : Type} (x : result A) : steps R (of_result x).
Proof. intros s r s' H. inversion H. apply R_refl. Qed.

Lemma steps_bind {A B : Type} (m : db A) (k : A -> db B) :
  steps R m -> (forall a, steps R (k a)) -> steps R (m ≫= k).
Proof.
  intros Hm Hk s r s'. rewrite bind_run.
  destruct (m s) as [[a|e] s1] eqn:E; intros H.
  - eapply R_trans; [eapply Hm, E | eapply Hk, H].
  - inversion H; subst. eapply Hm, E.
Qed.

Lemma steps_try_except {A : Type} (body : db A) (handler : exn -> db A) :
  steps R body -> (forall e, steps R (handler e)) -> steps R (try_except body handler).
Proof.
  intros Hb Hh s r s'. unfold try_except.
  destruct (body s) as [[a|e] s1] eqn:E; intros H.
  - inversion H; subst. eapply Hb, E.
  - eapply R_trans; [eapply Hb, E | eapply Hh, H].
Qed.

Lemma steps_scalar_one_or_none rows : steps R (scalar_one_or_none rows).
Proof.
  destruct rows as [|r [|r' rows]]; simpl;
    [apply steps_ret | apply steps_ret | apply steps_throw].
Qed.

Lemma steps_scalar_one rows : steps R (scalar_one rows).
Proof.
  destruct rows as [|r [|r' rows]]; simpl;
    [apply steps_throw | apply steps_ret | apply steps_throw].
Qed.

Lemma steps_price_to_decimal data : steps R (price_to_decimal data).
Proof.
  unfold price_to_decimal.
  destruct (data !! "price") as [[| s | |]|]; try apply steps_ret.
  destruct (DecParse.of_string s); [apply steps_ret | apply steps_throw].
Qed.

End Steps.

(** ** The retry loop of [update_item] *)

Lemma sleeps_app (l l' : list event) : sleeps (l ++ l') = sleeps l ++ sleeps l'.
Proof.
  induction l as [|ev l IH]; [reflexivity|].
  destruct ev; simpl; rewrite IH; reflexivity.
Qed.

Lemma same_sleeps_refl s : same_sleeps s s.
Proof. reflexivity. Qed.

Lemma same_sleeps_trans a b c : same_sleeps a b -> same_sleeps b c -> same_sleeps a c.
Proof. unfold same_sleeps. congruence. Qed.

Lemma log_flushed (s : session) : log (flushed s) = log s.
Proof.
  unfold flushed.
  destruct (insert_all (new_ s) (delete_ids (deleted s) (working s))); reflexivity.
Qed.

Lemma store_call_same_sleeps (ev : event) :
  (forall ms, ev <> EvSleep ms) -> steps same_sleeps (store_call ev).
Proof.
  intros Hev s r s' H. unfold store_call in H.
  assert (E : log s' = log s ++ [ev])
    by (destruct (next_fault s); inversion H; reflexivity).
  unfold same_sleeps. rewrite E, sleeps_app.
  destruct ev; simpl; try apply app_nil_r. exfalso; eapply Hev; reflexivity.
Qed.

Lemma modify_same_sleeps (f : session -> session) :
  (forall s, sleeps (log (f s)) = sleeps (log s)) -> steps same_sleeps (modify f).
Proof. intros Hf s r s' H. inversion H; subst. apply Hf. Qed.

(** Walks a handler built from the primitives, leaving what [prim] solves. *)
Ltac walk refl trans prim :=
  repeat first
    [ apply (steps_bind _ trans); [| intros ?]
    | apply (steps_try_except _ trans); [| intros ?]
    | apply (steps_ret _ refl)
    | apply (steps_throw _ refl)
    | apply (steps_gets _ refl)
    | apply (steps_of_result _ refl)
    | apply (steps_scalar_one_or_none _ refl)
    | apply (steps_scalar_one _ refl)
    | apply (steps_price_to_decimal _ refl)
    | prim ].

Ltac same_sleeps_prim :=
  first
    [ apply store_call_same_sleeps; discriminate
    | apply modify_same_sleeps; intros; unfold durable; cbn [log]; try rewrite log_flushed;
      try rewrite sleeps_app; cbn [sleeps]; try rewrite app_nil_r; reflexivity ].

Ltac same_sleeps_walk := walk same_sleeps_refl same_sleeps_trans same_sleeps_prim.

Lemma db_execute_same_sleeps q : steps same_sleeps (db_execute q).
Proof. unfold db_execute. same_sleeps_walk. Qed.

Lemma db_execute_update_same_sleeps item_id data :
  steps same_sleeps (db_execute_update item_id data).
Proof. unfold db_execute_update. same_sleeps_walk. Qed.

Lemma db_commit_same_sleeps : steps same_sleeps db_commit.
Proof. unfold db_commit. same_sleeps_walk. Qed.

(** One attempt never pauses: all pauses come from the [except] clause. *)
Lemma update_item_try_same_sleeps item_id item :
  steps same_sleeps (update_item_try item_id item).
Proof.
  unfold update_item_try.
  apply (steps_bind _ same_sleeps_trans); [apply db_execute_same_sleeps | intros rows].
  apply (steps_bind _ same_sleeps_trans); [same_sleeps_walk |].
  intros [r|]; [| same_sleeps_walk].
  destruct (decide _); [same_sleeps_walk |].
  apply (steps_bind _ same_sleeps_trans); [same_sleeps_walk | intros data].
  apply (steps_bind _ same_sleeps_trans);
    [apply db_execute_update_same_sleeps | intros _].
  apply (steps_bind _ same_sleeps_trans); [apply db_commit_same_sleeps | intros _].
  apply (steps_bind _ same_sleeps_trans); [apply db_execute_same_sleeps | intros rows'].
  same_sleeps_walk.
Qed.

Lemma range_max_retries : range max_retries = [0; 1; 2].
Proof. reflexivity. Qed.

(** The retrying [except] clause: roll back, pause, next attempt. *)
Lemma update_item_for_retry attempt rest item_id item s msg s1 :
  update_item_try item_id item s = (Raise (OperationalError msg), s1) ->
  locked msg = true ->
  attempt < max_retries - 1 ->
  update_item_for (attempt :: rest) item_id item s
  = update_item_for rest item_id item (backoff attempt s1).
Proof.
  intros Htry Hlocked Hlt.
  cbn [update_item_for]. unfold try_except. rewrite Htry.
  cbn [exn_str]. fold (locked msg). rewrite Hlocked.
  apply Z.ltb_lt in Hlt. rewrite Hlt. reflexivity.
Qed.

(** The last attempt: any [OperationalError] ends the request as busy. *)
Lemma update_item_for_last attempt rest item_id item s msg s1 :
  update_item_try item_id item s = (Raise (OperationalError msg), s1) ->
  max_retries - 1 <= attempt ->
  update_item_for (attempt :: rest) item_id item s
  = (Raise (HTTPException 500 "Database is busy, please try again later"),
     rolled_back s1).
Proof.
  intros Htry Hge.
  cbn [update_item_for]. unfold try_except. rewrite Htry.
  apply Z.ltb_ge in Hge. rewrite Hge, andb_false_r. reflexivity.
Qed.

Lemma update_item_for_done attempt rest item_id item s r s1 :
  update_item_try item_id item s = (Ret r, s1) ->
  update_item_for (attempt :: rest) item_id item s = (Ret r, s1).
Proof.
  intros Htry. cbn [update_item_for]. unfold try_except. rewrite Htry. reflexivity.
Qed.

Lemma sleeps_backoff attempt s :
  sleeps (log (backoff attempt s)) = sleeps (log s) ++ [retry_delay * (attempt + 1)].
Proof.
  unfold backoff, asyncio_sleep, emit, db_rollback, modify. cbn [snd log].
  rewrite !sleeps_app. cbn [sleeps]. rewrite app_nil_r. reflexivity.
Qed.

Lemma sleeps_rolled_back s : sleeps (log (rolled_back s)) = sleeps (log s).
Proof.
  unfold rolled_back, db_rollback, modify. cbn [snd log].
  rewrite sleeps_app. apply app_nil_r.
Qed.

(** C3. The retry policy of [update_item].  An attempt that fails with a
    lock report before the last one is rolled back and followed, after a
    pause of (attempt index) x 100 ms, by the next attempt.  Two lock
    reports and then a success give the success, with exactly the pauses
    100 ms and 200 ms.  Three failing attempts give the busy error straight
    after the third: the final state is the rolled-back state of the third
    attempt, with the same two pauses and no fourth attempt. *)
Theorem C3_update_retry_policy (item_id : Z) (item : ItemUpdate) (s0 : session) :
  (forall attempt rest msg s1,
      update_item_try item_id item s0 = (Raise (OperationalError msg), s1) ->
      locked msg = true ->
      attempt < max_retries - 1 ->
      update_item_for (attempt :: rest) item_id item s0
      = update_item_for rest item_id item (backoff attempt s1)
      /\ log (backoff attempt s1)
         = log s1 ++ [EvRollback; EvSleep (100 * (attempt + 1))])
  /\ (forall m1 s1 m2 s2 r s3,
      update_item_try item_id item s0 = (Raise (OperationalError m1), s1) ->
      locked m1 = true ->
      update_item_try item_id item (backoff 0 s1) = (Raise (OperationalError m2), s2) ->
      locked m2 = true ->
      update_item_try item_id item (backoff 1 s2) = (Ret r, s3) ->
      update_item item_id item s0 = (Ret r, s3)
      /\ sleeps (log s3) = sleeps (log s0) ++ [100; 200])
  /\ (forall m1 s1 m2 s2 m3 s3,
      update_item_try item_id item s0 = (Raise (OperationalError m1), s1) ->
      locked m1 = true ->
      update_item_try item_id item (backoff 0 s1) = (Raise (OperationalError m2), s2) ->
      locked m2 = true ->
      update_item_try item_id item (backoff 1 s2) = (Raise (OperationalError m3), s3) ->
      locked m3 = true ->
      update_item item_id item s0
      = (Raise (HTTPException 500 "Database is busy, please try again later"),
         rolled_back s3)
      /\ sleeps (log (rolled_back s3)) = sleeps (log s0) ++ [100; 200]).
Proof.
  split; [| split].
  - intros attempt rest msg s1 Htry Hlocked Hlt. split.
    + eapply update_item_for_retry; eassumption.
    + unfold backoff, asyncio_sleep, emit, db_rollback, modify, retry_delay.
      cbn [snd log]. rewrite <- app_assoc. reflexivity.
  - intros m1 s1 m2 s2 r s3 H1 L1 H2 L2 H3.
    unfold update_item. rewrite range_max_retries.
    rewrite (update_item_for_retry _ _ _ _ _ _ _ H1 L1) by (unfold max_retries; lia).
    rewrite (update_item_for_retry _ _ _ _ _ _ _ H2 L2) by (unfold max_retries; lia).
    rewrite (update_item_for_done _ _ _ _ _ _ _ H3). split; [reflexivity|].
    rewrite (update_item_try_same_sleeps _ _ _ _ _ H3), sleeps_backoff.
    rewrite (update_item_try_same_sleeps _ _ _ _ _ H2), sleeps_backoff.
    rewrite (update_item_try_same_sleeps _ _ _ _ _ H1).
    rewrite <- app_assoc. reflexivity.
  - intros m1 s1 m2 s2 m3 s3 H1 L1 H2 L2 H3 L3.
    unfold update_item. rewrite range_max_retries.
    rewrite (update_item_for_retry _ _ _ _ _ _ _ H1 L1) by (unfold max_retries; lia).
    rewrite (update_item_for_retry _ _ _ _ _ _ _ H2 L2) by (unfold max_retries; lia).
    rewrite (update_item_for_last _ _ _ _ _ _ _ H3) by (unfold max_retries; lia).
    split; [reflexivity|].
    rewrite sleeps_rolled_back.
    rewrite (update_item_try_same_sleeps _ _ _ _ _ H3), sleeps_backoff.
    rewrite (update_item_try_same_sleeps _ _ _ _ _ H2), sleeps_backoff.
    rewrite (update_item_try_same_sleeps _ _ _ _ _ H1).
    rewrite <- app_assoc. reflexivity.
Qed.

(** The policy on a stored item: lock reports on the first select and on
    the second attempt's UPDATE, then success; and the same followed by a
    lock report on the third attempt's last select. *)
Lemma C3_update_retry_policy_witness :
  (let out := update_item 1 (Sample.parsed_update Sample.full_update)
                (store [Sample.widget] [Some Sample.lock; None; Some Sample.lock]) in
   fst out = Ret Sample.gadget /\ sleeps (log (snd out)) = [100; 200])
  /\ (let out := update_item 1 (Sample.parsed_update Sample.full_update)
                   (store [Sample.widget]
                      [Some Sample.lock; None; Some Sample.lock;
                       None; None; None; Some Sample.lock]) in
      fst out = Raise (HTTPException 500 "Database is busy, please try again later")
      /\ sleeps (log (snd out)) = [100; 200]).
Proof.
  split.
  - pose proof (proj1 (proj2 (C3_update_retry_policy 1
        (Sample.parsed_update Sample.full_update)
        (store [Sample.widget] [Some Sample.lock; None; Some Sample.lock])))) as W.
    edestruct W as [E1 E2]; [vm_compute; reflexivity | vm_compute; reflexivity
      | vm_compute; reflexivity | vm_compute; reflexivity | vm_compute; reflexivity |].
    cbv zeta. rewrite E1. split; [reflexivity | exact E2].
  - pose proof (proj2 (proj2 (C3_update_retry_policy 1
        (Sample.parsed_update Sample.full_update)
        (store [Sample.widget]
           [Some Sample.lock; None; Some Sample.lock;
            None; None; None; Some Sample.lock])))) as W.
    edestruct W as [E1 E2]; [vm_compute; reflexivity | vm_compute; reflexivity
      | vm_compute; reflexivity | vm_compute; reflexivity | vm_compute; reflexivity
      | vm_compute; reflexivity |].
    cbv zeta. rewrite E1. split; [reflexivity | exact E2].
Defined.

(** ** Reading a run backwards *)

Lemma store_call_ret_inv ev s u s' :
  store_call ev s = (Ret u, s') -> next_fault s = None /\ s' = called ev s.
Proof.
  unfold store_call. destruct (next_fault s); intros H; inversion H; auto.
Qed.

Lemma store_call_quiet ev s :
  next_fault s = None -> store_call ev s = (Ret tt, called ev s).
Proof. unfold store_call. intros ->. reflexivity. Qed.

Lemma store_call_fault ev s e :
  next_fault s = Some e -> store_call ev s = (Raise (exn_of_store e), called ev s).
Proof. unfold store_call. intros ->. reflexivity. Qed.

Lemma db_execute_ret_inv q s rows s' :
  db_execute q s = (Ret rows, s') ->
  next_fault s = None /\ s' = called EvSelect s /\ rows = run_select q (working s).
Proof.
  unfold db_execute. intros H.
  apply bind_ret_inv in H as (u & s1 & H1 & H2).
  apply store_call_ret_inv in H1 as [Hq ->]. inversion H2; subst. auto.
Qed.

Lemma db_flush_ret_inv s u s' :
  db_flush s = (Ret u, s') -> next_fault s = None /\ s' = flushed (called EvFlush s).
Proof.
  unfold db_flush. intros H.
  apply bind_ret_inv in H as (u' & s1 & H1 & H2).
  apply store_call_ret_inv in H1 as [Hq ->]. inversion H2; subst. auto.
Qed.

Lemma db_commit_ret_inv s u s' :
  db_commit s = (Ret u, s') -> next_fault s = None /\ s' = durable (called EvCommit s).
Proof.
  unfold db_commit. intros H.
  apply bind_ret_inv in H as (u' & s1 & H1 & H2).
  apply store_call_ret_inv in H1 as [Hq ->]. inversion H2; subst. auto.
Qed.

Lemma scalar_one_or_none_ret_inv rows s o s' :
  scalar_one_or_none rows s = (Ret o, s') ->
  s' = s /\ ((rows = [] /\ o = None) \/ (exists r, rows = [r] /\ o = Some r)).
Proof.
  destruct rows as [|r [|r' rows]]; cbn; intros H; inversion H; subst; eauto.
Qed.

Lemma scalar_one_ret_inv rows s r s' :
  scalar_one rows s = (Ret r, s') -> s' = s /\ rows = [r].
Proof.
  destruct rows as [|r0 [|r' rows]]; cbn; intros H; inversion H; subst; eauto.
Qed.

(** No [except] clause and no exit of [get_db] turns a failure into a
    result. *)
Lemma rollback_then_throw_not_ret {A : Type} (e : exn) s (a : A) s' :
  (db_rollback ;; mthrow e) s <> (Ret a, s').
Proof. cbn. discriminate. Qed.

Lemma get_db_ret_inv {A : Type} (endpoint : db A) s a s' :
  get_db endpoint s = (Ret a, s') ->
  exists s1, endpoint s = (Ret a, s1)
             /\ next_fault s1 = None /\ s' = durable (called EvCommit s1).
Proof.
  unfold get_db. intros H.
  apply try_except_ret_inv in H as [H | (e & s1 & _ & H)].
  - apply bind_ret_inv in H as (a' & s1 & H1 & H2).
    apply bind_ret_inv in H2 as (u & s2 & H2 & H3).
    apply db_commit_ret_inv in H2 as [Hq ->].
    inversion H3; subst. eauto.
  - exfalso. eapply rollback_then_throw_not_ret, H.
Qed.

Lemma serialize_response_ret_inv {A : Type} (response_model : A -> vres A) c s a s' :
  serialize_response response_model c s = (Ret a, s') ->
  response_model c = Valid a /\ s' = s.
Proof.
  unfold serialize_response. destruct (response_model c); intros H; inversion H; auto.
Qed.

Lemma route_response_inv {A : Type} (success : Z) (response_model : A -> vres A)
    (endpoint : db A) s code a s' :
  route success response_model endpoint s = (Response code a, s') ->
  code = success
  /\ exists c s1, endpoint (AsyncSessionLocal s) = (Ret c, s1)
                  /\ response_model c = Valid a
                  /\ next_fault s1 = None /\ s' = durable (called EvCommit s1).
Proof.
  unfold route.
  destruct (get_db _ (AsyncSessionLocal s)) as [[a'|e] s1] eqn:E; cbn [respond].
  - intros H; inversion H; subst. split; [reflexivity|].
    apply get_db_ret_inv in E as (s2 & E & Hq & ->).
    apply bind_ret_inv in E as (c & s3 & Hc & E).
    apply serialize_response_ret_inv in E as [Hm ->]. eauto 8.
  - destruct e; intros H; inversion H.
Qed.

(** The select by primary key returns the rows that carry the key. *)
Lemma run_select_by_id item_id table :
  run_select (where_ (IdEq item_id) select_Item) table = rows_with item_id table.
Proof.
  unfold run_select, paginate, rows_with. cbn.
  apply filter_ext. intros r. unfold matches. cbn. apply andb_true_r.
Qed.

Lemma rows_with_id item_id table r :
  In r (rows_with item_id table) -> models.id r = item_id.
Proof.
  unfold rows_with. rewrite filter_In. intros [_ H]. apply Z.eqb_eq, H.
Qed.

Lemma rows_with_delete_ids item_id ids table :
  In item_id ids -> rows_with item_id (delete_ids ids table) = [].
Proof.
  intros Hin. unfold rows_with, delete_ids.
  induction table as [|r table IH]; [reflexivity|]. cbn.
  destruct (existsb (Z.eqb (models.id r)) ids) eqn:E; cbn; [exact IH|].
  destruct (models.id r =? item_id) eqn:E'; [|exact IH].
  apply Z.eqb_eq in E'. exfalso.
  assert (existsb (Z.eqb (models.id r)) ids = true)
    by (apply existsb_exists; exists item_id; split; [exact Hin | apply Z.eqb_eq, E']).
  congruence.
Qed.

Lemma rows_with_delete_ids_nil item_id ids table :
  rows_with item_id table = [] -> rows_with item_id (delete_ids ids table) = [].
Proof.
  unfold rows_with, delete_ids.
  induction table as [|r table IH]; [reflexivity|]. cbn.
  destruct (models.id r =? item_id) eqn:E; [discriminate|]. intros H.
  destruct (existsb (Z.eqb (models.id r)) ids); cbn; [|rewrite E]; apply IH, H.
Qed.

(** ** Reading one item, and reading it after a delete *)

Lemma db_execute_quiet q s :
  next_fault s = None ->
  db_execute q s = (Ret (run_select q (working s)), called EvSelect s).
Proof.
  intros Hq. unfold db_execute. rewrite bind_run, store_call_quiet by exact Hq.
  reflexivity.
Qed.

Lemma db_execute_fault q s e :
  next_fault s = Some e ->
  db_execute q s = (Raise (exn_of_store e), called EvSelect s).
Proof.
  intros Hq. unfold db_execute. rewrite bind_run, (store_call_fault _ _ e) by exact Hq.
  reflexivity.
Qed.

Lemma get_item_absent item_id s :
  rows_with item_id (working s) = [] ->
  next_fault s = None ->
  get_item item_id s = (Raise (HTTPException 404 "Item not found"), called EvSelect s).
Proof.
  intros Habs Hq. unfold get_item, try_except.
  rewrite bind_run, db_execute_quiet by exact Hq.
  rewrite run_select_by_id. change (working (called EvSelect s)) with (working s).
  rewrite Habs. reflexivity.
Qed.

Lemma get_item_fault item_id s e :
  next_fault s = Some e ->
  get_item item_id s
  = (Raise (HTTPException 500 ("Database error: " +:+ exn_str (exn_of_store e))),
     called EvSelect s).
Proof.
  intros Hq. unfold get_item, try_except.
  rewrite bind_run, (db_execute_fault _ _ e) by exact Hq.
  destruct e; reflexivity.
Qed.

Lemma route_raise {A : Type} (success : Z) (response_model : A -> vres A)
    (endpoint : db A) s code detail s1 :
  endpoint (AsyncSessionLocal s) = (Raise (HTTPException code detail), s1) ->
  route success response_model endpoint s = (ErrorResponse code detail, rolled_back s1).
Proof.
  intros H. unfold route, get_db, try_except. rewrite !bind_run, H. reflexivity.
Qed.

(** What [GET /items/{item_id}] answers for an id no stored row carries. *)
Lemma get_items_id_absent item_id s :
  rows_with item_id (committed s) = [] ->
  fst (get_items_id item_id s) = ErrorResponse 404 "Item not found"
  \/ exists e,
      next_fault s = Some e
      /\ fst (get_items_id item_id s)
         = ErrorResponse 500 ("Database error: " +:+ exn_str (exn_of_store e)).
Proof.
  intros Habs. unfold get_items_id.
  destruct (next_fault s) as [e|] eqn:Hq.
  - right. exists e. split; [reflexivity|].
    erewrite route_raise; [reflexivity|]. apply get_item_fault. exact Hq.
  - left. erewrite route_raise; [reflexivity|].
    apply get_item_absent; [exact Habs | exact Hq].
Qed.

(** After an answered delete no stored row carries the id. *)
Lemma delete_items_id_removes item_id s code msg s' :
  delete_items_id item_id s = (Response code msg, s') ->
  rows_with item_id (committed s') = [].
Proof.
  unfold delete_items_id. intros H.
  apply route_response_inv in H as (_ & c & s1 & H & _ & _ & ->).
  unfold delete_item in H.
  apply try_except_ret_inv in H as [H | (e & s2 & _ & H)].
  - apply bind_ret_inv in H as (rows & s2 & Hsel & H).
    apply db_execute_ret_inv in Hsel as (_ & -> & ->).
    apply bind_ret_inv in H as (o & s3 & Hone & H).
    apply scalar_one_or_none_ret_inv in Hone as [-> [[_ ->] | (r & Hr & ->)]];
      [inversion H|].
    apply bind_ret_inv in H as (u & s4 & Hdel & H).
    inversion Hdel; subst s4. clear Hdel.
    apply bind_ret_inv in H as (u' & s5 & Hfl & H).
    apply db_flush_ret_inv in Hfl as [_ ->].
    inversion H; subst. clear H.
    rewrite run_select_by_id in Hr.
    assert (Hid : models.id r = item_id)
      by (eapply rows_with_id; rewrite Hr; left; reflexivity).
    unfold durable, flushed. cbn -[delete_ids rows_with].
    apply rows_with_delete_ids_nil, rows_with_delete_ids.
    rewrite Hid. left. reflexivity.
  - exfalso. destruct e; eapply rollback_then_throw_not_ret, H.
Qed.



(** ** Listing *)

Lemma quiet_next_fault s : quiet s -> next_fault s = None.
Proof.
  unfold quiet, next_fault. destruct (faults s) as [|[e|] f]; intros H;
    [reflexivity | inversion H; discriminate | reflexivity].
Qed.

Lemma quiet_called ev s : quiet s -> quiet (called ev s).
Proof.
  unfold quiet, called. cbn [faults]. destruct (faults s) as [|o f]; intros H;
    [exact H | inversion H; assumption].
Qed.

Lemma like_percent_any (s : string) : Str.like "%" s = true.
Proof. induction s as [|c s IH]; [reflexivity|]. cbn. cbn in IH. rewrite IH. reflexivity. Qed.

Lemma like_percent_percent_any (s : string) : Str.like "%%" s = true.
Proof.
  destruct s as [|c s]; [reflexivity|].
  change (Str.like "%%" (String c s))
    with (Str.like "%" (String c s) || Str.like "%%" s).
  rewrite like_percent_any. reflexivity.
Qed.

(** The statement [list_items] builds keeps the rows that pass the three
    optional tests together. *)
Lemma list_items_query_matches min_price max_price name_contains skip limit_n r :
  matches
    (limit limit_n (offset skip
       (let query := select_Item in
        let query :=
          match min_price with
          | Some m => where_ (PriceGe m) query
          | None => query
          end in
        let query :=
          match max_price with
          | Some m => where_ (PriceLe m) query
          | None => query
          end in
        match name_contains with
        | Some (String c t) => where_ (NameContains (String c t)) query
        | _ => query
        end))) r
  = like_matches min_price max_price name_contains r.
Proof.
  unfold matches, like_matches.
  destruct min_price as [lo|], max_price as [hi|], name_contains as [[|c t]|];
    cbn [limit offset where_ select_Item whereclause app forallb eval_clause from_option];
    rewrite ?andb_true_r, ?andb_assoc; try reflexivity;
    change ("%" +:+ "" +:+ "%") with "%%"; rewrite like_percent_percent_any;
    rewrite ?andb_true_r; reflexivity.
Qed.

Lemma list_query_validate_inv q skip limit_n min_price max_price name_contains :
  list_query_validate q = Valid (skip, limit_n, min_price, max_price, name_contains) ->
  0 <= skip /\ 1 <= limit_n <= 1000.
Proof.
  unfold list_query_validate. intros H.
  apply vap_valid_inv in H as (g5 & nc & H & _ & E5).
  apply vap_valid_inv in H as (g4 & hi & H & _ & ->).
  apply vap_valid_inv in H as (g3 & lo & H & _ & ->).
  apply vap_valid_inv in H as (g2 & l & H & Hl & ->).
  apply vap_valid_inv in H as (g1 & k & H & Hk & ->).
  inversion H; subst g1. inversion E5; subst. clear H E5.
  split.
  - destruct (0 <=? default 0 (q_skip q)) eqn:E; inversion Hk; subst.
    apply Z.leb_le, E.
  - destruct (default 100 (q_limit q) <? 1) eqn:E1; [discriminate|].
    destruct (1000 <? default 100 (q_limit q)) eqn:E2; inversion Hl; subst.
    apply Z.ltb_ge in E1, E2. lia.
Qed.

Lemma presentable_list rows :
  Forall presentable rows -> List_Item_validate rows = Valid rows.
Proof.
  induction 1 as [|r rows Hr _ IH]; [reflexivity|].
  cbn [List_Item_validate]. unfold presentable in Hr. rewrite Hr, IH. reflexivity.
Qed.

Lemma presentable_page skip limit_n f rows :
  Forall presentable rows -> Forall presentable (page skip limit_n (List.filter f rows)).
Proof.
  intros H. unfold page. apply Forall_take, Forall_drop.
  apply List.Forall_forall. intros r Hr. apply filter_In in Hr as [Hr _].
  revert r Hr. apply List.Forall_forall. exact H.
Qed.

Lemma list_items_quiet skip limit_n min_price max_price name_contains s :
  1 <= limit_n ->
  next_fault s = None ->
  list_items skip limit_n min_price max_price name_contains s
  = (Ret (page skip limit_n
            (List.filter (like_matches min_price max_price name_contains) (working s))),
     called EvSelect s).
Proof.
  intros Hl Hq. unfold list_items, try_except.
  rewrite db_execute_quiet by exact Hq. f_equal. f_equal.
  unfold run_select, paginate, page.
  cbn [limit offset offset_ limit_].
  destruct (limit_n <? 0) eqn:E; [apply Z.ltb_lt in E; lia|].
  f_equal. f_equal. apply filter_ext. intros r.
  apply list_items_query_matches.
Qed.




(** ** Prices are stored with two decimal places *)

Lemma even_of_N (n : N) : Z.even (Z.of_N n) = negb (N.odd n).
Proof. destruct n as [|[p|p|]]; reflexivity. Qed.

Lemma pow10_of_N (k : Z) : 0 <= k -> Z.of_N (10 ^ Z.to_N k) = 10 ^ k.
Proof. intros Hk. rewrite N2Z.inj_pow, Z2N.id by exact Hk. reflexivity. Qed.

Lemma rescale_exp d e : Dec.exp (Dec.rescale d e) = e.
Proof.
  unfold Dec.rescale.
  destruct (Dec.coeff d =? 0)%N; [reflexivity|].
  destruct (e <=? Dec.exp d); reflexivity.
Qed.

Lemma rescale_sign d e : Dec.sign (Dec.rescale d e) = Dec.sign d.
Proof.
  unfold Dec.rescale.
  destruct (Dec.coeff d =? 0)%N; [reflexivity|].
  destruct (e <=? Dec.exp d); reflexivity.
Qed.

(** Rescaling to cents rounds to the nearest cent, ties to even. *)
Lemma rescale_rounded v : rounded_to_cents v (Dec.rescale v (-2)).
Proof.
  unfold rounded_to_cents. rewrite rescale_exp, rescale_sign.
  split; [reflexivity|]. split; [reflexivity|].
  unfold Dec.rescale.
  destruct (Dec.coeff v =? 0)%N eqn:E0.
  - apply N.eqb_eq in E0. rewrite E0. cbn [Dec.coeff]. split.
    + intros _. reflexivity.
    + intros Hlt. cbn zeta. rewrite Z.mul_0_l, Z.sub_0_r. cbn [Z.of_N Z.abs].
      assert (0 < 10 ^ (-2 - Dec.exp v)) by (apply Z.pow_pos_nonneg; lia).
      split; [lia | reflexivity].
  - destruct (-2 <=? Dec.exp v) eqn:Ee.
    + apply Z.leb_le in Ee. cbn [Dec.coeff]. split; [|lia].
      intros _. rewrite N2Z.inj_mul, pow10_of_N by lia. f_equal; f_equal; lia.
    + apply Z.leb_gt in Ee. split; [lia|]. intros _. cbn zeta.
      set (k := -2 - Dec.exp v). set (c := Dec.coeff v).
      set (p := (10 ^ Z.to_N k)%N).
      assert (HP : Z.of_N p = 10 ^ k) by (apply pow10_of_N; unfold k; lia).
      assert (Hp : (p <> 0)%N) by (unfold p; apply N.pow_nonzero; discriminate).
      pose proof (N.div_mod c p Hp) as Hdm.
      pose proof (N.mod_lt c p Hp) as Hr.
      set (q := (c / p)%N) in *. set (r := (c mod p)%N) in *.
      rewrite <- HP.
      destruct (p <? 2 * r)%N eqn:E1; cbn [orb Dec.coeff].
      * apply N.ltb_lt in E1. split; [lia|]. intros Htie. lia.
      * apply N.ltb_ge in E1.
        destruct (2 * r =? p)%N eqn:E2; cbn [andb].
        -- apply N.eqb_eq in E2. destruct (N.odd q) eqn:Eo; cbn [Dec.coeff].
           ++ split; [lia|]. intros _.
              rewrite even_of_N, N.add_1_r, N.odd_succ, <- N.negb_odd, Eo.
              reflexivity.
           ++ split; [lia|]. intros _. rewrite even_of_N, Eo. reflexivity.
        -- apply N.eqb_neq in E2. cbn [Dec.coeff]. split; [lia|]. intros Htie. lia.
Qed.

Lemma quantize_rescale v other q :
  Dec.quantize v other = Some q -> q = Dec.rescale v (Dec.exp other).
Proof.
  unfold Dec.quantize.
  destruct (negb _); [discriminate|].
  destruct (Dec.coeff v =? 0)%N eqn:E0.
  - intros H; inversion H. unfold Dec.rescale. rewrite E0. reflexivity.
  - destruct (Dec.Emax <? Dec.adjusted v); [discriminate|].
    destruct (Dec.prec <? _); [discriminate|].
    destruct (Dec.Emax <? _); [discriminate|].
    destruct (Dec.prec <? _); [discriminate|].
    intros H; inversion H; reflexivity.
Qed.

(** What [quantize(Decimal('0.01'))] returns has two decimal places and is
    the argument rounded to cents. *)
Lemma quantize_cent_rounded v q :
  Dec.quantize v Dec.cent = Some q -> two_places q /\ rounded_to_cents v q.
Proof.
  intros H. apply quantize_rescale in H. subst q. split.
  - unfold two_places. apply rescale_exp.
  - apply rescale_rounded.
Qed.

(** *** Row properties the session keeps *)

Lemma rbind_ret_inv {A B : Type} (x : result A) (k : A -> result B) b :
  rbind x k = Ret b -> exists a, x = Ret a /\ k a = Ret b.
Proof. destruct x as [a|e]; cbn; intros H; [eauto | discriminate]. Qed.

Lemma mret_bind {A B : Type} (a : A) (k : A -> db B) : (mret a ≫= k) = k a.
Proof. reflexivity. Qed.

(** On a dict whose price is a [Decimal] or [None] the textual-price
    branch of [update_item] is not taken. *)
Lemma price_to_decimal_id data :
  price_normalized data -> price_to_decimal data = mret data.
Proof.
  intros Hd. unfold price_to_decimal.
  destruct (data !! "price") as [v|] eqn:E; [|reflexivity].
  apply Hd in E as [-> | (d & -> & _)]; reflexivity.
Qed.

Section RowProperty.

Variable P : models.Item -> Prop.

Lemma keeps_refl s : keeps P s s.
Proof. intros H; exact H. Qed.

Lemma keeps_trans a b c : keeps P a b -> keeps P b c -> keeps P a c.
Proof. unfold keeps. auto. Qed.

Lemma delete_ids_of ids table : Forall P table -> Forall P (delete_ids ids table).
Proof.
  unfold delete_ids. rewrite !List.Forall_forall.
  intros H r Hr. apply filter_In in Hr as [Hr _]. apply H, Hr.
Qed.

Lemma insert_all_of news table :
  Forall (insertable P) news -> Forall P table -> Forall P (fst (insert_all news table)).
Proof.
  revert table. induction news as [|it news IH]; intros table Hn Ht; [exact Ht|].
  cbn [insert_all].
  destruct (insert_all news (table ++ [new_row (next_id table) it])) as [t ids] eqn:E.
  cbn [fst]. inversion Hn as [|? ? Hit Hnews]; subst.
  specialize (IH (table ++ [new_row (next_id table) it]) Hnews).
  rewrite E in IH. apply IH.
  apply Forall_app. split; [exact Ht|].
  constructor; [apply Hit | constructor].
Qed.

Lemma flushed_keeps s : keeps P s (flushed s).
Proof.
  intros (Hc & Hw & Hn). unfold flushed.
  pose proof (insert_all_of (new_ s) (delete_ids (deleted s) (working s)) Hn
                (delete_ids_of _ _ Hw)) as H.
  destruct (insert_all (new_ s) (delete_ids (deleted s) (working s))) as [t ids].
  repeat split; [exact Hc | exact H | constructor].
Qed.

Lemma durable_keeps s : keeps P s (durable s).
Proof.
  intros H. apply flushed_keeps in H as (_ & Hw & _). unfold durable.
  repeat split; [exact Hw | exact Hw | constructor].
Qed.

Lemma store_call_keeps ev : steps (keeps P) (store_call ev).
Proof.
  intros s r s' H. unfold store_call in H.
  assert (E : s' = called ev s) by (destruct (next_fault s); inversion H; reflexivity).
  subst s'. intros Hi. exact Hi.
Qed.

Lemma modify_keeps (f : session -> session) :
  (forall s, keeps P s (f s)) -> steps (keeps P) (modify f).
Proof. intros Hf s r s' H. inversion H; subst. apply Hf. Qed.

Local Ltac keeps_walk prim := walk keeps_refl keeps_trans prim.

Local Ltac keeps_bind tac := apply (steps_bind _ keeps_trans); [tac | intros ?].

Lemma db_execute_keeps q : steps (keeps P) (db_execute q).
Proof. unfold db_execute. keeps_walk ltac:(apply store_call_keeps). Qed.

Lemma db_commit_keeps : steps (keeps P) db_commit.
Proof.
  unfold db_commit.
  keeps_walk ltac:(first [apply store_call_keeps | apply modify_keeps, durable_keeps]).
Qed.

Lemma db_flush_keeps : steps (keeps P) db_flush.
Proof.
  unfold db_flush.
  keeps_walk ltac:(first [apply store_call_keeps | apply modify_keeps, flushed_keeps]).
Qed.

Lemma db_rollback_keeps : steps (keeps P) db_rollback.
Proof.
  unfold db_rollback. apply modify_keeps. intros s (Hc & _ & _).
  repeat split; [exact Hc | exact Hc | constructor].
Qed.

Lemma db_delete_keeps r : steps (keeps P) (db_delete r).
Proof. unfold db_delete. apply modify_keeps. intros s H. exact H. Qed.

Lemma db_add_keeps it : insertable P it -> steps (keeps P) (db_add it).
Proof.
  intros Hit. unfold db_add. apply modify_keeps. intros s (Hc & Hw & Hn).
  repeat split; [exact Hc | exact Hw |]. cbn [new_].
  apply Forall_app. split; [exact Hn | constructor; [exact Hit | constructor]].
Qed.

Lemma asyncio_sleep_keeps ms : steps (keeps P) (asyncio_sleep ms).
Proof. intros s r s' H. inversion H; subst. intros Hi. exact Hi. Qed.

Lemma db_item_id_keeps : steps (keeps P) db_item_id.
Proof.
  unfold db_item_id. keeps_walk idtac.
  match goal with |- context [last ?l] => destruct (last l) end; keeps_walk idtac.
Qed.

Lemma update_rows_of item_id data table table' :
  assigns P data ->
  update_rows item_id data table = Ret table' ->
  Forall P table -> Forall P table'.
Proof.
  intros Hd. revert table'.
  induction table as [|r table IH]; intros table' H Hn; cbn [update_rows] in H.
  - inversion H. constructor.
  - apply rbind_ret_inv in H as (r' & Hr & H).
    apply rbind_ret_inv in H as (rest' & Hrest & H).
    inversion H; subst table'. clear H.
    inversion Hn as [|? ? Hr0 Hn0]; subst.
    constructor; [| apply IH; [exact Hrest | exact Hn0]].
    destruct (models.id r =? item_id).
    + eapply Hd; eassumption.
    + inversion Hr; subst. exact Hr0.
Qed.

Lemma db_execute_update_keeps item_id data :
  assigns P data -> steps (keeps P) (db_execute_update item_id data).
Proof.
  intros Hd. unfold db_execute_update.
  keeps_bind ltac:(apply store_call_keeps).
  intros s r s'. rewrite bind_run. cbn [gets]. rewrite bind_run. unfold of_result.
  destruct (update_rows item_id data (working s)) as [table'|e] eqn:E.
  - intros H. inversion H; subst. intros (Hc & Hw & Hn).
    repeat split; [exact Hc | | exact Hn]. cbn [working].
    eapply update_rows_of; eassumption.
  - intros H. inversion H; subst. intros Hi. exact Hi.
Qed.

Lemma update_item_try_keeps item_id item :
  price_normalized (ItemUpdate_model_dump_exclude_unset item) ->
  assigns P (ItemUpdate_model_dump_exclude_unset item) ->
  steps (keeps P) (update_item_try item_id item).
Proof.
  intros Hpn Hd. unfold update_item_try.
  keeps_bind ltac:(apply db_execute_keeps).
  keeps_bind ltac:(keeps_walk idtac).
  match goal with |- context [match ?o with Some _ => _ | None => _ end] =>
    destruct o end; [| keeps_walk idtac].
  destruct (decide _); [keeps_walk idtac |].
  rewrite (price_to_decimal_id _ Hpn), mret_bind.
  keeps_bind ltac:(apply db_execute_update_keeps; exact Hd).
  keeps_bind ltac:(apply db_commit_keeps).
  keeps_bind ltac:(apply db_execute_keeps).
  keeps_walk idtac.
Qed.

Lemma update_item_for_keeps attempts item_id item :
  price_normalized (ItemUpdate_model_dump_exclude_unset item) ->
  assigns P (ItemUpdate_model_dump_exclude_unset item) ->
  steps (keeps P) (update_item_for attempts item_id item).
Proof.
  intros Hpn Hd. induction attempts as [|attempt rest IH]; cbn [update_item_for].
  - keeps_walk idtac.
  - apply (steps_try_except _ keeps_trans);
      [apply update_item_try_keeps; assumption | intros e].
    destruct e as [msg|msg|code detail|msg].
    + destruct (_ && _).
      * keeps_bind ltac:(apply db_rollback_keeps).
        keeps_bind ltac:(apply asyncio_sleep_keeps).
        exact IH.
      * keeps_bind ltac:(apply db_rollback_keeps). keeps_walk idtac.
    + keeps_bind ltac:(apply db_rollback_keeps). keeps_walk idtac.
    + keeps_bind ltac:(apply db_rollback_keeps). keeps_walk idtac.
    + keeps_bind ltac:(apply db_rollback_keeps). keeps_walk idtac.
Qed.

Lemma create_item_keeps item :
  insertable P item -> steps (keeps P) (create_item item).
Proof.
  intros Hit. unfold create_item.
  apply (steps_try_except _ keeps_trans).
  - keeps_bind ltac:(apply db_add_keeps; exact Hit).
    keeps_bind ltac:(apply db_commit_keeps).
    keeps_bind ltac:(apply db_item_id_keeps).
    keeps_bind ltac:(apply db_execute_keeps).
    keeps_walk idtac.
  - intros e. destruct e;
      (keeps_bind ltac:(apply db_rollback_keeps); keeps_walk idtac).
Qed.

Lemma delete_item_keeps item_id : steps (keeps P) (delete_item item_id).
Proof.
  unfold delete_item.
  apply (steps_try_except _ keeps_trans).
  - keeps_bind ltac:(apply db_execute_keeps).
    keeps_bind ltac:(keeps_walk idtac).
    match goal with |- context [match ?o with Some _ => _ | None => _ end] =>
      destruct o end; [| keeps_walk idtac].
    keeps_bind ltac:(apply db_delete_keeps).
    keeps_bind ltac:(apply db_flush_keeps).
    keeps_walk idtac.
  - intros e. destruct e;
      (keeps_bind ltac:(apply db_rollback_keeps); keeps_walk idtac).
Qed.

Lemma get_item_keeps item_id : steps (keeps P) (get_item item_id).
Proof.
  unfold get_item.
  apply (steps_try_except _ keeps_trans).
  - keeps_bind ltac:(apply db_execute_keeps).
    keeps_bind ltac:(keeps_walk idtac).
    match goal with |- context [match ?o with Some _ => _ | None => _ end] =>
      destruct o end; keeps_walk idtac.
  - intros e. destruct e; keeps_walk idtac.
Qed.

Lemma list_items_keeps skip limit_n min_price max_price name_contains :
  steps (keeps P) (list_items skip limit_n min_price max_price name_contains).
Proof.
  unfold list_items.
  apply (steps_try_except _ keeps_trans);
    [apply db_execute_keeps | intros e; keeps_walk idtac].
Qed.

Lemma get_db_keeps {A : Type} (endpoint : db A) :
  steps (keeps P) endpoint -> steps (keeps P) (get_db endpoint).
Proof.
  intros He. unfold get_db.
  apply (steps_try_except _ keeps_trans).
  - keeps_bind ltac:(exact He).
    keeps_bind ltac:(apply db_commit_keeps).
    keeps_walk idtac.
  - intros e. keeps_bind ltac:(apply db_rollback_keeps). keeps_walk idtac.
Qed.

Lemma serialize_response_keeps {A : Type} (response_model : A -> vres A) c :
  steps (keeps P) (serialize_response response_model c).
Proof. unfold serialize_response. destruct (response_model c); keeps_walk idtac. Qed.

(** A route whose endpoint keeps the property leaves a stored table with
    the property a stored table with the property. *)
Lemma route_keeps {A : Type} (success : Z) (response_model : A -> vres A)
    (endpoint : db A) s :
  steps (keeps P) endpoint ->
  Forall P (committed s) ->
  Forall P (committed (snd (route success response_model endpoint s))).
Proof.
  intros He Hn. unfold route.
  destruct (get_db _ (AsyncSessionLocal s)) as [r s'] eqn:E. cbn [snd].
  apply get_db_keeps in E.
  - apply E. repeat split; [exact Hn | exact Hn | constructor].
  - keeps_bind ltac:(exact He). apply serialize_response_keeps.
Qed.

End RowProperty.

(** *** The price *)

(** What each assignment of the statement does to the price of a row. *)
Lemma set_name_price v r r' : set_name v r = Ret r' -> models.price r' = models.price r.
Proof. destruct v as [[| | |]|]; cbn; intros H; inversion H; reflexivity. Qed.

Lemma set_description_price v r r' :
  set_description v r = Ret r' -> models.price r' = models.price r.
Proof. destruct v as [[| | |]|]; cbn; intros H; inversion H; reflexivity. Qed.

Lemma set_quantity_price v r r' :
  set_quantity v r = Ret r' -> models.price r' = models.price r.
Proof. destruct v as [[| | |]|]; cbn; intros H; inversion H; reflexivity. Qed.

Lemma set_price_price v r r' :
  set_price v r = Ret r' ->
  (v = None /\ models.price r' = models.price r) \/ v = Some (VDec (models.price r')).
Proof. destruct v as [[| | |]|]; cbn; intros H; inversion H; auto. Qed.

Lemma set_values_price data r r' :
  set_values data r = Ret r' ->
  models.price r' = models.price r \/ data !! "price" = Some (VDec (models.price r')).
Proof.
  unfold set_values. destruct (decide _); [|discriminate]. intros H.
  apply rbind_ret_inv in H as (r1 & H1 & H).
  apply rbind_ret_inv in H as (r2 & H2 & H).
  apply rbind_ret_inv in H as (r3 & H3 & H4).
  apply set_name_price in H1. apply set_description_price in H2.
  apply set_quantity_price in H4.
  apply set_price_price in H3 as [[_ H3] | H3].
  - left. congruence.
  - right. rewrite H4. exact H3.
Qed.

Lemma assigns_two_places data : price_normalized data -> assigns has_two_places data.
Proof.
  intros Hd r r' Hset Hr. unfold has_two_places in *.
  apply set_values_price in Hset as [E | E].
  - rewrite E. exact Hr.
  - apply Hd in E as [E | (d & E & Hd')]; [discriminate|].
    inversion E; subst. exact Hd'.
Qed.

(** The dict dumped from a validated update holds the model's own price. *)
Lemma model_dump_price (it : ItemUpdate) v :
  ItemUpdate_model_dump_exclude_unset it !! "price" = Some v ->
  v = of_opt VDec (iu_price it).
Proof.
  unfold ItemUpdate_model_dump_exclude_unset, ItemUpdate_model_dump.
  rewrite map_lookup_filter_Some. intros [H _].
  rewrite lookup_insert_ne in H by discriminate.
  rewrite lookup_insert_ne in H by discriminate.
  rewrite lookup_insert_eq in H. inversion H. reflexivity.
Qed.

Lemma model_dump_price_normalized (it : ItemUpdate) :
  (forall d, iu_price it = Some d -> two_places d) ->
  price_normalized (ItemUpdate_model_dump_exclude_unset it).
Proof.
  intros Hit v Hv. apply model_dump_price in Hv. subst v.
  destruct (iu_price it) as [d|]; cbn; [right | left; reflexivity].
  exists d. split; [reflexivity | apply Hit; reflexivity].
Qed.

(** What a body that passes the create schema says about the price. *)
Lemma ItemCreate_validate_price (b : body) (item : ItemCreate) :
  ItemCreate_validate b = Valid item ->
  exists v, b_price b = Given v /\ Dec.quantize v Dec.cent = Some (ic_price item).
Proof.
  unfold ItemCreate_validate. intros H.
  apply vap_valid_inv in H as (g4 & q & H & _ & ->).
  apply vap_valid_inv in H as (g3 & p & H & Hp & ->).
  apply vap_valid_inv in H as (g2 & d & H & _ & ->).
  apply vap_valid_inv in H as (g1 & n & H & _ & ->).
  inversion H; subst g1. cbn [ic_price]. clear H.
  apply vbind_valid_inv in Hp as (v0 & Hreq & Hval).
  destruct (b_price b) as [| |v]; cbn [Schema.required] in Hreq; try discriminate.
  unfold Schema.decimal_ge0 in Hreq.
  destruct (Dec.geb v Dec.zero); inversion Hreq; subst v0.
  unfold ItemBase_validate_price in Hval.
  destruct (Dec.ltb v Dec.zero); [discriminate|].
  destruct (Dec.quantize v Dec.cent) as [q0|] eqn:Eq; inversion Hval; subst.
  exists v. split; [reflexivity | exact Eq].
Qed.

(** What a body that passes the update schema says about the price. *)
Lemma ItemUpdate_validate_price_normalized (b : body) (item : ItemUpdate) :
  ItemUpdate_validate b = Valid item ->
  forall d, iu_price item = Some d -> two_places d.
Proof.
  intros H d Hd.
  apply ItemUpdate_validate_inv in H as (n & de & p & q & _ & _ & Hp & _ & ->).
  cbn [iu_price] in Hd. subst p.
  apply vbind_valid_inv in Hp as (o & _ & Hval).
  unfold ItemUpdate_validate_price in Hval.
  destruct o as [v|]; [|discriminate].
  destruct (Dec.ltb v Dec.zero); [discriminate|].
  destruct (Dec.quantize v Dec.cent) as [q0|] eqn:Eq; inversion Hval; subst.
  apply quantize_cent_rounded in Eq as [Hq _]. exact Hq.
Qed.

Lemma delete_ids_nil table : delete_ids [] table = table.
Proof.
  unfold delete_ids. induction table as [|r table IH]; [reflexivity|].
  cbn. cbn in IH. rewrite IH. reflexivity.
Qed.

Lemma flushed_one_new s it :
  new_ s = [it] -> deleted s = [] ->
  working (flushed s) = working s ++ [new_row (next_id (working s)) it]
  /\ new_ids (flushed s) = new_ids s ++ [next_id (working s)]
  /\ new_ (flushed s) = [] /\ deleted (flushed s) = [].
Proof.
  intros Hn Hd. unfold flushed. rewrite Hn, Hd, delete_ids_nil. cbn. auto.
Qed.

Lemma flushed_nothing s :
  new_ s = [] -> deleted s = [] -> working (flushed s) = working s.
Proof. intros Hn Hd. unfold flushed. rewrite Hn, Hd, delete_ids_nil. reflexivity. Qed.

(** The row [create_item] returns is the row it inserted. *)
Lemma create_item_ret_inv item s r s1 :
  create_item item s = (Ret r, s1) ->
  new_ s = [] -> deleted s = [] ->
  r = new_row (next_id (working s)) item
  /\ In r (working s1) /\ new_ s1 = [] /\ deleted s1 = [].
Proof.
  intros H Hn Hd. unfold create_item in H.
  apply try_except_ret_inv in H as [H | (e & s2 & _ & H)];
    [| exfalso; destruct e; eapply rollback_then_throw_not_ret, H].
  apply bind_ret_inv in H as (u & s2 & Hadd & H).
  inversion Hadd; subst s2; clear Hadd.
  apply bind_ret_inv in H as (u' & s3 & Hcommit & H).
  apply db_commit_ret_inv in Hcommit as [_ ->].
  apply bind_ret_inv in H as (i & s4 & Hid & H).
  apply bind_ret_inv in H as (rows & s5 & Hsel & H).
  apply db_execute_ret_inv in Hsel as (_ & -> & ->).
  apply scalar_one_ret_inv in H as [-> Hrows].
  set (s2 := called EvCommit
               (mkSession (committed s) (working s) (new_ s ++ [item]) (deleted s)
                  (new_ids s) (faults s) (log s))) in *.
  assert (Hn2 : new_ s2 = [item]) by (cbn; rewrite Hn; reflexivity).
  assert (Hd2 : deleted s2 = []) by (cbn; exact Hd).
  destruct (flushed_one_new s2 item Hn2 Hd2) as (Hw & Hids & _ & _).
  change (working s2) with (working s) in Hw, Hids.
  unfold db_item_id in Hid. rewrite bind_run in Hid. cbn [gets] in Hid.
  change (new_ids (durable s2)) with (new_ids (flushed s2)) in Hid.
  rewrite Hids, last_snoc in Hid. inversion Hid; subst i s4. clear Hid.
  rewrite run_select_by_id in Hrows.
  change (working (durable s2)) with (working (flushed s2)) in Hrows.
  rewrite Hw in Hrows. unfold rows_with in Hrows. rewrite List.filter_app in Hrows.
  cbn [List.filter new_row models.id] in Hrows. rewrite Z.eqb_refl in Hrows.
  assert (Hr : r = new_row (next_id (working s)) item).
  { destruct (List.filter _ (working s)) as [|a [|a' l]]; inversion Hrows; reflexivity. }
  split; [exact Hr|]. split.
  - change (working (called EvSelect (durable s2))) with (working (flushed s2)).
    rewrite Hw, Hr. apply in_or_app. right. left. reflexivity.
  - split; reflexivity.
Qed.

(** The digit count is the true one: the fuel of [Dec.ndigits] is
    enough. *)
Lemma size_div10 (n : N) : (10 <= n)%N -> (N.size (n / 10) < N.size n)%N.
Proof.
  intros Hn.
  assert (Hn0 : n <> 0%N) by lia.
  destruct (N.eq_dec (n / 10)%N 0%N) as [E|E].
  - rewrite E. destruct n; [lia | reflexivity].
  - rewrite !N.size_log2 by assumption.
    apply -> N.succ_lt_mono.
    assert (H2 : (2 * (n / 10) <= n)%N).
    { pose proof (N.Div0.mul_div_le n 10) as Hm.
      set (q := (n / 10)%N) in *. clearbody q. lia. }
    apply N.lt_le_trans with (N.log2 (2 * (n / 10))%N).
    + rewrite N.log2_double by (apply N.neq_0_lt_0; exact E).
      apply N.lt_succ_diag_r.
    + apply N.log2_le_mono, H2.
Qed.

Lemma ndigits_aux_spec (fuel : nat) (n : N) :
  (N.to_nat (N.size n) <= fuel)%nat -> (0 < n)%N ->
  1 <= Dec.ndigits_aux fuel n
  /\ 10 ^ (Dec.ndigits_aux fuel n - 1) <= Z.of_N n < 10 ^ Dec.ndigits_aux fuel n.
Proof.
  revert n. induction fuel as [|fuel IH]; intros n Hf Hn.
  - exfalso. destruct n as [|p]; [lia | cbn in Hf; destruct p; cbn in Hf; lia].
  - cbn [Dec.ndigits_aux]. destruct (n <? 10)%N eqn:E.
    + apply N.ltb_lt in E. cbn. lia.
    + apply N.ltb_ge in E.
      pose proof (size_div10 n E) as Hs.
      assert (Hq : (0 < n / 10)%N) by (apply N.div_str_pos; lia).
      destruct (IH (n / 10)%N) as (H1 & Hlo & Hhi); [lia | exact Hq |].
      set (k := Dec.ndigits_aux fuel (n / 10)) in *.
      split; [lia|].
      replace (1 + k - 1) with (Z.succ (k - 1)) by lia.
      replace (1 + k) with (Z.succ k) by lia.
      rewrite !Z.pow_succ_r by lia.
      rewrite N2Z.inj_div in Hlo, Hhi. change (Z.of_N 10) with 10 in *.
      pose proof (Z.div_mod (Z.of_N n) 10 ltac:(lia)).
      pose proof (Z.mod_pos_bound (Z.of_N n) 10 ltac:(lia)).
      split; nia.
Qed.

Lemma ndigits_spec (n : N) :
  (0 < n)%N ->
  1 <= Dec.ndigits n
  /\ 10 ^ (Dec.ndigits n - 1) <= Z.of_N n < 10 ^ Dec.ndigits n.
Proof. intros Hn. apply ndigits_aux_spec; [reflexivity | exact Hn]. Qed.

Lemma ndigits_le (n : N) (k : Z) : 1 <= k -> Z.of_N n < 10 ^ k -> Dec.ndigits n <= k.
Proof.
  intros Hk Hn. destruct (N.eq_dec n 0%N) as [->|Hn0]; [change (Dec.ndigits 0) with 1; lia|].
  destruct (ndigits_spec n) as (H1 & Hlo & _); [lia|].
  destruct (Z_le_gt_dec (Dec.ndigits n) k) as [H|H]; [exact H|]. exfalso.
  assert (10 ^ k <= 10 ^ (Dec.ndigits n - 1)) by (apply Z.pow_le_mono_r; lia).
  lia.
Qed.

(** Every price below 10^25 can be quantized to cents. *)
Lemma quantize_cent_total (v : Dec.t) :
  Dec.exp v + Dec.ndigits (Dec.coeff v) <= 25 ->
  exists q, Dec.quantize v Dec.cent = Some q.
Proof.
  intros Hsmall. unfold Dec.quantize. cbn [Dec.exp Dec.cent negb andb].
  change (negb ((Dec.Etiny <=? -2) && (-2 <=? Dec.Emax))) with false. cbv iota.
  destruct (Dec.coeff v =? 0)%N eqn:E0; [eexists; reflexivity|].
  apply N.eqb_neq in E0.
  destruct (ndigits_spec (Dec.coeff v)) as (H1 & Hlo & Hhi); [lia|].
  unfold Dec.adjusted, Dec.Emax, Dec.prec.
  destruct (999999 <? _) eqn:Ea; [apply Z.ltb_lt in Ea; lia|].
  destruct (28 <? _) eqn:Eb; [apply Z.ltb_lt in Eb; lia|].
  assert (Hd : Dec.ndigits (Dec.coeff (Dec.rescale v (-2))) <= 28).
  { apply ndigits_le; [lia|]. unfold Dec.rescale.
    destruct (Dec.coeff v =? 0)%N; [cbn; lia|].
    destruct (-2 <=? Dec.exp v) eqn:Ee; cbn [Dec.coeff].
    - apply Z.leb_le in Ee. rewrite N2Z.inj_mul, pow10_of_N by lia.
      assert (10 ^ Dec.ndigits (Dec.coeff v) * 10 ^ (Dec.exp v - -2) <= 10 ^ 28).
      { rewrite <- Z.pow_add_r by lia. apply Z.pow_le_mono_r; lia. }
      assert (0 < 10 ^ (Dec.exp v - -2)) by (apply Z.pow_pos_nonneg; lia).
      nia.
    - apply Z.leb_gt in Ee.
      set (p := (10 ^ Z.to_N (-2 - Dec.exp v))%N).
      assert (Hp : (p <> 0)%N) by (unfold p; apply N.pow_nonzero; discriminate).
      assert (HP : Z.of_N p = 10 ^ (-2 - Dec.exp v)) by (apply pow10_of_N; lia).
      assert (Hq : Z.of_N (Dec.coeff v / p) < 10 ^ 27).
      { rewrite N2Z.inj_div, HP.
        apply Z.div_lt_upper_bound; [apply Z.pow_pos_nonneg; lia|].
        rewrite <- Z.pow_add_r by lia.
        assert (10 ^ Dec.ndigits (Dec.coeff v) <= 10 ^ (-2 - Dec.exp v + 27))
          by (apply Z.pow_le_mono_r; lia).
        lia. }
      assert (10 ^ 27 + 1 < 10 ^ 28) by reflexivity.
      set (q := (Dec.coeff v / p)%N) in *.
      destruct (_ || _); lia. }
  rewrite rescale_exp.
  destruct (999999 <? -2 + _ - 1) eqn:Ec; [apply Z.ltb_lt in Ec; lia|].
  destruct (28 <? Dec.ndigits _) eqn:Ed; [apply Z.ltb_lt in Ed; lia|].
  eexists; reflexivity.
Qed.

Lemma next_id_fresh (table : list models.Item) : rows_with (next_id table) table = [].
Proof.
  unfold rows_with, next_id.
  assert (H : forall r, In r table -> models.id r <= foldr Z.max 0 (map models.id table)).
  { induction table as [|r0 table IH]; intros r Hin; [destruct Hin|].
    cbn [map foldr]. destruct Hin as [-> | Hin]; [lia|]. specialize (IH r Hin). lia. }
  set (m := foldr Z.max 0 (map models.id table)) in *. clearbody m.
  induction table as [|r0 table IH]; [reflexivity|]. cbn [List.filter].
  destruct (models.id r0 =? 1 + m) eqn:E.
  - apply Z.eqb_eq in E. specialize (H r0 (or_introl eq_refl)). lia.
  - apply IH. intros r Hin. apply H. right. exact Hin.
Qed.

Lemma db_commit_quiet s :
  next_fault s = None -> db_commit s = (Ret tt, durable (called EvCommit s)).
Proof.
  intros Hq. unfold db_commit. rewrite bind_run, store_call_quiet by exact Hq.
  reflexivity.
Qed.

(** With a store that raises nothing, [create_item] returns the row it
    inserted under a new key. *)
Lemma create_item_quiet item s :
  quiet s -> new_ s = [] -> deleted s = [] -> new_ids s = [] ->
  exists s1,
    create_item item s = (Ret (new_row (next_id (working s)) item), s1)
    /\ quiet s1.
Proof.
  intros Hq Hn Hd Hi. unfold create_item, try_except.
  rewrite bind_run. unfold db_add at 1. cbn [modify].
  set (s2 := mkSession (committed s) (working s) (new_ s ++ [item]) (deleted s)
               (new_ids s) (faults s) (log s)).
  assert (Hq2 : quiet s2) by exact Hq.
  rewrite bind_run, db_commit_quiet by (apply quiet_next_fault, Hq2).
  set (s3 := called EvCommit s2).
  assert (Hn3 : new_ s3 = [item]) by (cbn; rewrite Hn; reflexivity).
  assert (Hd3 : deleted s3 = []) by (cbn; exact Hd).
  destruct (flushed_one_new s3 item Hn3 Hd3) as (Hw & Hids & _ & _).
  change (working s3) with (working s) in Hw, Hids.
  change (new_ids s3) with (new_ids s) in Hids. rewrite Hi in Hids.
  assert (Hq3 : quiet (durable s3)).
  { unfold quiet, durable. cbn [faults]. unfold flushed.
    destruct (insert_all _ _). cbn [faults]. apply (quiet_called EvCommit s2 Hq2). }
  rewrite bind_run. unfold db_item_id. rewrite bind_run. cbn [gets].
  change (new_ids (durable s3)) with (new_ids (flushed s3)). rewrite Hids.
  cbn [app last mret db_ret].
  rewrite bind_run, db_execute_quiet by (apply quiet_next_fault, Hq3).
  rewrite run_select_by_id.
  change (working (durable s3)) with (working (flushed s3)). rewrite Hw.
  unfold rows_with. rewrite List.filter_app. fold (rows_with (next_id (working s)) (working s)).
  rewrite next_id_fresh. cbn [List.filter new_row models.id app].
  rewrite Z.eqb_refl. cbn [scalar_one mret db_ret].
  eexists. split; [reflexivity | apply quiet_called, Hq3].
Qed.

Lemma Dec_compare_antisym (a b : Dec.t) :
  Dec.compare b a = CompOpp (Dec.compare a b).
Proof. unfold Dec.compare. rewrite (Z.min_comm (Dec.exp b)). apply Z.compare_antisym. Qed.

Lemma negative_not_ge0 (v : Dec.t) : Dec.ltb v Dec.zero = true -> Dec.geb v Dec.zero = false.
Proof.
  unfold Dec.ltb, Dec.geb, Dec.leb. rewrite (Dec_compare_antisym v Dec.zero).
  destruct (Dec.compare v Dec.zero); cbn; congruence.
Qed.

(** The sign of a decimal against zero. *)
Lemma compare_zero (d : Dec.t) :
  Dec.compare Dec.zero d = Z.compare 0 (Dec.scoeff d).
Proof.
  unfold Dec.compare. cbn [Dec.zero Dec.exp Dec.scoeff Dec.sign Dec.coeff Z.of_N].
  rewrite Z.mul_0_l.
  assert (Hp : 0 < 10 ^ (Dec.exp d - Z.min 0 (Dec.exp d)))
    by (apply Z.pow_pos_nonneg; lia).
  set (p := 10 ^ (Dec.exp d - Z.min 0 (Dec.exp d))) in *. clearbody p.
  destruct (Z.compare_spec 0 (Dec.scoeff d)) as [E|E|E].
  - rewrite <- E. reflexivity.
  - apply Z.compare_lt_iff. nia.
  - apply Z.compare_gt_iff. nia.
Qed.

Lemma ge0_iff (d : Dec.t) :
  Dec.geb d Dec.zero = true <-> Dec.sign d = false \/ Dec.coeff d = 0%N.
Proof.
  unfold Dec.geb, Dec.leb. rewrite compare_zero. unfold Dec.scoeff.
  destruct d as [[|] [|p] e]; cbn; unfold Z.opp; intuition congruence.
Qed.

Lemma ge0_not_lt0 (d : Dec.t) : Dec.geb d Dec.zero = true -> Dec.ltb d Dec.zero = false.
Proof.
  unfold Dec.geb, Dec.leb, Dec.ltb. rewrite (Dec_compare_antisym Dec.zero d).
  destruct (Dec.compare Dec.zero d); cbn; congruence.
Qed.

(** Quantizing a quantized price gives it back. *)
Lemma quantize_idempotent v q :
  Dec.quantize v Dec.cent = Some q -> Dec.quantize q Dec.cent = Some q.
Proof.
  unfold Dec.quantize. cbn [Dec.exp Dec.cent].
  change (negb ((Dec.Etiny <=? -2) && (-2 <=? Dec.Emax))) with false. cbv iota.
  destruct (Dec.coeff v =? 0)%N eqn:E0.
  - intros H; inversion H; subst. reflexivity.
  - destruct (Dec.Emax <? Dec.adjusted v); [discriminate|].
    destruct (Dec.prec <? Dec.adjusted v - -2 + 1); [discriminate|].
    destruct (Dec.Emax <? Dec.adjusted (Dec.rescale v (-2))) eqn:Ea; [discriminate|].
    destruct (Dec.prec <? Dec.ndigits (Dec.coeff (Dec.rescale v (-2)))) eqn:Ep;
      [discriminate|].
    intros H; inversion H; subst q. clear H.
    set (q := Dec.rescale v (-2)) in *.
    assert (Hq : Dec.exp q = -2) by apply rescale_exp.
    assert (Hr : Dec.rescale q (-2) = q).
    { unfold Dec.rescale at 1. destruct q as [sg c e]. cbn in Hq. subst e.
      cbn [Dec.coeff Dec.exp Dec.sign].
      destruct (c =? 0)%N eqn:Ec; [apply N.eqb_eq in Ec; subst; reflexivity|].
      cbn. rewrite N.mul_1_r. reflexivity. }
    destruct (Dec.coeff q =? 0)%N eqn:Ec.
    + apply N.eqb_eq in Ec. destruct q as [sg c e]. cbn in *. subst. reflexivity.
    + rewrite Ea. unfold Dec.adjusted at 1. rewrite Hq.
      apply Z.ltb_ge in Ep.
      destruct (Dec.prec <? -2 + Dec.ndigits (Dec.coeff q) - 1 - -2 + 1) eqn:Eb;
        [apply Z.ltb_lt in Eb; lia|].
      rewrite Hr, Ea. apply Z.ltb_ge in Ep. 
      destruct (Dec.prec <? Dec.ndigits (Dec.coeff q)) eqn:Ed;
        [apply Z.ltb_lt in Ed; lia | reflexivity].
Qed.

Lemma quantize_sign v other q : Dec.quantize v other = Some q -> Dec.sign q = Dec.sign v.
Proof. intros H. apply quantize_rescale in H. subst. apply rescale_sign. Qed.

Lemma quantize_zero v other q :
  Dec.quantize v other = Some q -> Dec.coeff v = 0%N -> Dec.coeff q = 0%N.
Proof.
  intros H E. apply quantize_rescale in H. subst. unfold Dec.rescale.
  rewrite E. reflexivity.
Qed.

Lemma constrained_str_valid loc lo hi s s' :
  Schema.constrained_str loc lo hi s = Valid s' -> s' = s.
Proof.
  unfold Schema.constrained_str.
  destruct (_ <? _)%nat; [discriminate|]. destruct (_ <? _)%nat; [discriminate|].
  intros H; inversion H; reflexivity.
Qed.

(** What a body that passes the create schema says about the item. *)
Lemma ItemCreate_validate_inv (b : body) (item : ItemCreate) :
  ItemCreate_validate b = Valid item ->
  Schema.constrained_str "name" 1 50 (ic_name item) = Valid (ic_name item)
  /\ Schema.optional_nullable (Schema.constrained_str "description" 0 500)
       (from_option Given Null (ic_description item)) = Valid (ic_description item)
  /\ (exists v, b_price b = Given v /\ Dec.geb v Dec.zero = true
                /\ Dec.quantize v Dec.cent = Some (ic_price item))
  /\ 0 <= ic_quantity item.
Proof.
  unfold ItemCreate_validate. intros H.
  apply vap_valid_inv in H as (g4 & q & H & Hq & ->).
  apply vap_valid_inv in H as (g3 & p & H & Hp & ->).
  apply vap_valid_inv in H as (g2 & d & H & Hd & ->).
  apply vap_valid_inv in H as (g1 & n & H & Hn & ->).
  inversion H; subst g1. clear H.
  cbn [ic_name ic_description ic_price ic_quantity].
  split; [| split; [| split]].
  - destruct (b_name b) as [| |s]; cbn [Schema.required] in Hn; try discriminate.
    pose proof (constrained_str_valid _ _ _ _ _ Hn). subst n. exact Hn.
  - destruct (b_description b) as [| |s]; cbn [Schema.optional_nullable] in Hd.
    + inversion Hd. reflexivity.
    + inversion Hd. reflexivity.
    + apply vbind_valid_inv in Hd as (s' & Hs & Hd). inversion Hd; subst d.
      pose proof (constrained_str_valid _ _ _ _ _ Hs). subst s'.
      cbn [from_option Schema.optional_nullable]. rewrite Hs. reflexivity.
  - apply vbind_valid_inv in Hp as (v0 & Hreq & Hval).
    destruct (b_price b) as [| |v]; cbn [Schema.required] in Hreq; try discriminate.
    unfold Schema.decimal_ge0 in Hreq.
    destruct (Dec.geb v Dec.zero) eqn:Ege; inversion Hreq; subst v0.
    unfold ItemBase_validate_price in Hval.
    destruct (Dec.ltb v Dec.zero); [discriminate|].
    destruct (Dec.quantize v Dec.cent) as [q0|] eqn:Eq; inversion Hval; subst.
    exists v. auto.
  - destruct (b_quantity b) as [| |z]; cbn [Schema.required] in Hq; try discriminate.
    unfold Schema.int_ge0 in Hq. destruct (0 <=? z) eqn:E; inversion Hq; subst.
    apply Z.leb_le, E.
Qed.

(** The row inserted for an accepted body is sent as it is stored. *)
Lemma new_row_presentable b item i :
  ItemCreate_validate b = Valid item -> presentable (new_row i item).
Proof.
  intros H. apply ItemCreate_validate_inv in H as (Hn & Hd & (v & _ & Hge & Hq) & Hqty).
  unfold presentable, Item_validate, new_row.
  cbn [models.id models.name models.description models.price models.quantity].
  rewrite Hn, Hd.
  assert (Hge' : Dec.geb (ic_price item) Dec.zero = true).
  { apply ge0_iff. apply ge0_iff in Hge as [Hs | Hc].
    - left. rewrite (quantize_sign _ _ _ Hq). exact Hs.
    - right. apply (quantize_zero _ _ _ Hq Hc). }
  unfold Schema.decimal_ge0. rewrite Hge'. cbn [vbind].
  unfold ItemBase_validate_price.
  rewrite (ge0_not_lt0 _ Hge'), (quantize_idempotent _ _ Hq).
  unfold Schema.int_ge0. apply Z.leb_le in Hqty. rewrite Hqty. reflexivity.
Qed.

(** A body the create schema accepts, sent to a store that raises nothing,
    is answered 201 with the inserted row. *)
Lemma post_items_quiet b item s :
  ItemCreate_validate b = Valid item -> quiet s ->
  exists s', post_items b s
             = (Response 201 (new_row (next_id (committed s)) item), s').
Proof.
  intros Hv Hq. unfold post_items. rewrite Hv. cbn [validated].
  destruct (create_item_quiet item (AsyncSessionLocal s)) as (s1 & Hc & Hq1);
    [exact Hq | reflexivity | reflexivity | reflexivity |].
  unfold route, get_db, try_except. rewrite !bind_run, Hc.
  unfold serialize_response.
  rewrite (new_row_presentable b item _ Hv). cbn [mret db_ret].
  rewrite bind_run, db_commit_quiet by (apply quiet_next_fault, Hq1).
  eexists. reflexivity.
Qed.



(** ** Explicit nulls in an update *)

Lemma model_dump_lookup (it : ItemUpdate) (k : string) (v : value) :
  ItemUpdate_model_dump_exclude_unset it !! k = Some v <->
  ItemUpdate_model_dump it !! k = Some v /\ k ∈ iu_fields_set it.
Proof.
  unfold ItemUpdate_model_dump_exclude_unset. rewrite map_lookup_filter_Some.
  reflexivity.
Qed.

Lemma model_dump_name it :
  ItemUpdate_model_dump it !! "name" = Some (of_opt VStr (iu_name it)).
Proof. unfold ItemUpdate_model_dump. apply lookup_insert_eq. Qed.

Lemma model_dump_description it :
  ItemUpdate_model_dump it !! "description" = Some (of_opt VStr (iu_description it)).
Proof.
  unfold ItemUpdate_model_dump.
  rewrite lookup_insert_ne by discriminate. apply lookup_insert_eq.
Qed.

Lemma model_dump_price_all it :
  ItemUpdate_model_dump it !! "price" = Some (of_opt VDec (iu_price it)).
Proof.
  unfold ItemUpdate_model_dump.
  do 2 rewrite lookup_insert_ne by discriminate. apply lookup_insert_eq.
Qed.

Lemma model_dump_quantity it :
  ItemUpdate_model_dump it !! "quantity" = Some (of_opt VInt (iu_quantity it)).
Proof.
  unfold ItemUpdate_model_dump.
  do 3 rewrite lookup_insert_ne by discriminate. apply lookup_insert_eq.
Qed.

Lemma model_dump_dom it :
  dom (ItemUpdate_model_dump_exclude_unset it) ⊆ data_columns.
Proof.
  unfold ItemUpdate_model_dump_exclude_unset.
  etransitivity; [apply dom_filter_subseteq|].
  unfold ItemUpdate_model_dump, data_columns.
  rewrite !dom_insert_L, dom_empty_L. set_solver.
Qed.

Lemma supplied_elem {A : Type} (k : string) (f : jfield A) :
  f <> Absent -> k ∈ supplied k f.
Proof. destruct f; intros H; [congruence | |]; cbn; set_solver. Qed.

(** The three required members of a validated update are set. *)
Lemma ItemUpdate_validate_fields_set b it :
  ItemUpdate_validate b = Valid it ->
  "name" ∈ iu_fields_set it /\ "price" ∈ iu_fields_set it
  /\ "quantity" ∈ iu_fields_set it
  /\ (b_description b <> Absent -> "description" ∈ iu_fields_set it).
Proof.
  intros H.
  destruct (ItemUpdate_validate_supplied _ _ H) as (Hn & Hp & Hq).
  apply ItemUpdate_validate_inv in H as (n & d & p & q & _ & _ & _ & _ & ->).
  cbn [iu_fields_set]. unfold body_fields_set.
  pose proof (supplied_elem "name" _ Hn). pose proof (supplied_elem "price" _ Hp).
  pose proof (supplied_elem "quantity" _ Hq).
  repeat split; try set_solver.
  intros Hd. pose proof (supplied_elem "description" _ Hd). set_solver.
Qed.

(** A member given as [null] validates to [None]. *)
Lemma ItemUpdate_validate_null b it :
  ItemUpdate_validate b = Valid it ->
  (b_name b = Null -> iu_name it = None)
  /\ (b_description b = Null -> iu_description it = None)
  /\ (b_price b = Null -> iu_price it = None)
  /\ (b_quantity b = Null -> iu_quantity it = None).
Proof.
  intros H.
  apply ItemUpdate_validate_inv in H as (n & d & p & q & Hn & Hd & Hp & Hq & ->).
  cbn [iu_name iu_description iu_price iu_quantity].
  repeat split; intros E.
  - rewrite E in Hn. inversion Hn. reflexivity.
  - rewrite E in Hd. inversion Hd. reflexivity.
  - rewrite E in Hp. cbn in Hp. inversion Hp. reflexivity.
  - rewrite E in Hq. inversion Hq. reflexivity.
Qed.

(** [exclude_unset] keeps a member that was given as [null]: the dumped
    dict binds its key to [None]. *)
Lemma model_dump_keeps_null b it :
  ItemUpdate_validate b = Valid it ->
  let update_data := ItemUpdate_model_dump_exclude_unset it in
  (b_name b = Null -> update_data !! "name" = Some VNone)
  /\ (b_description b = Null -> update_data !! "description" = Some VNone)
  /\ (b_price b = Null -> update_data !! "price" = Some VNone)
  /\ (b_quantity b = Null -> update_data !! "quantity" = Some VNone).
Proof.
  intros H update_data. subst update_data.
  destruct (ItemUpdate_validate_fields_set _ _ H) as (Fn & Fp & Fq & Fd).
  destruct (ItemUpdate_validate_null _ _ H) as (Nn & Nd & Np & Nq).
  repeat split; intros E; apply model_dump_lookup.
  - rewrite model_dump_name, (Nn E). auto.
  - rewrite model_dump_description, (Nd E). split; [reflexivity|].
    apply Fd. rewrite E. discriminate.
  - rewrite model_dump_price_all, (Np E). auto.
  - rewrite model_dump_quantity, (Nq E). auto.
Qed.

(** The statement fails as soon as the row that carries the id refuses
    it. *)
Lemma update_rows_refused item_id data table r rest e :
  rows_with item_id table = r :: rest ->
  set_values data r = Raise e ->
  update_rows item_id data table = Raise e.
Proof.
  unfold rows_with. induction table as [|r0 table IH]; [discriminate|].
  cbn [List.filter update_rows]. intros Hrows Hset.
  destruct (models.id r0 =? item_id).
  - inversion Hrows; subst. rewrite Hset. reflexivity.
  - cbn [rbind]. rewrite (IH Hrows Hset). reflexivity.
Qed.

(** With [None] bound to [name], [price] or [quantity] the row refuses the
    statement: NOT NULL constraint failed. *)
Lemma set_values_null it r :
  "name" ∈ iu_fields_set it -> "price" ∈ iu_fields_set it ->
  "quantity" ∈ iu_fields_set it ->
  iu_name it = None \/ iu_price it = None \/ iu_quantity it = None ->
  exists column,
    In column ["name"; "price"; "quantity"]
    /\ set_values (ItemUpdate_model_dump_exclude_unset it) r = Raise (not_null column).
Proof.
  intros Fn Fp Fq Hnull. unfold set_values.
  destruct (decide _) as [_|Hdom]; [| exfalso; apply Hdom, model_dump_dom].
  rewrite (proj2 (model_dump_lookup it "name" _) (conj (model_dump_name it) Fn)).
  rewrite (proj2 (model_dump_lookup it "price" _) (conj (model_dump_price_all it) Fp)).
  rewrite (proj2 (model_dump_lookup it "quantity" _) (conj (model_dump_quantity it) Fq)).
  destruct (iu_name it) as [n|]; cbn [of_opt set_name rbind];
    [| exists "name"; split; [cbn; auto | reflexivity]].
  assert (Hd : exists r2,
             set_description (ItemUpdate_model_dump_exclude_unset it !! "description")
               (models.mkItem (models.id r) n (models.description r) (models.price r)
                  (models.quantity r)) = Ret r2).
  { destruct (ItemUpdate_model_dump_exclude_unset it !! "description") as [v|] eqn:E;
      [| eexists; reflexivity].
    apply model_dump_lookup in E as [E _]. rewrite model_dump_description in E.
    inversion E. destruct (iu_description it); eexists; reflexivity. }
  destruct Hd as [r2 ->]. cbn [rbind].
  destruct (iu_price it) as [p|]; cbn [of_opt set_price rbind];
    [| exists "price"; split; [cbn; auto | reflexivity]].
  destruct (iu_quantity it) as [q|]; cbn [of_opt set_quantity];
    [| exists "quantity"; split; [cbn; auto | reflexivity]].
  destruct Hnull as [H | [H | H]]; discriminate.
Qed.

Lemma model_dump_nonempty it :
  "name" ∈ iu_fields_set it -> ItemUpdate_model_dump_exclude_unset it <> ∅.
Proof.
  intros Fn E.
  pose proof (proj2 (model_dump_lookup it "name" _) (conj (model_dump_name it) Fn)) as H.
  rewrite E, lookup_empty in H. discriminate.
Qed.

(** Whatever passes the update schema dumps to a dict that is not empty:
    the check for "No fields to update provided" is never taken. *)
Lemma ItemUpdate_validate_dump_nonempty b it :
  ItemUpdate_validate b = Valid it -> ItemUpdate_model_dump_exclude_unset it <> ∅.
Proof.
  intros H. apply model_dump_nonempty.
  apply (ItemUpdate_validate_fields_set _ _ H).
Qed.

Lemma db_execute_update_refused item_id data s r rest e :
  next_fault s = None ->
  rows_with item_id (working s) = r :: rest ->
  set_values data r = Raise e ->
  db_execute_update item_id data s = (Raise e, called EvUpdate s).
Proof.
  intros Hq Hrows Hset. unfold db_execute_update.
  rewrite bind_run, store_call_quiet by exact Hq.
  rewrite bind_run. cbn [gets]. rewrite bind_run. unfold of_result.
  change (working (called EvUpdate s)) with (working s).
  rewrite (update_rows_refused _ _ _ _ _ _ Hrows Hset). reflexivity.
Qed.

Lemma update_item_try_refused item_id item s r e :
  quiet s ->
  rows_with item_id (working s) = [r] ->
  ItemUpdate_model_dump_exclude_unset item <> ∅ ->
  price_normalized (ItemUpdate_model_dump_exclude_unset item) ->
  set_values (ItemUpdate_model_dump_exclude_unset item) r = Raise e ->
  update_item_try item_id item s = (Raise e, called EvUpdate (called EvSelect s)).
Proof.
  intros Hq Hrows Hne Hpn Hset. unfold update_item_try.
  rewrite bind_run, db_execute_quiet by (apply quiet_next_fault, Hq).
  rewrite run_select_by_id, Hrows. rewrite bind_run.
  cbn [scalar_one_or_none mret db_ret].
  destruct (decide _) as [E|_]; [contradiction|].
  rewrite (price_to_decimal_id _ Hpn), mret_bind.
  rewrite bind_run.
  rewrite (db_execute_update_refused _ _ _ r [] e);
    [reflexivity | apply quiet_next_fault, quiet_called, Hq | exact Hrows | exact Hset].
Qed.



(** A [null] description is written: the stored description becomes
    NULL. *)
Example null_description_is_written :
  fst (put_items_id 1 Sample.null_description (store [Sample.widget] []))
  = Response 200 (models.mkItem 1 "Gadget" None (Sample.cents 500) 3).
Proof. vm_compute. reflexivity. Qed.

(** ** Failures of the store during an update *)

(** An [OperationalError] that reports no lock takes the busy branch on
    whichever attempt it occurs. *)
Lemma update_item_for_not_locked attempt rest item_id item s msg s1 :
  update_item_try item_id item s = (Raise (OperationalError msg), s1) ->
  locked msg = false ->
  update_item_for (attempt :: rest) item_id item s
  = (Raise (HTTPException 500 "Database is busy, please try again later"),
     rolled_back s1).
Proof.
  intros Htry Hl. cbn [update_item_for]. unfold try_except. rewrite Htry.
  cbn [exn_str]. fold (locked msg). rewrite Hl. reflexivity.
Qed.

(** A constraint violation ends the request at once with the integrity
    error. *)
Lemma update_item_for_integrity attempt rest item_id item s msg s1 :
  update_item_try item_id item s = (Raise (IntegrityError msg), s1) ->
  update_item_for (attempt :: rest) item_id item s
  = (Raise (HTTPException 400 ("Database integrity error: " +:+ msg)),
     rolled_back s1).
Proof.
  intros Htry. cbn [update_item_for]. unfold try_except. rewrite Htry. reflexivity.
Qed.

(** Any other exception ends the request at once with the internal
    error. *)
Lemma update_item_for_other attempt rest item_id item s msg s1 :
  update_item_try item_id item s = (Raise (OtherException msg), s1) ->
  update_item_for (attempt :: rest) item_id item s
  = (Raise (HTTPException 500 ("Internal server error: " +:+ msg)),
     rolled_back s1).
Proof.
  intros Htry. cbn [update_item_for]. unfold try_except. rewrite Htry. reflexivity.
Qed.

(** The [HTTPException]s raised inside the [try] block are caught by the
    clause for [Exception]: an update of an id that is not stored is
    answered 500, not 404. *)
Example update_of_missing_id_is_server_error :
  fst (put_items_id 7 Sample.full_update (store [Sample.widget] []))
  = ErrorResponse 500 "Internal server error: 404: Item not found".
Proof. vm_compute. reflexivity. Qed.

(** ** What the create schema refuses *)

(** A body with an empty name, a negative quantity or a negative price
    does not pass the create schema. *)
Lemma ItemCreate_validate_rejects (b : body) (item : ItemCreate) :
  b_name b = Given ""
  \/ (exists q, b_quantity b = Given q /\ q < 0)
  \/ (exists v, b_price b = Given v /\ Dec.ltb v Dec.zero = true) ->
  ItemCreate_validate b <> Valid item.
Proof.
  intros Hbad H. unfold ItemCreate_validate in H.
  apply vap_valid_inv in H as (g4 & q & H & Hq & ->).
  apply vap_valid_inv in H as (g3 & p & H & Hp & ->).
  apply vap_valid_inv in H as (g2 & d & H & _ & ->).
  apply vap_valid_inv in H as (g1 & n & _ & Hn & ->).
  destruct Hbad as [E | [(q0 & E & Hneg) | (v & E & Hneg)]].
  - rewrite E in Hn. discriminate Hn.
  - rewrite E in Hq. cbn [Schema.required] in Hq. unfold Schema.int_ge0 in Hq.
    destruct (0 <=? q0) eqn:E0; [apply Z.leb_le in E0; lia | discriminate].
  - rewrite E in Hp. cbn [Schema.required] in Hp. unfold Schema.decimal_ge0 in Hp.
    rewrite (negative_not_ge0 _ Hneg) in Hp. discriminate.
Qed.

(** A body the create schema does not accept never reaches the store: the
    session comes back as it went in, and the answer is 422 or, when an
    exception escaped the price validator, 500. *)
Lemma post_items_refused_untouched (b : body) (s : session) :
  (forall item, ItemCreate_validate b <> Valid item) ->
  snd (post_items b s) = s
  /\ ((exists detail, fst (post_items b s) = ErrorResponse 422 detail)
      \/ fst (post_items b s) = ErrorResponse 500 "Internal Server Error").
Proof.
  intros Hno. unfold post_items, validated.
  destruct (ItemCreate_validate b) as [item|errors|exc].
  - exfalso. eapply Hno. reflexivity.
  - split; [reflexivity | left; eexists; reflexivity].
  - split; [reflexivity | right; reflexivity].
Qed.

(** A negative price is always answered 422: the bound of the field is
    checked before the validator runs, so nothing escapes. *)
Lemma post_items_negative_price (b : body) (s : session) (v : Dec.t) :
  b_price b = Given v -> Dec.ltb v Dec.zero = true ->
  exists detail, post_items b s = (ErrorResponse 422 detail, s).
Proof.
  intros E Hneg. unfold post_items, validated, ItemCreate_validate.
  rewrite E. cbn [Schema.required]. unfold Schema.decimal_ge0.
  rewrite (negative_not_ge0 _ Hneg). cbn [vbind].
  destruct (b_name b) as [| |n]; cbn [Schema.required];
    [| | unfold Schema.constrained_str;
         destruct (String.length n <? 1)%nat; [| destruct (50 <? String.length n)%nat]];
    (destruct (b_description b) as [| |d]; cbn [Schema.optional_nullable vbind];
     [| | unfold Schema.constrained_str;
          destruct (String.length d <? 0)%nat; [| destruct (500 <? String.length d)%nat]]);
    (destruct (b_quantity b) as [| |q]; cbn [Schema.required];
     [| | unfold Schema.int_ge0; destruct (0 <=? q)]);
    cbn [vap vbind]; eexists; reflexivity.
Qed.

(** ** Rows written through the routes pass the response model *)

Lemma presentable_iff (r : models.Item) :
  presentable r <->
  Schema.constrained_str "name" 1 50 (models.name r) = Valid (models.name r)
  /\ Schema.optional_nullable (Schema.constrained_str "description" 0 500)
       (from_option Given Null (models.description r)) = Valid (models.description r)
  /\ vbind (Schema.decimal_ge0 "price" (models.price r)) ItemBase_validate_price
     = Valid (models.price r)
  /\ Schema.int_ge0 "quantity" (models.quantity r) = Valid (models.quantity r).
Proof.
  unfold presentable, Item_validate. split.
  - intros H.
    apply vap_valid_inv in H as (g4 & q & H & Hq & E).
    apply vap_valid_inv in H as (g3 & p & H & Hp & ->).
    apply vap_valid_inv in H as (g2 & d & H & Hd & ->).
    apply vap_valid_inv in H as (g1 & n & H & Hn & ->).
    inversion H; subst g1. clear H.
    destruct r as [i n0 d0 p0 q0]. cbn in *. inversion E; subst. auto.
  - intros (Hn & Hd & Hp & Hq). rewrite Hn, Hd, Hp, Hq. destruct r; reflexivity.
Qed.

(** What the four assignments of the statement leave in a row: each
    column keeps its value or takes the one bound in the dict. *)
Lemma set_values_spec data r r' :
  set_values data r = Ret r' ->
  (data !! "name" = None /\ models.name r' = models.name r
   \/ data !! "name" = Some (VStr (models.name r')))
  /\ (data !! "description" = None /\ models.description r' = models.description r
      \/ data !! "description" = Some (of_opt VStr (models.description r')))
  /\ (data !! "price" = None /\ models.price r' = models.price r
      \/ data !! "price" = Some (VDec (models.price r')))
  /\ (data !! "quantity" = None /\ models.quantity r' = models.quantity r
      \/ data !! "quantity" = Some (VInt (models.quantity r'))).
Proof.
  unfold set_values. destruct (decide _); [|discriminate]. intros H.
  apply rbind_ret_inv in H as (r1 & H1 & H).
  apply rbind_ret_inv in H as (r2 & H2 & H).
  apply rbind_ret_inv in H as (r3 & H3 & H4).
  destruct (data !! "name") as [[| n | |]|]; cbn in H1; inversion H1; subst r1; clear H1;
    (destruct (data !! "description") as [[| d | |]|]; cbn in H2; inversion H2;
     subst r2; clear H2);
    (destruct (data !! "price") as [[| | p |]|]; cbn in H3; inversion H3;
     subst r3; clear H3);
    (destruct (data !! "quantity") as [[| | | q]|]; cbn in H4; inversion H4;
     subst r'; clear H4);
    cbn; auto 10.
Qed.

Lemma of_opt_VStr_inv o s : of_opt VStr o = VStr s -> o = Some s.
Proof. destruct o; cbn; intros H; inversion H; reflexivity. Qed.

Lemma of_opt_VDec_inv o d : of_opt VDec o = VDec d -> o = Some d.
Proof. destruct o; cbn; intros H; inversion H; reflexivity. Qed.

Lemma of_opt_VInt_inv o z : of_opt VInt o = VInt z -> o = Some z.
Proof. destruct o; cbn; intros H; inversion H; reflexivity. Qed.

Lemma of_opt_VStr_inj o o' : of_opt VStr o = of_opt VStr o' -> o = o'.
Proof. destruct o, o'; cbn; intros H; inversion H; reflexivity. Qed.

(** The values a validated update carries pass the response model. *)
Lemma ItemUpdate_validate_values b it :
  ItemUpdate_validate b = Valid it ->
  (forall n, iu_name it = Some n -> Schema.constrained_str "name" 1 50 n = Valid n)
  /\ Schema.optional_nullable (Schema.constrained_str "description" 0 500)
       (from_option Given Null (iu_description it)) = Valid (iu_description it)
  /\ (forall p, iu_price it = Some p ->
        vbind (Schema.decimal_ge0 "price" p) ItemBase_validate_price = Valid p)
  /\ (forall q, iu_quantity it = Some q -> Schema.int_ge0 "quantity" q = Valid q).
Proof.
  intros H.
  apply ItemUpdate_validate_inv in H as (n & d & p & q & Hn & Hd & Hp & Hq & ->).
  cbn [iu_name iu_description iu_price iu_quantity].
  split; [| split; [| split]].
  - intros n0 ->.
    apply required_nullable_valid_inv in Hn as [[_ E] | (a & a' & _ & Ha & E)];
      [discriminate|].
    inversion E; subst a'. pose proof (constrained_str_valid _ _ _ _ _ Ha). subst a.
    exact Ha.
  - destruct (b_description b) as [| |s]; cbn [Schema.optional_nullable] in Hd.
    + inversion Hd. reflexivity.
    + inversion Hd. reflexivity.
    + apply vbind_valid_inv in Hd as (s' & Hs & Hd). inversion Hd; subst d.
      pose proof (constrained_str_valid _ _ _ _ _ Hs). subst s'.
      cbn [from_option Schema.optional_nullable]. rewrite Hs. reflexivity.
  - intros p0 ->.
    apply vbind_valid_inv in Hp as (o & Hreq & Hval).
    apply required_nullable_valid_inv in Hreq as [[_ ->] | (v & v' & _ & Hv & ->)];
      [discriminate|].
    unfold Schema.decimal_ge0 in Hv.
    destruct (Dec.geb v Dec.zero) eqn:Hge; inversion Hv; subst v'.
    unfold ItemUpdate_validate_price in Hval.
    destruct (Dec.ltb v Dec.zero); [discriminate|].
    destruct (Dec.quantize v Dec.cent) as [q0|] eqn:Eq; inversion Hval; subst q0.
    assert (Hge' : Dec.geb p0 Dec.zero = true).
    { apply ge0_iff. apply ge0_iff in Hge as [Hs | Hc].
      - left. rewrite (quantize_sign _ _ _ Eq). exact Hs.
      - right. apply (quantize_zero _ _ _ Eq Hc). }
    unfold Schema.decimal_ge0. rewrite Hge'. cbn [vbind].
    unfold ItemBase_validate_price.
    rewrite (ge0_not_lt0 _ Hge'), (quantize_idempotent _ _ Eq). reflexivity.
  - intros q0 ->.
    apply required_nullable_valid_inv in Hq as [[_ E] | (a & a' & _ & Ha & E)];
      [discriminate|].
    inversion E; subst a'. unfold Schema.int_ge0 in Ha |- *.
    destruct (0 <=? a) eqn:E0; inversion Ha; subst. rewrite E0. reflexivity.
Qed.

Lemma assigns_presentable b it :
  ItemUpdate_validate b = Valid it ->
  assigns presentable (ItemUpdate_model_dump_exclude_unset it).
Proof.
  intros Hv r r' Hset Hr.
  destruct (ItemUpdate_validate_values _ _ Hv) as (Fn & Fd & Fp & Fq).
  apply presentable_iff in Hr as (Hn & Hd & Hp & Hq).
  apply set_values_spec in Hset as (Sn & Sd & Sp & Sq).
  apply presentable_iff. split; [| split; [| split]].
  - destruct Sn as [[_ ->] | E]; [exact Hn|].
    apply model_dump_lookup in E as [E _]. rewrite model_dump_name in E.
    inversion E as [E']. apply of_opt_VStr_inv in E'. apply Fn, E'.
  - destruct Sd as [[_ ->] | E]; [exact Hd|].
    apply model_dump_lookup in E as [E _]. rewrite model_dump_description in E.
    inversion E as [E']. apply of_opt_VStr_inj in E'. rewrite <- E'. exact Fd.
  - destruct Sp as [[_ ->] | E]; [exact Hp|].
    apply model_dump_lookup in E as [E _]. rewrite model_dump_price_all in E.
    inversion E as [E']. apply of_opt_VDec_inv in E'. apply Fp, E'.
  - destruct Sq as [[_ ->] | E]; [exact Hq|].
    apply model_dump_lookup in E as [E _]. rewrite model_dump_quantity in E.
    inversion E as [E']. apply of_opt_VInt_inv in E'. apply Fq, E'.
Qed.

(** Every route leaves a table of rows that pass the response model such a
    table: the rows a listing meets in a store filled through the routes
    are sent as they are stored. *)
Theorem routes_keep_rows_presentable (s : session) :
  Forall presentable (committed s) ->
  (forall b, Forall presentable (committed (snd (post_items b s))))
  /\ (forall item_id b, Forall presentable (committed (snd (put_items_id item_id b s))))
  /\ (forall item_id, Forall presentable (committed (snd (delete_items_id item_id s))))
  /\ (forall item_id, Forall presentable (committed (snd (get_items_id item_id s))))
  /\ (forall q, Forall presentable (committed (snd (get_items q s)))).
Proof.
  intros Hs. split; [| split; [| split; [| split]]].
  - intros b. unfold post_items, validated.
    destruct (ItemCreate_validate b) as [item|errors|exc] eqn:Ev; [| exact Hs | exact Hs].
    apply route_keeps; [| exact Hs]. apply create_item_keeps.
    intros i. eapply new_row_presentable, Ev.
  - intros item_id b. unfold put_items_id, validated.
    destruct (ItemUpdate_validate b) as [item|errors|exc] eqn:Ev; [| exact Hs | exact Hs].
    apply route_keeps; [| exact Hs]. apply update_item_for_keeps.
    + apply model_dump_price_normalized.
      apply (ItemUpdate_validate_price_normalized _ _ Ev).
    + apply (assigns_presentable _ _ Ev).
  - intros item_id. apply route_keeps; [apply delete_item_keeps | exact Hs].
  - intros item_id. apply route_keeps; [apply get_item_keeps | exact Hs].
  - intros q. unfold get_items, validated.
    destruct (list_query_validate q) as [[[[[skip limit_n] lo] hi] nc]|errors|exc];
      [| exact Hs | exact Hs].
    apply route_keeps; [apply list_items_keeps | exact Hs].
Qed.

(* ===================================================================== *)
(** * Round trips, effects and invariants *)
(* ===================================================================== *)

(** ** The text of a decimal *)

Lemma digits_all ds acc k :
  all_digits ds = true ->
  DecParse.digits ds acc k = (digits_value ds acc, (k + String.length ds)%nat, "").
Proof.
  unfold digits_value. revert acc k.
  induction ds as [|c ds IH]; intros acc k H; cbn [all_digits] in H.
  - cbn. rewrite Nat.add_0_r. reflexivity.
  - cbn [DecParse.digits String.length]. destruct (DecParse.digit c) as [d|]; [|discriminate].
    rewrite (IH _ (S k) H), (IH _ 1%nat H). cbn [fst]. f_equal. f_equal. lia.
Qed.

Lemma digits_app ds rest acc k :
  all_digits ds = true ->
  DecParse.digits (ds +:+ rest) acc k
  = DecParse.digits rest (digits_value ds acc) (k + String.length ds)%nat.
Proof.
  unfold digits_value. revert acc k.
  induction ds as [|c ds IH]; intros acc k H; cbn [all_digits] in H.
  - cbn. rewrite Nat.add_0_r. reflexivity.
  - change (String c ds +:+ rest) with (String c (ds +:+ rest)).
    cbn [DecParse.digits String.length].
    destruct (DecParse.digit c) as [d|]; [|discriminate].
    rewrite (IH _ (S k) H). rewrite (digits_all ds _ 1%nat H). cbn [fst].
    f_equal. lia.
Qed.

Lemma digits_value_app a b acc :
  all_digits a = true -> all_digits b = true ->
  digits_value (a +:+ b) acc = digits_value b (digits_value a acc).
Proof.
  intros Ha Hb. unfold digits_value at 1. rewrite (digits_app a b acc 0 Ha).
  rewrite (digits_all b _ _ Hb). reflexivity.
Qed.

Lemma all_digits_app a b :
  all_digits (a +:+ b) = all_digits a && all_digits b.
Proof.
  induction a as [|c a IH]; [reflexivity|].
  change (String c a +:+ b) with (String c (a +:+ b)). cbn [all_digits].
  destruct (DecParse.digit c); [exact IH | reflexivity].
Qed.

Lemma text_length_append (a b : string) :
  String.length (a +:+ b) = (String.length a + String.length b)%nat.
Proof.
  induction a as [|c a IH]; [reflexivity|].
  change (String c a +:+ b) with (String c (a +:+ b)). cbn [String.length].
  rewrite IH. reflexivity.
Qed.

Lemma digit_digit_char (d : N) : (d < 10)%N -> DecParse.digit (DecStr.digit_char d) = Some d.
Proof.
  intros H.
  assert (E : (d = 0 \/ d = 1 \/ d = 2 \/ d = 3 \/ d = 4 \/ d = 5 \/ d = 6 \/ d = 7
               \/ d = 8 \/ d = 9)%N) by lia.
  repeat (destruct E as [E | E]; [subst d; reflexivity|]). subst d; reflexivity.
Qed.

Lemma digits_aux_spec (fuel : nat) (n : N) :
  (N.to_nat (N.size n) <= fuel)%nat ->
  all_digits (DecStr.digits_aux fuel n) = true
  /\ digits_value (DecStr.digits_aux fuel n) 0 = n
  /\ (1 <= String.length (DecStr.digits_aux fuel n))%nat.
Proof.
  revert n. induction fuel as [|fuel IH]; intros n Hf.
  - assert (n = 0%N) by (destruct n as [|p]; [reflexivity | cbn in Hf; destruct p; cbn in Hf; lia]).
    subst n. cbn. auto.
  - cbn [DecStr.digits_aux]. destruct (n <? 10)%N eqn:E.
    + apply N.ltb_lt in E. cbn [all_digits String.length].
      unfold digits_value. cbn [DecParse.digits]. rewrite (digit_digit_char n E).
      cbn. repeat split; lia.
    + apply N.ltb_ge in E.
      pose proof (size_div10 n E) as Hs.
      destruct (IH (n / 10)%N) as (Ha & Hv & Hl); [lia|].
      assert (Hm : (n mod 10 < 10)%N) by (apply N.mod_lt; discriminate).
      assert (Hc : all_digits (String (DecStr.digit_char (n mod 10)) "") = true)
        by (cbn; rewrite (digit_digit_char _ Hm); reflexivity).
      split; [| split].
      * rewrite all_digits_app, Ha, Hc. reflexivity.
      * rewrite digits_value_app by assumption. rewrite Hv.
        unfold digits_value. cbn [DecParse.digits]. rewrite (digit_digit_char _ Hm).
        cbn [fst]. pose proof (N.div_mod n 10 ltac:(discriminate)). lia.
      * rewrite text_length_append. lia.
Qed.

Lemma digits_of_spec (n : N) :
  all_digits (DecStr.digits_of n) = true
  /\ digits_value (DecStr.digits_of n) 0 = n
  /\ (1 <= String.length (DecStr.digits_of n))%nat.
Proof. apply digits_aux_spec. reflexivity. Qed.

Lemma zeros_spec (m : nat) :
  all_digits (DecStr.zeros m) = true
  /\ (forall acc, digits_value (DecStr.zeros m) acc = (acc * 10 ^ N.of_nat m)%N)
  /\ String.length (DecStr.zeros m) = m.
Proof.
  induction m as [|m (Ha & Hv & Hl)].
  - cbn. repeat split. intros acc. unfold digits_value. cbn. lia.
  - cbn [DecStr.zeros all_digits String.length].
    change (DecParse.digit "0") with (Some 0%N). cbv iota.
    split; [exact Ha|]. split; [| rewrite Hl; reflexivity].
    intros acc.
    change (String "0" (DecStr.zeros m)) with ("0" +:+ DecStr.zeros m).
    rewrite digits_value_app by (reflexivity || exact Ha).
    rewrite Hv. unfold digits_value. cbn [DecParse.digits].
    change (DecParse.digit "0") with (Some 0%N). cbn [fst].
    rewrite Nat2N.inj_succ, N.pow_succ_r'. lia.
Qed.

Lemma text_take_drop (i : nat) (s : string) : DecStr.take i s +:+ DecStr.drop i s = s.
Proof.
  revert s. induction i as [|i IH]; intros [|c s]; try reflexivity.
  cbn [DecStr.take DecStr.drop].
  change (String c (DecStr.take i s) +:+ DecStr.drop i s)
    with (String c (DecStr.take i s +:+ DecStr.drop i s)).
  rewrite IH. reflexivity.
Qed.

Lemma text_length_take (i : nat) (s : string) :
  (i <= String.length s)%nat -> String.length (DecStr.take i s) = i.
Proof.
  revert s. induction i as [|i IH]; intros [|c s] H; cbn in *; try lia.
  rewrite IH by lia. reflexivity.
Qed.

Lemma text_length_drop (i : nat) (s : string) :
  String.length (DecStr.drop i s) = (String.length s - i)%nat.
Proof.
  revert s. induction i as [|i IH]; intros [|c s]; cbn; try lia. apply IH.
Qed.

Lemma all_digits_take_drop (i : nat) (s : string) :
  all_digits s = true ->
  all_digits (DecStr.take i s) = true /\ all_digits (DecStr.drop i s) = true.
Proof.
  intros H. rewrite <- (text_take_drop i s), all_digits_app in H.
  apply andb_true_iff in H. exact H.
Qed.

Lemma signed_digit c r d :
  DecParse.digit c = Some d -> DecParse.signed (String c r) = (false, String c r).
Proof.
  destruct c as [[] [] [] [] [] [] [] []]; cbn; intros H; try discriminate; reflexivity.
Qed.

Lemma digits_stop_point r acc k :
  DecParse.digits (String "." r) acc k = (acc, k, String "." r).
Proof. reflexivity. Qed.

Lemma digits_stop_E r acc k :
  DecParse.digits (String "E" r) acc k = (acc, k, String "E" r).
Proof. reflexivity. Qed.

Lemma signed_signed_int (k : Z) :
  DecParse.signed (DecStr.signed_int k) = (k <? 0, DecStr.digits_of (Z.abs_N k)).
Proof. unfold DecStr.signed_int. destruct (k <? 0); reflexivity. Qed.

(** The text of an exponent, read back. *)

(** Reading a rendered numeral: sign, digits, an optional point with
    digits, an optional exponent. *)

Lemma of_string_numeral (sg point : bool) (I F : string) (e : option Z) :
  all_digits I = true -> (1 <= String.length I)%nat -> all_digits F = true ->
  DecParse.of_string
    ((if sg then "-" else "") +:+ I +:+ (if point then "." +:+ F else "") +:+ exp_text e)
  = Some (Dec.mk sg
            (if point then digits_value F (digits_value I 0) else digits_value I 0)
            (from_option id 0 e - (if point then Z.of_nat (String.length F) else 0))).
Proof.
  intros HI HlI HF.
  destruct I as [|c0 I0] eqn:EI; [cbn in HlI; lia|]. rewrite <- EI in *.
  assert (Hc0 : exists d0, DecParse.digit c0 = Some d0).
  { rewrite EI in HI. cbn in HI. destruct (DecParse.digit c0); [eauto | discriminate]. }
  destruct Hc0 as [d0 Hc0].
  unfold DecParse.of_string.
  assert (Hsg : DecParse.signed
                  ((if sg then "-" else "") +:+ I
                   +:+ (if point then "." +:+ F else "") +:+ exp_text e)
                = (sg, I +:+ (if point then "." +:+ F else "") +:+ exp_text e)).
  { destruct sg; [reflexivity|].
    change ("" +:+ I +:+ (if point then "." +:+ F else "") +:+ exp_text e)
      with (I +:+ (if point then "." +:+ F else "") +:+ exp_text e).
    rewrite EI.
    change (String c0 I0 +:+ (if point then "." +:+ F else "") +:+ exp_text e)
      with (String c0 (I0 +:+ (if point then "." +:+ F else "") +:+ exp_text e)).
    apply (signed_digit _ _ _ Hc0). }
  rewrite Hsg. rewrite (digits_app I _ 0 0 HI). cbn [Nat.add].
  assert (Hexp : forall c nf,
    (1 <= String.length I + nf)%nat ->
    (if (String.length I + nf =? 0)%nat then None
     else
       match exp_text e with
       | EmptyString => Some (Dec.mk sg c (- Z.of_nat nf))
       | String ch r =>
           if Ascii.eqb ch "e" || Ascii.eqb ch "E" then
             let '(esg, r1) := DecParse.signed r in
             let '(ev, ne, r2) := DecParse.digits r1 0%N 0%nat in
             match ne, r2 with
             | S _, EmptyString =>
                 Some (Dec.mk sg c
                         ((if esg then - Z.of_N ev else Z.of_N ev) - Z.of_nat nf))
             | _, _ => None
             end
           else None
       end)
    = Some (Dec.mk sg c (from_option id 0 e - Z.of_nat nf))).
  { intros c nf Hn. destruct (_ =? 0)%nat eqn:E0; [apply Nat.eqb_eq in E0; lia|].
    destruct e as [k|]; cbn [exp_text from_option]; [| reflexivity].
    change ("E" +:+ DecStr.signed_int k) with (String "E" (DecStr.signed_int k)).
    cbn [Ascii.eqb Bool.eqb orb]. change (Ascii.eqb "E" "e" || Ascii.eqb "E" "E") with true.
    cbv iota. rewrite signed_signed_int.
    destruct (digits_of_spec (Z.abs_N k)) as (Ha & Hv & Hl).
    rewrite (digits_all _ 0 0 Ha), Hv. cbn [Nat.add].
    destruct (String.length (DecStr.digits_of (Z.abs_N k))) as [|l]; [lia|].
    f_equal. f_equal. unfold id.
    destruct (k <? 0) eqn:Ek; [apply Z.ltb_lt in Ek | apply Z.ltb_ge in Ek]; lia. }
  destruct point.
  - change (("." +:+ F) +:+ exp_text e) with (String "." (F +:+ exp_text e)).
    rewrite digits_stop_point.
    rewrite (digits_app F _ _ 0 HF). cbn [Nat.add].
    assert (Hstop : DecParse.digits (exp_text e) (digits_value F (digits_value I 0))
                      (String.length F)
                    = (digits_value F (digits_value I 0), String.length F, exp_text e)).
    { destruct e; reflexivity. }
    rewrite Hstop. apply Hexp. lia.
  - change ("" +:+ exp_text e) with (exp_text e).
    assert (Hstop : DecParse.digits (exp_text e) (digits_value I 0) (String.length I)
                    = (digits_value I 0, String.length I, exp_text e)).
    { destruct e; reflexivity. }
    rewrite Hstop.
    assert (Hm : match exp_text e with
                 | String "." r => DecParse.digits r (digits_value I 0) 0
                 | _ => (digits_value I 0, 0%nat, exp_text e)
                 end = (digits_value I 0, 0%nat, exp_text e)).
    { destruct e; reflexivity. }
    rewrite Hm.
    exact (Hexp (digits_value I 0) 0%nat ltac:(lia)).
Qed.

Lemma to_str_of_string (d : Dec.t) : DecParse.of_string (DecStr.to_str d) = Some d.
Proof.
  destruct d as [sg c ex]. unfold DecStr.to_str. cbn [Dec.sign Dec.coeff Dec.exp].
  destruct (digits_of_spec c) as (Ha & Hv & Hl).
  set (int_ := DecStr.digits_of c) in *.
  assert (Hlen : 1 <= Z.of_nat (String.length int_)) by lia.
  set (len := Z.of_nat (String.length int_)) in *.
  set (L := ex + len).
  set (dp := if (ex <=? 0) && (-6 <? L) then L else 1).
  assert (Hdp : dp = L /\ ex <= 0 \/ dp = 1).
  { subst dp. destruct (ex <=? 0) eqn:E1; destruct (-6 <? L); cbn; auto.
    left. split; [reflexivity | lia]. }
  set (e := if L =? dp then None else Some (L - dp)).
  assert (Hexp : (if L =? dp then "" else "E" +:+ DecStr.signed_int (L - dp))
                 = exp_text e).
  { subst e. destruct (L =? dp); reflexivity. }
  rewrite Hexp.
  assert (Hval : from_option id 0 e = L - dp).
  { subst e. destruct (L =? dp) eqn:E; cbn; [apply Z.eqb_eq in E; lia | reflexivity]. }
  destruct (dp <=? 0) eqn:E0; [apply Z.leb_le in E0 | apply Z.leb_gt in E0].
  - destruct (zeros_spec (Z.to_nat (- dp))) as (Hza & Hzv & Hzl).
    refine (eq_trans (of_string_numeral sg true "0"
                        (DecStr.zeros (Z.to_nat (- dp)) +:+ int_) e _ _ _) _).
    + reflexivity.
    + cbn. lia.
    + rewrite all_digits_app, Hza, Ha. reflexivity.
    + rewrite Hval, text_length_append, Hzl.
      rewrite digits_value_app by assumption.
      rewrite Hzv. change (digits_value "0" 0) with 0%N.
      rewrite N.mul_0_l, Hv. f_equal. f_equal. lia.
  - destruct (len <=? dp) eqn:E1; [apply Z.leb_le in E1 | apply Z.leb_gt in E1].
    + assert (Hz : Z.to_nat (dp - len) = 0%nat) by lia.
      rewrite Hz. cbn [DecStr.zeros].
      refine (eq_trans (of_string_numeral sg false (int_ +:+ "") "" e _ _ _) _).
      * rewrite all_digits_app, Ha. reflexivity.
      * rewrite text_length_append. lia.
      * reflexivity.
      * rewrite Hval. rewrite digits_value_app by (assumption || reflexivity).
        rewrite Hv. change (digits_value "" c) with c. f_equal. f_equal. lia.
    + destruct (all_digits_take_drop (Z.to_nat dp) int_ Ha) as (Hta & Hda).
      refine (eq_trans (of_string_numeral sg true (DecStr.take (Z.to_nat dp) int_)
                          (DecStr.drop (Z.to_nat dp) int_) e _ _ _) _).
      * exact Hta.
      * rewrite text_length_take by lia. lia.
      * exact Hda.
      * rewrite Hval, text_length_drop.
        rewrite <- digits_value_app by assumption.
        rewrite text_take_drop, Hv. f_equal. f_equal. lia.
Qed.

(** X1.  [DecimalEncoder.default] renders exactly the decimals, and the
    text it returns for a decimal reads back, through [Decimal(text)], as
    the same decimal -- sign, digits and exponent; so two decimals with the
    same text are the same decimal. *)
Theorem DecimalEncoder_default_reads_back :
  (forall d, exists s,
      DecimalEncoder_default (VDec d) = Some s /\ DecParse.of_string s = Some d)
  /\ (forall obj s, DecimalEncoder_default obj = Some s -> exists d, obj = VDec d)
  /\ (forall d1 d2,
        DecimalEncoder_default (VDec d1) = DecimalEncoder_default (VDec d2) -> d1 = d2).
Proof.
  split; [| split].
  - intros d. exists (DecStr.to_str d). split; [reflexivity | apply to_str_of_string].
  - intros [|t|d|z] s H; try discriminate. exists d. reflexivity.
  - intros d1 d2 H. cbn in H. injection H as H.
    pose proof (to_str_of_string d1) as H1. rewrite H, to_str_of_string in H1.
    injection H1 as H1. symmetry. exact H1.
Qed.

Lemma DecimalEncoder_default_reads_back_witness :
  exists d, VDec (Sample.cents 1000) = VDec d.
Proof.
  apply (proj1 (proj2 DecimalEncoder_default_reads_back)
           (VDec (Sample.cents 1000)) "10.00").
  vm_compute. reflexivity.
Defined.

Lemma ItemBase_model_dump_lookup (item : ItemCreate) :
  ItemBase_model_dump item !! "name" = Some (VStr (ic_name item))
  /\ ItemBase_model_dump item !! "description"
     = Some (of_opt VStr (ic_description item))
  /\ ItemBase_model_dump item !! "price" = Some (VDec (ic_price item))
  /\ ItemBase_model_dump item !! "quantity" = Some (VInt (ic_quantity item)).
Proof.
  unfold ItemBase_model_dump. split; [| split; [| split]].
  - apply lookup_insert_eq.
  - rewrite lookup_insert_ne by discriminate. apply lookup_insert_eq.
  - do 2 rewrite lookup_insert_ne by discriminate. apply lookup_insert_eq.
  - do 3 rewrite lookup_insert_ne by discriminate. apply lookup_insert_eq.
Qed.

(** X2.  [ItemBase.dict()] has the four members of the model; the name,
    the description and the quantity are the model's, and the price is a
    text that reads back as the model's price. *)
Theorem ItemBase_dict_renders_price (item : ItemCreate) :
  dom (ItemBase_dict item) = data_columns
  /\ ItemBase_dict item !! "name" = Some (VStr (ic_name item))
  /\ ItemBase_dict item !! "description" = Some (of_opt VStr (ic_description item))
  /\ ItemBase_dict item !! "quantity" = Some (VInt (ic_quantity item))
  /\ exists s, ItemBase_dict item !! "price" = Some (VStr s)
               /\ DecParse.of_string s = Some (ic_price item).
Proof.
  destruct (ItemBase_model_dump_lookup item) as (Hn & Hd & Hp & Hq).
  unfold ItemBase_dict. rewrite !lookup_fmap, Hn, Hd, Hp, Hq.
  split; [| split; [reflexivity | split; [| split; [reflexivity |]]]].
  - rewrite dom_fmap_L. unfold ItemBase_model_dump, data_columns.
    rewrite !dom_insert_L, dom_empty_L. set_solver.
  - destruct (ic_description item); reflexivity.
  - exists (DecStr.to_str (ic_price item)). split; [reflexivity | apply to_str_of_string].
Qed.

Lemma ItemUpdate_dict_lookup (it : ItemUpdate) (k : string) :
  ItemUpdate_dict it !! k
  = match ItemUpdate_model_dump it !! k with
    | Some VNone | None => None
    | Some (VDec d) => Some (VStr (DecStr.to_str d))
    | Some v => Some v
    end.
Proof.
  unfold ItemUpdate_dict. rewrite lookup_omap.
  destruct (ItemUpdate_model_dump it !! k) as [[| | |]|]; reflexivity.
Qed.

Lemma model_dump_no_text_price (it : ItemUpdate) (k : string) (s : string) :
  ItemUpdate_model_dump it !! k = Some (VStr s) -> k <> "price".
Proof.
  intros H ->. rewrite model_dump_price_all in H.
  destruct (iu_price it); discriminate.
Qed.

(** X3.  [ItemUpdate.dict()] binds no key to [None] and none to a
    [Decimal]: a member that is [None] is left out, a decimal is replaced
    by its text, anything else is kept.  The conversion [update_item]
    applies to a textual price turns that dict back into the model's dump
    without its [None] entries. *)
Theorem ItemUpdate_dict_drops_None_and_renders_price (it : ItemUpdate) :
  (forall k v, ItemUpdate_dict it !! k = Some v ->
     v <> VNone /\ (forall d, v <> VDec d)
     /\ (ItemUpdate_model_dump it !! k = Some v
         \/ exists d, ItemUpdate_model_dump it !! k = Some (VDec d)
                      /\ v = VStr (DecStr.to_str d)))
  /\ (forall k, ItemUpdate_dict it !! k = None <->
                ItemUpdate_model_dump it !! k = None
                \/ ItemUpdate_model_dump it !! k = Some VNone)
  /\ price_to_decimal (ItemUpdate_dict it)
     = mret (without_None (ItemUpdate_model_dump it)).
Proof.
  split; [| split].
  - intros k v. rewrite ItemUpdate_dict_lookup.
    destruct (ItemUpdate_model_dump it !! k) as [[|s|d|z]|] eqn:E; intros H;
      try discriminate; injection H as <-.
    + split; [discriminate | split; [discriminate | left; reflexivity]].
    + split; [discriminate | split; [discriminate | right; eauto]].
    + split; [discriminate | split; [discriminate | left; reflexivity]].
  - intros k. rewrite ItemUpdate_dict_lookup.
    destruct (ItemUpdate_model_dump it !! k) as [[|s|d|z]|]; split; intros H;
      try reflexivity; try discriminate; auto;
      destruct H as [H | H]; discriminate.
  - unfold price_to_decimal. rewrite ItemUpdate_dict_lookup, model_dump_price_all.
    destruct (iu_price it) as [p|] eqn:Ep; cbn [of_opt].
    + rewrite to_str_of_string. f_equal. apply map_eq. intros k.
      unfold without_None. rewrite lookup_omap.
      destruct (decide (k = "price")) as [-> | Hk].
      * rewrite lookup_insert_eq, model_dump_price_all, Ep. reflexivity.
      * rewrite lookup_insert_ne by congruence. rewrite ItemUpdate_dict_lookup.
        destruct (ItemUpdate_model_dump it !! k) as [[|s|d|z]|] eqn:E; try reflexivity.
        exfalso. apply Hk.
        unfold ItemUpdate_model_dump in E.
        apply lookup_insert_Some in E as [[<- E] | [_ E]];
          [destruct (iu_name it); discriminate |].
        apply lookup_insert_Some in E as [[<- E] | [_ E]];
          [destruct (iu_description it); discriminate |].
        apply lookup_insert_Some in E as [[<- E] | [_ E]]; [reflexivity |].
        apply lookup_insert_Some in E as [[<- E] | [_ E]];
          [destruct (iu_quantity it); discriminate |].
        rewrite lookup_empty in E. discriminate.
    + f_equal. apply map_eq. intros k.
      unfold without_None. rewrite lookup_omap, ItemUpdate_dict_lookup.
      destruct (ItemUpdate_model_dump it !! k) as [[|s|d|z]|] eqn:E; try reflexivity.
      exfalso.
      unfold ItemUpdate_model_dump in E.
      apply lookup_insert_Some in E as [[<- E] | [_ E]];
        [destruct (iu_name it); discriminate |].
      apply lookup_insert_Some in E as [[<- E] | [_ E]];
        [destruct (iu_description it); discriminate |].
      apply lookup_insert_Some in E as [[<- E] | [_ E]];
        [rewrite Ep in E; discriminate |].
      apply lookup_insert_Some in E as [[<- E] | [_ E]];
        [destruct (iu_quantity it); discriminate |].
      rewrite lookup_empty in E. discriminate.
Qed.

Lemma ItemUpdate_dict_drops_None_and_renders_price_witness :
  VStr "5.00" <> VNone
  /\ (forall d, VStr "5.00" <> VDec d)
  /\ (ItemUpdate_model_dump (Sample.parsed_update Sample.full_update) !! "price"
      = Some (VStr "5.00")
      \/ exists d,
          ItemUpdate_model_dump (Sample.parsed_update Sample.full_update) !! "price"
          = Some (VDec d)
          /\ VStr "5.00" = VStr (DecStr.to_str d)).
Proof.
  apply (proj1 (ItemUpdate_dict_drops_None_and_renders_price
                  (Sample.parsed_update Sample.full_update)) "price" (VStr "5.00")).
  vm_compute. reflexivity.
Defined.

(** ** The exits of [get_db] *)

Lemma bind_raise_inv {A B : Type} (m : db A) (k : A -> db B) s e s' :
  (m ≫= k) s = (Raise e, s') ->
  m s = (Raise e, s') \/ exists a s1, m s = (Ret a, s1) /\ k a s1 = (Raise e, s').
Proof.
  rewrite bind_run. destruct (m s) as [[a|e0] s1]; intros H;
    [right; eauto | left; inversion H; reflexivity].
Qed.

Lemma try_except_raise_inv {A : Type} (body : db A) (handler : exn -> db A) s e s' :
  try_except body handler s = (Raise e, s') ->
  exists e0 s1, body s = (Raise e0, s1) /\ handler e0 s1 = (Raise e, s').
Proof.
  unfold try_except. destruct (body s) as [[a|e0] s1]; intros H; [discriminate | eauto].
Qed.

Lemma rollback_then_throw_run {A : Type} (e : exn) s :
  (db_rollback ;; (mthrow e : db A)) s = (Raise e, rolled_back s).
Proof. reflexivity. Qed.

Lemma settled_rolled_back s : settled (rolled_back s).
Proof. repeat split. Qed.

Lemma committed_rolled_back s : committed (rolled_back s) = committed s.
Proof. reflexivity. Qed.

Lemma settled_durable s : settled (durable s).
Proof. unfold durable. repeat split. Qed.

Lemma committed_called ev s : committed (called ev s) = committed s.
Proof. reflexivity. Qed.

Lemma settled_called ev s : settled s -> settled (called ev s).
Proof. intros H. exact H. Qed.

Lemma durable_settled s : settled s -> committed (durable s) = committed s.
Proof.
  intros (Hw & Hn & Hd). unfold durable. cbn [committed].
  rewrite flushed_nothing by assumption. exact Hw.
Qed.

Lemma settled_AsyncSessionLocal s : settled (AsyncSessionLocal s).
Proof. repeat split. Qed.

(** The three exits of [get_db]: the endpoint raised, the commit raised,
    or the commit went through. *)
Lemma get_db_run {A : Type} (endpoint : db A) s :
  get_db endpoint s
  = match endpoint s with
    | (Ret a, s1) =>
        match next_fault s1 with
        | None => (Ret a, durable (called EvCommit s1))
        | Some f => (Raise (exn_of_store f), rolled_back (called EvCommit s1))
        end
    | (Raise e, s1) => (Raise e, rolled_back s1)
    end.
Proof.
  unfold get_db, try_except. rewrite bind_run.
  destruct (endpoint s) as [[a|e] s1]; [| reflexivity].
  rewrite bind_run. unfold db_commit. rewrite bind_run. unfold store_call.
  destruct (next_fault s1); reflexivity.
Qed.

(** X4.  Whatever the endpoint does, [get_db] hands the session back with
    nothing pending: the transaction was committed or rolled back and the
    unit of work is empty.  An exception of the endpoint is re-raised as it
    is, after a rollback that leaves the stored table as the endpoint left
    it; a result is returned only when the commit went through. *)
Theorem get_db_settles {A : Type} (endpoint : db A) (s : session) :
  settled (snd (get_db endpoint s))
  /\ (forall e s1, endpoint s = (Raise e, s1) ->
        get_db endpoint s = (Raise e, rolled_back s1)
        /\ committed (rolled_back s1) = committed s1)
  /\ (forall a s', get_db endpoint s = (Ret a, s') ->
        exists s1, endpoint s = (Ret a, s1) /\ s' = durable (called EvCommit s1)
                   /\ committed s' = working s').
Proof.
  rewrite get_db_run. split; [| split].
  - destruct (endpoint s) as [[a|e] s1]; [destruct (next_fault s1) |]; cbn [snd].
    + apply settled_rolled_back.
    + apply settled_durable.
    + apply settled_rolled_back.
  - intros e s1 H. rewrite H. split; reflexivity.
  - intros a s' H. destruct (endpoint s) as [[a0|e] s1]; [| discriminate].
    destruct (next_fault s1); [discriminate |].
    injection H as <- <-. exists s1. repeat split.
Qed.

Lemma get_db_settles_witness :
  exists s1,
    get_item 1 (store [Sample.widget] []) = (Ret Sample.widget, s1)
    /\ snd (get_db (get_item 1) (store [Sample.widget] []))
       = durable (called EvCommit s1)
    /\ committed (snd (get_db (get_item 1) (store [Sample.widget] [])))
       = working (snd (get_db (get_item 1) (store [Sample.widget] []))).
Proof.
  apply (proj2 (proj2 (get_db_settles (get_item 1) (store [Sample.widget] [])))
           Sample.widget (snd (get_db (get_item 1) (store [Sample.widget] [])))).
  vm_compute. reflexivity.
Defined.

(** A route, exit by exit. *)
Lemma route_run {A : Type} (success : Z) (response_model : A -> vres A)
    (endpoint : db A) s :
  route success response_model endpoint s
  = match endpoint (AsyncSessionLocal s) with
    | (Ret c, s1) =>
        match response_model c with
        | Valid a =>
            match next_fault s1 with
            | None => (Response success a, durable (called EvCommit s1))
            | Some f =>
                (respond success (Raise (exn_of_store f)),
                 rolled_back (called EvCommit s1))
            end
        | _ => (ErrorResponse 500 "Internal Server Error", rolled_back s1)
        end
    | (Raise e, s1) => (respond success (Raise e), rolled_back s1)
    end.
Proof.
  unfold route. rewrite get_db_run, bind_run.
  destruct (endpoint (AsyncSessionLocal s)) as [[c|e] s1]; [| reflexivity].
  unfold serialize_response.
  destruct (response_model c) as [a|errs|exc]; try reflexivity.
  change ((mret a : db A) s1) with (Ret a, s1). cbv iota.
  destruct (next_fault s1); reflexivity.
Qed.

Lemma respond_raise {A : Type} (success : Z) (e : exn) :
  exists code detail, respond success (Raise e : result A) = ErrorResponse code detail.
Proof. destruct e; cbn; eauto. Qed.

(** What a route did to the stored table: it is the table as the endpoint
    left it, unless the request was answered and the transaction of the
    endpoint was committed. *)
Lemma route_error_committed {A : Type} (success : Z) (response_model : A -> vres A)
    (endpoint : db A) s code detail s' :
  route success response_model endpoint s = (ErrorResponse code detail, s') ->
  committed s' = committed (snd (endpoint (AsyncSessionLocal s))).
Proof.
  rewrite route_run.
  destruct (endpoint (AsyncSessionLocal s)) as [[c|e] s1]; cbn [snd].
  - destruct (response_model c) as [a|errs|exc].
    + destruct (next_fault s1); intros H; inversion H; reflexivity.
    + intros H; inversion H; reflexivity.
    + intros H; inversion H; reflexivity.
  - intros H; inversion H; reflexivity.
Qed.

Lemma route_settled {A : Type} (success : Z) (response_model : A -> vres A)
    (endpoint : db A) s :
  settled (snd (route success response_model endpoint s)).
Proof.
  rewrite route_run.
  destruct (endpoint (AsyncSessionLocal s)) as [[c|e] s1]; cbn [snd].
  - destruct (response_model c) as [a|errs|exc]; try apply settled_rolled_back.
    destruct (next_fault s1); [apply settled_rolled_back | apply settled_durable].
  - apply settled_rolled_back.
Qed.

(** ** Requests that only read *)

Lemma reads_only_refl s : reads_only s s.
Proof. intros H. split; [exact H | reflexivity]. Qed.

Lemma reads_only_trans a b c : reads_only a b -> reads_only b c -> reads_only a c.
Proof.
  intros Hab Hbc Ha. destruct (Hab Ha) as [Hb Eb]. destruct (Hbc Hb) as [Hc Ec].
  split; [exact Hc | congruence].
Qed.

Lemma store_call_reads_only ev : steps reads_only (store_call ev).
Proof.
  intros s r s' H. unfold store_call in H.
  assert (E : s' = called ev s) by (destruct (next_fault s); inversion H; reflexivity).
  subst s'. intros Hs. split; [exact Hs | reflexivity].
Qed.

Lemma db_execute_reads_only q : steps reads_only (db_execute q).
Proof.
  unfold db_execute.
  walk reads_only_refl reads_only_trans ltac:(apply store_call_reads_only).
Qed.

Lemma db_commit_reads_only : steps reads_only db_commit.
Proof.
  unfold db_commit. apply (steps_bind _ reads_only_trans);
    [apply store_call_reads_only | intros _].
  intros s r s' H. inversion H; subst. intros Hs.
  split; [apply settled_durable | apply durable_settled, Hs].
Qed.

Lemma db_rollback_reads_only : steps reads_only db_rollback.
Proof.
  intros s r s' H. inversion H; subst. intros Hs. split; [repeat split | reflexivity].
Qed.

Lemma get_item_reads_only item_id : steps reads_only (get_item item_id).
Proof.
  unfold get_item. apply (steps_try_except _ reads_only_trans).
  - apply (steps_bind _ reads_only_trans); [apply db_execute_reads_only | intros rows].
    apply (steps_bind _ reads_only_trans);
      [apply (steps_scalar_one_or_none _ reads_only_refl) | intros o].
    destruct o; [apply (steps_ret _ reads_only_refl) | apply (steps_throw _ reads_only_refl)].
  - intros e. destruct e; apply (steps_throw _ reads_only_refl).
Qed.

Lemma list_items_reads_only skip limit_n min_price max_price name_contains :
  steps reads_only (list_items skip limit_n min_price max_price name_contains).
Proof.
  unfold list_items. apply (steps_try_except _ reads_only_trans);
    [apply db_execute_reads_only | intros e; apply (steps_throw _ reads_only_refl)].
Qed.

(** A route over an endpoint that only reads leaves the stored table as it
    was. *)
Lemma route_reads_only {A : Type} (success : Z) (response_model : A -> vres A)
    (endpoint : db A) s :
  steps reads_only endpoint ->
  committed (snd (route success response_model endpoint s)) = committed s.
Proof.
  intros He. rewrite route_run.
  destruct (endpoint (AsyncSessionLocal s)) as [[c|e] s1] eqn:E;
    destruct (He _ _ _ E (settled_AsyncSessionLocal s)) as [Hs Hc];
    change (committed (AsyncSessionLocal s)) with (committed s) in Hc.
  - destruct (response_model c) as [a|errs|exc]; cbn [snd]; try exact Hc.
    destruct (next_fault s1); cbn [snd]; [exact Hc |].
    rewrite durable_settled by (apply settled_called, Hs). exact Hc.
  - cbn [snd]. exact Hc.
Qed.

(** X5.  Reading never writes: after [GET /items/{item_id}] and after
    [GET /items/], whatever they answer and whatever the store raised --
    on the select or on the commit of [get_db] -- the stored table is the
    one before the request. *)
Theorem reads_leave_the_table (s : session) :
  (forall item_id, committed (snd (get_items_id item_id s)) = committed s)
  /\ (forall q, committed (snd (get_items q s)) = committed s).
Proof.
  split.
  - intros item_id. unfold get_items_id. apply route_reads_only, get_item_reads_only.
  - intros q. unfold get_items, validated.
    destruct (list_query_validate q) as [[[[[skip limit_n] min_price] max_price] nc]|errs|exc];
      cbn [snd]; try reflexivity.
    apply route_reads_only, list_items_reads_only.
Qed.

(** ** What a delete does to the table *)

Lemma same_committed_refl s : same_committed s s.
Proof. reflexivity. Qed.

Lemma same_committed_trans a b c :
  same_committed a b -> same_committed b c -> same_committed a c.
Proof. unfold same_committed. congruence. Qed.

Lemma store_call_same_committed ev : steps same_committed (store_call ev).
Proof.
  intros s r s' H. unfold store_call in H.
  destruct (next_fault s); inversion H; reflexivity.
Qed.

Lemma modify_same_committed (f : session -> session) :
  (forall s, committed (f s) = committed s) -> steps same_committed (modify f).
Proof. intros Hf s r s' H. inversion H; subst. apply Hf. Qed.

Lemma committed_flushed s : committed (flushed s) = committed s.
Proof.
  unfold flushed.
  destruct (insert_all (new_ s) (delete_ids (deleted s) (working s))). reflexivity.
Qed.

Ltac same_committed_prim :=
  first
    [ apply store_call_same_committed
    | apply modify_same_committed; intros; first [reflexivity | apply committed_flushed] ].

Ltac same_committed_walk :=
  walk same_committed_refl same_committed_trans same_committed_prim.

Lemma delete_item_same_committed item_id : steps same_committed (delete_item item_id).
Proof.
  unfold delete_item, db_execute, db_delete, db_flush, db_rollback.
  apply (steps_try_except _ same_committed_trans).
  - apply (steps_bind _ same_committed_trans); [same_committed_walk | intros rows].
    apply (steps_bind _ same_committed_trans); [same_committed_walk | intros o].
    destruct o; same_committed_walk.
  - intros e. destruct e; same_committed_walk.
Qed.

Lemma delete_ids_one item_id table :
  delete_ids [item_id] table
  = List.filter (fun r => negb (models.id r =? item_id)) table.
Proof.
  unfold delete_ids. apply List.filter_ext. intros r. cbn. rewrite orb_false_r.
  reflexivity.
Qed.

(** The session in which [delete_item] returned: the one row that carried
    the id is gone from the open transaction, nothing is pending. *)
Lemma delete_item_ret_inv item_id s msg s1 :
  delete_item item_id s = (Ret msg, s1) ->
  new_ s = [] -> deleted s = [] ->
  msg = "Item deleted successfully"
  /\ (exists r, rows_with item_id (working s) = [r])
  /\ working s1 = delete_ids [item_id] (working s)
  /\ new_ s1 = [] /\ deleted s1 = [].
Proof.
  intros H Hn Hd. unfold delete_item in H.
  apply try_except_ret_inv in H as [H | (e & s2 & _ & H)];
    [| exfalso; destruct e; eapply rollback_then_throw_not_ret, H].
  apply bind_ret_inv in H as (rows & s2 & Hsel & H).
  apply db_execute_ret_inv in Hsel as (_ & -> & ->).
  apply bind_ret_inv in H as (o & s3 & Hone & H).
  apply scalar_one_or_none_ret_inv in Hone as [-> [[_ ->] | (r & Hr & ->)]];
    [inversion H|].
  apply bind_ret_inv in H as (u & s4 & Hdel & H).
  inversion Hdel; subst s4. clear Hdel.
  apply bind_ret_inv in H as (u' & s5 & Hfl & H).
  apply db_flush_ret_inv in Hfl as [_ ->].
  inversion H; subst. clear H.
  rewrite run_select_by_id in Hr.
  assert (Hid : models.id r = item_id)
    by (eapply rows_with_id; rewrite Hr; left; reflexivity).
  split; [reflexivity|]. split; [eauto|].
  unfold flushed. cbn -[delete_ids rows_with]. rewrite Hn, Hd, Hid. cbn [app insert_all].
  repeat split.
Qed.

(** X6.  [DELETE /items/{item_id}] is answered 200 only when exactly one
    stored row carried the id, and then the stored table is the old one
    without that row, the other rows in their order; answered with an
    error -- 404 for an absent id included -- it leaves the stored table as
    it was. *)
Theorem delete_items_id_effect (item_id : Z) (s : session) :
  (forall code msg s',
      delete_items_id item_id s = (Response code msg, s') ->
      code = 200 /\ msg = "Item deleted successfully"
      /\ (exists r, rows_with item_id (committed s) = [r])
      /\ committed s'
         = List.filter (fun r => negb (models.id r =? item_id)) (committed s))
  /\ (forall code detail s',
        delete_items_id item_id s = (ErrorResponse code detail, s') ->
        committed s' = committed s).
Proof.
  unfold delete_items_id. split.
  - intros code msg s' H.
    apply route_response_inv in H as (-> & c & s1 & H & Hm & _ & ->).
    inversion Hm; subst c. clear Hm.
    apply delete_item_ret_inv in H as (-> & Hr & Hw & Hn & Hd); try reflexivity.
    split; [reflexivity|]. split; [reflexivity|]. split; [exact Hr|].
    unfold durable. cbn [committed].
    rewrite flushed_nothing by assumption.
    change (working (called EvCommit s1)) with (working s1).
    rewrite Hw. apply delete_ids_one.
  - intros code detail s' H. apply route_error_committed in H. rewrite H.
    destruct (delete_item item_id (AsyncSessionLocal s)) as [r s1] eqn:E. cbn [snd].
    apply delete_item_same_committed in E. exact E.
Qed.

Lemma delete_items_id_effect_witness :
  200 = 200 /\ "Item deleted successfully" = "Item deleted successfully"
  /\ (exists r, rows_with 1 (committed (store Sample.three_prices [])) = [r])
  /\ committed (snd (delete_items_id 1 (store Sample.three_prices [])))
     = List.filter (fun r => negb (models.id r =? 1))
         (committed (store Sample.three_prices [])).
Proof.
  apply (proj1 (delete_items_id_effect 1 (store Sample.three_prices []))
           200 "Item deleted successfully"
           (snd (delete_items_id 1 (store Sample.three_prices [])))).
  vm_compute. reflexivity.
Defined.

(** ** What a create does to the table *)

Lemma next_id_above (table : list models.Item) :
  Forall (fun r => models.id r < next_id table) table.
Proof.
  unfold next_id. apply List.Forall_forall.
  induction table as [|r0 table IH]; intros r Hin; [destruct Hin|].
  cbn [map foldr]. destruct Hin as [-> | Hin]; [lia|]. specialize (IH r Hin). lia.
Qed.

(** The session in which [create_item] returned: the new row is the last
    of the stored table, under a key above every other. *)
Lemma create_item_ret_state item s r s1 :
  create_item item s = (Ret r, s1) ->
  new_ s = [] -> deleted s = [] ->
  r = new_row (next_id (working s)) item
  /\ committed s1 = working s ++ [r] /\ working s1 = working s ++ [r]
  /\ new_ s1 = [] /\ deleted s1 = [].
Proof.
  intros H Hn Hd.
  destruct (create_item_ret_inv item s r s1 H Hn Hd) as (Hr & _ & Hn1 & Hd1).
  unfold create_item in H.
  apply try_except_ret_inv in H as [H | (e & s2 & _ & H)];
    [| exfalso; destruct e; eapply rollback_then_throw_not_ret, H].
  apply bind_ret_inv in H as (u & s2 & Hadd & H).
  inversion Hadd; subst s2; clear Hadd.
  apply bind_ret_inv in H as (u' & s3 & Hcommit & H).
  apply db_commit_ret_inv in Hcommit as [_ ->].
  apply bind_ret_inv in H as (i & s4 & Hid & H).
  apply bind_ret_inv in H as (rows & s5 & Hsel & H).
  apply db_execute_ret_inv in Hsel as (_ & -> & ->).
  apply scalar_one_ret_inv in H as [-> _].
  unfold db_item_id in Hid. rewrite bind_run in Hid. cbn [gets] in Hid.
  assert (E4 : s4 = durable (called EvCommit
                 (mkSession (committed s) (working s) (new_ s ++ [item]) (deleted s)
                    (new_ids s) (faults s) (log s)))).
  { destruct (last _); inversion Hid; reflexivity. }
  subst s4.
  set (s2 := called EvCommit
               (mkSession (committed s) (working s) (new_ s ++ [item]) (deleted s)
                  (new_ids s) (faults s) (log s))) in *.
  assert (Hn2 : new_ s2 = [item]) by (cbn; rewrite Hn; reflexivity).
  assert (Hd2 : deleted s2 = []) by (cbn; exact Hd).
  destruct (flushed_one_new s2 item Hn2 Hd2) as (Hw & _ & _ & _).
  change (working s2) with (working s) in Hw.
  change (committed (called EvSelect (durable s2))) with (working (flushed s2)).
  change (working (called EvSelect (durable s2))) with (working (flushed s2)).
  rewrite Hw, <- Hr. auto.
Qed.

(** When the store fails on the select that follows the commit,
    [create_item] raises, but the row is stored. *)
Lemma create_item_select_fault item s f rest :
  new_ s = [] -> deleted s = [] -> new_ids s = [] ->
  faults s = None :: Some f :: rest ->
  exists code detail s1,
    create_item item s = (Raise (HTTPException code detail), s1)
    /\ (code = 400 \/ code = 500)
    /\ committed s1 = working s ++ [new_row (next_id (working s)) item].
Proof.
  intros Hn Hd Hi Hf. unfold create_item, try_except.
  rewrite bind_run. unfold db_add at 1. cbn [modify].
  set (s2 := mkSession (committed s) (working s) (new_ s ++ [item]) (deleted s)
               (new_ids s) (faults s) (log s)).
  assert (Hq2 : next_fault s2 = None) by (unfold next_fault; cbn; rewrite Hf; reflexivity).
  rewrite bind_run, db_commit_quiet by exact Hq2.
  set (s3 := called EvCommit s2).
  assert (Hn3 : new_ s3 = [item]) by (cbn; rewrite Hn; reflexivity).
  assert (Hd3 : deleted s3 = []) by (cbn; exact Hd).
  destruct (flushed_one_new s3 item Hn3 Hd3) as (Hw & Hids & _ & _).
  change (working s3) with (working s) in Hw, Hids.
  change (new_ids s3) with (new_ids s) in Hids. rewrite Hi in Hids.
  assert (Hq3 : next_fault (durable s3) = Some f).
  { unfold next_fault, durable. cbn [faults]. unfold flushed.
    destruct (insert_all _ _). cbn [faults s3 called s2]. rewrite Hf. reflexivity. }
  rewrite bind_run. unfold db_item_id. rewrite bind_run. cbn [gets].
  change (new_ids (durable s3)) with (new_ids (flushed s3)). rewrite Hids.
  cbn [app last mret db_ret].
  rewrite bind_run, (db_execute_fault _ _ _ Hq3).
  assert (Hc : committed (rolled_back (called EvSelect (durable s3)))
               = working s ++ [new_row (next_id (working s)) item]).
  { change (committed (rolled_back (called EvSelect (durable s3))))
      with (working (flushed s3)). exact Hw. }
  destruct f as [msg|msg|msg]; cbn [exn_of_store]; rewrite rollback_then_throw_run;
    do 3 eexists; (split; [reflexivity | split; [| exact Hc]]); auto.
Qed.

(** An answered create, read backwards. *)
Lemma post_items_response_inv (b : body) (s : session) code r s' :
  post_items b s = (Response code r, s') ->
  code = 201
  /\ exists item,
      ItemCreate_validate b = Valid item
      /\ r = new_row (next_id (committed s)) item
      /\ committed s' = committed s ++ [r]
      /\ Forall (fun r0 => models.id r0 < models.id r) (committed s).
Proof.
  intros H. unfold post_items, validated in H.
  destruct (ItemCreate_validate b) as [item|errs|exc] eqn:Ev; try discriminate.
  apply route_response_inv in H as (-> & c & s1 & H & Hm & _ & ->).
  apply create_item_ret_state in H as (Hc & Hcom & Hw & Hn & Hd); try reflexivity.
  change (working (AsyncSessionLocal s)) with (committed s) in *.
  pose proof (new_row_presentable b item (next_id (committed s)) Ev) as Hp.
  unfold presentable in Hp. rewrite <- Hc, Hm in Hp. injection Hp as ->.
  split; [reflexivity|]. exists item. split; [reflexivity|]. split; [exact Hc|].
  split.
  - unfold durable. cbn [committed]. rewrite flushed_nothing by assumption.
    exact Hw.
  - rewrite Hc. apply next_id_above.
Qed.

(** When [create_item] raises, the table is as it was stored or has the
    new row: it raised before or after its commit. *)
Lemma create_item_raise_committed item s e s1 :
  create_item item s = (Raise e, s1) ->
  new_ s = [] -> deleted s = [] ->
  committed s1 = committed s
  \/ committed s1 = working s ++ [new_row (next_id (working s)) item].
Proof.
  intros H Hn Hd. unfold create_item in H.
  apply try_except_raise_inv in H as (e0 & s2 & Hbody & H).
  assert (Hs1 : committed s1 = committed s2).
  { destruct e0; rewrite rollback_then_throw_run in H; inversion H; reflexivity. }
  rewrite Hs1. clear H Hs1.
  apply bind_raise_inv in Hbody as [Hbody | (u & s3 & Hadd & Hbody)];
    [inversion Hbody|].
  inversion Hadd; subst s3; clear Hadd.
  set (sa := mkSession (committed s) (working s) (new_ s ++ [item]) (deleted s)
               (new_ids s) (faults s) (log s)) in *.
  apply bind_raise_inv in Hbody as [Hbody | (u' & s3 & Hcommit & Hbody)].
  - left. unfold db_commit in Hbody.
    apply bind_raise_inv in Hbody as [Hbody | (u' & s3 & _ & Hbody)];
      [| inversion Hbody].
    apply store_call_same_committed in Hbody. exact Hbody.
  - right. apply db_commit_ret_inv in Hcommit as [_ ->].
    set (s3 := called EvCommit sa) in *.
    assert (Hn3 : new_ s3 = [item]) by (cbn; rewrite Hn; reflexivity).
    assert (Hd3 : deleted s3 = []) by (cbn; exact Hd).
    destruct (flushed_one_new s3 item Hn3 Hd3) as (Hw & _ & _ & _).
    change (working s3) with (working s) in Hw.
    assert (Hc : committed (durable s3)
                 = working s ++ [new_row (next_id (working s)) item]) by exact Hw.
    rewrite <- Hc.
    assert (Hid : steps same_committed db_item_id).
    { unfold db_item_id. apply (steps_bind _ same_committed_trans);
        [apply (steps_gets _ same_committed_refl) | intros ids].
      destruct (last ids);
        [apply (steps_ret _ same_committed_refl)
        | apply (steps_throw _ same_committed_refl)]. }
    assert (Hrest : steps same_committed
              (i ← db_item_id ;
               rows ← db_execute (where_ (IdEq i) select_Item) ;
               scalar_one rows)).
    { apply (steps_bind _ same_committed_trans); [exact Hid | intros i].
      apply (steps_bind _ same_committed_trans);
        [unfold db_execute; same_committed_walk | intros rows].
      apply (steps_scalar_one _ same_committed_refl). }
    apply (Hrest _ _ _ Hbody).
Qed.




(** ** Reading a stored row *)

Lemma faults_flushed s : faults (flushed s) = faults s.
Proof.
  unfold flushed.
  destruct (insert_all (new_ s) (delete_ids (deleted s) (working s))). reflexivity.
Qed.

Lemma quiet_durable s : quiet s -> quiet (durable s).
Proof. unfold quiet, durable. cbn [faults]. rewrite faults_flushed. auto. Qed.

Lemma get_item_present item_id s r :
  rows_with item_id (working s) = [r] ->
  next_fault s = None ->
  get_item item_id s = (Ret r, called EvSelect s).
Proof.
  intros Hr Hq. unfold get_item, try_except.
  rewrite bind_run, db_execute_quiet by exact Hq.
  rewrite run_select_by_id, Hr. reflexivity.
Qed.

Lemma get_item_ret_inv item_id s r s1 :
  get_item item_id s = (Ret r, s1) ->
  rows_with item_id (working s) = [r] /\ s1 = called EvSelect s.
Proof.
  intros H. unfold get_item in H.
  apply try_except_ret_inv in H as [H | (e & s2 & _ & H)];
    [| destruct e; discriminate].
  apply bind_ret_inv in H as (rows & s2 & Hsel & H).
  apply db_execute_ret_inv in Hsel as (_ & -> & ->).
  apply bind_ret_inv in H as (o & s3 & Hone & H).
  apply scalar_one_or_none_ret_inv in Hone as [-> [[_ ->] | (r' & Hr & ->)]];
    [inversion H|].
  inversion H; subst. rewrite run_select_by_id in Hr. auto.
Qed.

Lemma get_items_id_present item_id s r :
  quiet s -> rows_with item_id (committed s) = [r] -> presentable r ->
  get_items_id item_id s
  = (Response 200 r, durable (called EvCommit (called EvSelect (AsyncSessionLocal s)))).
Proof.
  intros Hq Hr Hp. unfold get_items_id. rewrite route_run.
  rewrite (get_item_present item_id (AsyncSessionLocal s) r Hr)
    by (apply quiet_next_fault, Hq).
  rewrite Hp.
  rewrite (quiet_next_fault (called EvSelect (AsyncSessionLocal s)))
    by (apply quiet_called, Hq).
  reflexivity.
Qed.

(** X8.  [GET /items/{item_id}] answers 200 only with the one stored row
    that carries the id, read through the response schema; and when the
    store raises nothing, exactly one stored row carries the id and that
    row is one the routes can have written, the answer is 200 with that
    row as it is stored. *)
Theorem get_items_id_returns_the_row (item_id : Z) (s : session) :
  (forall code r s',
      get_items_id item_id s = (Response code r, s') ->
      code = 200
      /\ exists r0, rows_with item_id (committed s) = [r0]
                    /\ Item_validate r0 = Valid r /\ models.id r = item_id)
  /\ (forall r,
        quiet s -> rows_with item_id (committed s) = [r] -> presentable r ->
        fst (get_items_id item_id s) = Response 200 r).
Proof.
  split.
  - intros code r s' H. unfold get_items_id in H.
    apply route_response_inv in H as (-> & c & s1 & H & Hm & _ & _).
    apply get_item_ret_inv in H as [Hr _].
    split; [reflexivity|]. exists c. split; [exact Hr|]. split; [exact Hm|].
    assert (Hid : models.id c = item_id)
      by (eapply rows_with_id; rewrite Hr; left; reflexivity).
    unfold Item_validate in Hm.
    repeat (apply vap_valid_inv in Hm as (? & ? & Hm & _ & ->)).
    injection Hm as <-. exact Hid.
  - intros r Hq Hr Hp. rewrite (get_items_id_present item_id s r Hq Hr Hp). reflexivity.
Qed.

Lemma get_items_id_returns_the_row_witness :
  fst (get_items_id 1 (store [Sample.widget] [])) = Response 200 Sample.widget.
Proof.
  apply (proj2 (get_items_id_returns_the_row 1 (store [Sample.widget] []))).
  - repeat constructor.
  - reflexivity.
  - vm_compute. reflexivity.
Defined.



(** ** The answers of an update *)

Lemma update_item_for_retry_run attempt rest item_id item s1 :
  (db_rollback ;; asyncio_sleep (retry_delay * (attempt + 1)) ;;
   update_item_for rest item_id item) s1
  = update_item_for rest item_id item (backoff attempt s1).
Proof. reflexivity. Qed.

(** Every exception [update_item] raises is one of its four
    [HTTPException]s. *)
Lemma update_item_for_raise_inv attempts item_id item s e s' :
  update_item_for attempts item_id item s = (Raise e, s') ->
  e = HTTPException 500 "Database is busy, please try again later"
  \/ (exists msg, e = HTTPException 400 ("Database integrity error: " +:+ msg))
  \/ (exists msg, e = HTTPException 500 ("Internal server error: " +:+ msg))
  \/ e = HTTPException 500 "Max retries exceeded for update operation".
Proof.
  revert s. induction attempts as [|attempt rest IH]; intros s H;
    cbn [update_item_for] in H.
  - inversion H. auto.
  - apply try_except_raise_inv in H as (e0 & s1 & _ & H).
    destruct e0 as [msg|msg|code detail|msg].
    + destruct (_ && _).
      * rewrite update_item_for_retry_run in H. apply (IH _ H).
      * rewrite rollback_then_throw_run in H. inversion H. auto.
    + rewrite rollback_then_throw_run in H. inversion H. right; left. eauto.
    + rewrite rollback_then_throw_run in H. inversion H. right; right; left. eauto.
    + rewrite rollback_then_throw_run in H. inversion H. right; right; left. eauto.
Qed.

(** The loop is never left at its end: the last allowed attempt does not
    continue. *)
Lemma update_item_for_not_exhausted attempts item_id item s e s' :
  update_item_for attempts item_id item s = (Raise e, s') ->
  (exists a, last attempts = Some a /\ max_retries - 1 <= a) ->
  e <> HTTPException 500 "Max retries exceeded for update operation".
Proof.
  revert s. induction attempts as [|attempt rest IH]; intros s H (a & Hl & Ha);
    [discriminate|].
  cbn [update_item_for] in H.
  apply try_except_raise_inv in H as (e0 & s1 & _ & H).
  destruct e0 as [msg|msg|code detail|msg].
  - destruct (_ && (attempt <? max_retries - 1)) eqn:Ec.
    + rewrite update_item_for_retry_run in H.
      apply andb_true_iff in Ec as [_ Ec]. apply Z.ltb_lt in Ec.
      apply (IH _ H). exists a. split; [| exact Ha].
      destruct rest as [|a' rest']; [| exact Hl].
      cbn in Hl. injection Hl as ->. lia.
    + rewrite rollback_then_throw_run in H. inversion H. discriminate.
  - rewrite rollback_then_throw_run in H. inversion H. discriminate.
  - rewrite rollback_then_throw_run in H. inversion H.
    intros E. inversion E.
  - rewrite rollback_then_throw_run in H. inversion H.
    intros E. inversion E.
Qed.

(** The pauses of a run are the first pauses of the schedule. *)
Lemma update_item_for_pauses attempts item_id item s r s' :
  update_item_for attempts item_id item s = (r, s') ->
  exists l, l `prefix_of` pauses attempts
            /\ sleeps (log s') = sleeps (log s) ++ l.
Proof.
  revert s. induction attempts as [|attempt rest IH]; intros s H;
    cbn [update_item_for] in H.
  - inversion H. exists []. split; [apply prefix_nil | rewrite app_nil_r; reflexivity].
  - unfold try_except in H.
    destruct (update_item_try item_id item s) as [[r0|e0] s1] eqn:E;
      pose proof (update_item_try_same_sleeps _ _ _ _ _ E) as Hs1;
      unfold same_sleeps in Hs1.
    + inversion H; subst. exists [].
      split; [apply prefix_nil | rewrite app_nil_r; exact Hs1].
    + assert (Hstop : forall e1 : exn,
                (db_rollback ;; (mthrow e1 : db models.Item)) s1 = (r, s') ->
                exists l, l `prefix_of` pauses (attempt :: rest)
                          /\ sleeps (log s') = sleeps (log s) ++ l).
      { intros e1 H1. rewrite rollback_then_throw_run in H1. inversion H1; subst.
        exists []. split; [apply prefix_nil|].
        rewrite sleeps_rolled_back, app_nil_r. exact Hs1. }
      destruct e0 as [msg|msg|code detail|msg]; try (eapply Hstop; exact H).
      destruct (_ && (attempt <? max_retries - 1)) eqn:Ec; [| eapply Hstop; exact H].
      rewrite update_item_for_retry_run in H.
      apply andb_true_iff in Ec as [_ Ec].
      destruct (IH _ H) as (l & Hl & Hs).
      exists (retry_delay * (attempt + 1) :: l). split.
      * unfold pauses. cbn [List.filter]. rewrite Ec. cbn [map].
        apply prefix_cons. exact Hl.
      * rewrite Hs, sleeps_backoff, Hs1, <- app_assoc. reflexivity.
Qed.

(** X10.  [update_item] makes at most three attempts and pauses at most
    twice: whatever the store does, the pauses of a run are none, 100 ms,
    or 100 ms then 200 ms; the exception written after the loop, "Max
    retries exceeded for update operation", is never raised, and every
    exception that is raised is an [HTTPException] with status 400 or
    500. *)
Theorem update_item_retries_are_bounded (item_id : Z) (item : ItemUpdate) (s : session) :
  (exists l,
      In l [[]; [100]; [100; 200]]
      /\ sleeps (log (snd (update_item item_id item s))) = sleeps (log s) ++ l)
  /\ fst (update_item item_id item s)
     <> Raise (HTTPException 500 "Max retries exceeded for update operation")
  /\ (forall e, fst (update_item item_id item s) = Raise e ->
        exists code detail, e = HTTPException code detail /\ (code = 400 \/ code = 500)).
Proof.
  unfold update_item. rewrite range_max_retries.
  destruct (update_item_for [0; 1; 2] item_id item s) as [r s'] eqn:E.
  cbn [fst snd]. split; [| split].
  - destruct (update_item_for_pauses _ _ _ _ _ _ E) as (l & [k Hl] & Hs).
    exists l. split; [| exact Hs].
    change (pauses [0; 1; 2]) with [100; 200] in Hl.
    destruct l as [|a [|a' [|a'' l]]]; cbn in Hl; inversion Hl; subst; cbn; auto.
  - intros ->. eapply update_item_for_not_exhausted; [exact E | | reflexivity].
    exists 2. split; [reflexivity | unfold max_retries; lia].
  - intros e ->.
    apply update_item_for_raise_inv in E
      as [-> | [(msg & ->) | [(msg & ->) | ->]]]; eauto 6.
Qed.

Lemma update_item_retries_are_bounded_witness :
  exists code detail,
    HTTPException 500 "Database is busy, please try again later"
    = HTTPException code detail
    /\ (code = 400 \/ code = 500).
Proof.
  apply (proj2 (proj2 (update_item_retries_are_bounded 1
                         (Sample.parsed_update Sample.full_update)
                         (store [Sample.widget]
                            [Some Sample.lock; Some Sample.lock; Some Sample.lock])))).
  vm_compute. reflexivity.
Defined.

Lemma update_item_for_http attempt rest item_id item s code detail s1 :
  update_item_try item_id item s = (Raise (HTTPException code detail), s1) ->
  update_item_for (attempt :: rest) item_id item s
  = (Raise (HTTPException 500
              ("Internal server error: " +:+ pretty code +:+ ": " +:+ detail)),
     rolled_back s1).
Proof.
  intros H. cbn [update_item_for]. unfold try_except. rewrite H. reflexivity.
Qed.

Lemma update_item_try_absent item_id item s :
  rows_with item_id (working s) = [] -> next_fault s = None ->
  update_item_try item_id item s
  = (Raise (HTTPException 404 "Item not found"), called EvSelect s).
Proof.
  intros Hr Hq. unfold update_item_try.
  rewrite bind_run, db_execute_quiet by exact Hq.
  rewrite run_select_by_id, Hr. reflexivity.
Qed.

(** The error answers of an update: 422 from the schema, 400 for an
    integrity error of the store, 500 for everything else. *)
Lemma put_items_id_error_inv (item_id : Z) (b : body) (s : session) code detail :
  fst (put_items_id item_id b s) = ErrorResponse code detail ->
  (code = 400 /\ exists msg, detail = "Database integrity error: " +:+ msg)
  \/ code = 422 \/ code = 500.
Proof.
  unfold put_items_id, validated.
  destruct (ItemUpdate_validate b) as [it|errs|exc]; cbn [fst].
  - rewrite route_run.
    destruct (update_item item_id it (AsyncSessionLocal s)) as [[c|e] s1] eqn:E.
    + destruct (Item_validate c) as [a|errs|exc]; cbn [fst];
        try solve [intros H; inversion H; auto].
      destruct (next_fault s1) as [f|]; cbn [fst]; [| discriminate].
      destruct f; cbn; intros H; inversion H; auto.
    + unfold update_item in E.
      apply update_item_for_raise_inv in E
        as [-> | [(msg & ->) | [(msg & ->) | ->]]];
        cbn; intros H; inversion H; eauto.
  - intros H; inversion H; auto.
  - intros H; inversion H; auto.
Qed.



(** ** What an update does to the table *)

Lemma supplied_elem_inv {A : Type} (k k' : string) (f : jfield A) :
  k' ∈ supplied k f -> k' = k /\ f <> Absent.
Proof.
  destruct f; cbn; intros H.
  - apply elem_of_empty in H. destruct H.
  - apply elem_of_singleton in H. split; [exact H | discriminate].
  - apply elem_of_singleton in H. split; [exact H | discriminate].
Qed.

Lemma description_set_iff b it :
  ItemUpdate_validate b = Valid it ->
  "description" ∈ iu_fields_set it <-> b_description b <> Absent.
Proof.
  intros Hv. split; [| apply (ItemUpdate_validate_fields_set _ _ Hv)].
  apply ItemUpdate_validate_inv in Hv as (n & d & p & q & _ & _ & _ & _ & ->).
  cbn [iu_fields_set]. unfold body_fields_set. rewrite !elem_of_union.
  intros [[[H | H] | H] | H]; apply supplied_elem_inv in H as [E H];
    try discriminate E. exact H.
Qed.

(** What the update schema makes of members that were given. *)
Lemma ItemUpdate_validate_given b it :
  ItemUpdate_validate b = Valid it ->
  (forall n, b_name b = Given n -> iu_name it = Some n)
  /\ (forall d, b_description b = Given d -> iu_description it = Some d)
  /\ (b_description b = Absent -> iu_description it = None)
  /\ (forall v, b_price b = Given v ->
        exists p, Dec.quantize v Dec.cent = Some p /\ iu_price it = Some p)
  /\ (forall q, b_quantity b = Given q -> iu_quantity it = Some q).
Proof.
  intros Hv.
  apply ItemUpdate_validate_inv in Hv as (n & d & p & q & Hn & Hd & Hp & Hq & ->).
  cbn [iu_name iu_description iu_price iu_quantity].
  split; [| split; [| split; [| split]]].
  - intros n0 E. rewrite E in Hn. cbn in Hn. unfold Schema.constrained_str in Hn.
    repeat match type of Hn with context [if ?c then _ else _] => destruct c end;
      cbn in Hn; inversion Hn; reflexivity.
  - intros d0 E. rewrite E in Hd. cbn in Hd. unfold Schema.constrained_str in Hd.
    repeat match type of Hd with context [if ?c then _ else _] => destruct c end;
      cbn in Hd; inversion Hd; reflexivity.
  - intros E. rewrite E in Hd. cbn in Hd. inversion Hd. reflexivity.
  - intros v E. rewrite E in Hp. cbn in Hp. unfold Schema.decimal_ge0 in Hp.
    destruct (Dec.geb v Dec.zero); cbn in Hp; [| discriminate].
    destruct (Dec.ltb v Dec.zero); [discriminate|].
    destruct (Dec.quantize v Dec.cent) as [p0|]; [| discriminate].
    inversion Hp. eauto.
  - intros q0 E. rewrite E in Hq. cbn in Hq. unfold Schema.int_ge0 in Hq.
    destruct (0 <=? q0); cbn in Hq; inversion Hq; reflexivity.
Qed.

(** The row an update with name, price and quantity writes: the three
    replaced, the description replaced when the dict holds it. *)
Lemma set_values_given it r n p q :
  "name" ∈ iu_fields_set it -> "price" ∈ iu_fields_set it ->
  "quantity" ∈ iu_fields_set it ->
  iu_name it = Some n -> iu_price it = Some p -> iu_quantity it = Some q ->
  set_values (ItemUpdate_model_dump_exclude_unset it) r
  = Ret (models.mkItem (models.id r) n
           (if decide ("description" ∈ iu_fields_set it) then iu_description it
            else models.description r) p q).
Proof.
  intros Fn Fp Fq En Ep Eq. unfold set_values.
  destruct (decide _) as [_|Hdom]; [| exfalso; apply Hdom, model_dump_dom].
  rewrite (proj2 (model_dump_lookup it "name" _) (conj (model_dump_name it) Fn)).
  rewrite (proj2 (model_dump_lookup it "price" _) (conj (model_dump_price_all it) Fp)).
  rewrite (proj2 (model_dump_lookup it "quantity" _) (conj (model_dump_quantity it) Fq)).
  rewrite En, Ep, Eq. cbn [of_opt set_name rbind].
  destruct (decide ("description" ∈ iu_fields_set it)) as [Fd|Fd].
  - rewrite (proj2 (model_dump_lookup it "description" _)
               (conj (model_dump_description it) Fd)).
    destruct (iu_description it); reflexivity.
  - destruct (ItemUpdate_model_dump_exclude_unset it !! "description") as [v|] eqn:E;
      [| reflexivity].
    apply model_dump_lookup in E as [_ E]. contradiction.
Qed.

(** The statement on a table where one row carries the id. *)
Lemma update_rows_one item_id data table r0 r' :
  rows_with item_id table = [r0] ->
  set_values data r0 = Ret r' ->
  update_rows item_id data table
  = Ret (map (fun r => if models.id r =? item_id then r' else r) table).
Proof.
  intros Hrows Hset.
  assert (H : forall r, In r table -> (models.id r =? item_id) = true -> r = r0).
  { intros r Hin Hid.
    assert (Hf : In r (rows_with item_id table))
      by (apply filter_In; split; assumption).
    rewrite Hrows in Hf. destruct Hf as [<- | []]. reflexivity. }
  clear Hrows. induction table as [|r table IH]; [reflexivity|].
  cbn [update_rows map].
  rewrite IH by (intros r1 Hin; apply H; right; exact Hin).
  destruct (models.id r =? item_id) eqn:E.
  - rewrite (H r (or_introl eq_refl) E), Hset. reflexivity.
  - reflexivity.
Qed.

Lemma rows_with_replaced item_id table r0 r' :
  rows_with item_id table = [r0] -> models.id r' = item_id ->
  rows_with item_id (map (fun r => if models.id r =? item_id then r' else r) table)
  = [r'].
Proof.
  intros Hrows Hid.
  assert (H : forall t,
             rows_with item_id
               (map (fun r => if models.id r =? item_id then r' else r) t)
             = map (fun _ => r') (rows_with item_id t)).
  { induction t as [|r t IH]; [reflexivity|].
    unfold rows_with in *. cbn [map List.filter].
    destruct (models.id r =? item_id) eqn:E.
    - rewrite Hid, Z.eqb_refl. cbn [map]. rewrite IH. reflexivity.
    - rewrite E. exact IH. }
  rewrite H, Hrows. reflexivity.
Qed.

Lemma db_execute_update_quiet item_id data s table' :
  next_fault s = None ->
  update_rows item_id data (working s) = Ret table' ->
  db_execute_update item_id data s
  = (Ret tt, mkSession (committed s) table' (new_ s) (deleted s) (new_ids s)
               (tail (faults s)) (log s ++ [EvUpdate])).
Proof.
  intros Hq Hu. unfold db_execute_update.
  rewrite bind_run, store_call_quiet by exact Hq.
  rewrite bind_run. cbn [gets]. rewrite bind_run. unfold of_result.
  change (working (called EvUpdate s)) with (working s). rewrite Hu. reflexivity.
Qed.

(** One attempt on a store that raises nothing, for a dict the row
    accepts: the row is rewritten, the transaction committed, the row read
    again. *)
Lemma update_item_try_quiet item_id item s r0 r' :
  quiet s -> new_ s = [] -> deleted s = [] ->
  rows_with item_id (working s) = [r0] ->
  ItemUpdate_model_dump_exclude_unset item <> ∅ ->
  price_normalized (ItemUpdate_model_dump_exclude_unset item) ->
  set_values (ItemUpdate_model_dump_exclude_unset item) r0 = Ret r' ->
  models.id r' = item_id ->
  exists s1,
    update_item_try item_id item s = (Ret r', s1)
    /\ quiet s1
    /\ working s1 = map (fun r => if models.id r =? item_id then r' else r) (working s)
    /\ new_ s1 = [] /\ deleted s1 = []
    /\ sleeps (log s1) = sleeps (log s).
Proof.
  intros Hq Hn Hd Hrows Hne Hpn Hset Hid. unfold update_item_try.
  rewrite bind_run, db_execute_quiet by (apply quiet_next_fault, Hq).
  rewrite run_select_by_id, Hrows. rewrite bind_run.
  cbn [scalar_one_or_none mret db_ret].
  destruct (decide _) as [E|_]; [contradiction|].
  rewrite (price_to_decimal_id _ Hpn), mret_bind.
  rewrite bind_run.
  pose proof (quiet_called EvSelect s Hq) as Hq1.
  rewrite (db_execute_update_quiet _ _ _ _ (quiet_next_fault _ Hq1)
             (update_rows_one _ _ _ _ _ Hrows Hset)).
  set (table' := map (fun r => if models.id r =? item_id then r' else r) (working s)).
  set (s2 := mkSession _ table' _ _ _ _ _).
  assert (Hq2 : quiet s2).
  { unfold quiet, s2. cbn [faults]. unfold quiet in Hq1.
    destruct (faults (called EvSelect s)) as [|f fs] eqn:Ef; [constructor|].
    inversion Hq1; assumption. }
  rewrite bind_run, db_commit_quiet by (apply quiet_next_fault, Hq2).
  pose proof (quiet_durable _ (quiet_called EvCommit s2 Hq2)) as Hq3.
  assert (Hw3 : working (durable (called EvCommit s2)) = table').
  { unfold durable. cbn [working].
    apply (flushed_nothing (called EvCommit s2)); assumption. }
  rewrite bind_run, db_execute_quiet by (apply quiet_next_fault, Hq3).
  rewrite run_select_by_id, Hw3.
  unfold table' at 1. rewrite (rows_with_replaced _ _ _ _ Hrows Hid).
  cbn [scalar_one mret db_ret].
  eexists. split; [reflexivity|].
  split; [apply quiet_called, Hq3|].
  split; [exact Hw3|].
  split; [reflexivity|]. split; [reflexivity|].
  unfold durable. cbn [log called]. rewrite log_flushed. cbn [log called s2].
  rewrite !sleeps_app. cbn [sleeps]. rewrite !app_nil_r. reflexivity.
Qed.



(** ** The name filter *)

Lemma like_percent_cons (pat : string) (c : ascii) (s : string) :
  Str.like (String "%" pat) (String c s)
  = Str.like pat (String c s) || Str.like (String "%" pat) s.
Proof. reflexivity. Qed.

Lemma like_percent_here (pat s : string) :
  Str.like pat s = true -> Str.like (String "%" pat) s = true.
Proof.
  intros H. destruct s as [|c s]; [cbn; rewrite H; reflexivity|].
  rewrite like_percent_cons, H. reflexivity.
Qed.

(** A text that starts the name, up to ASCII case, matches as a pattern
    followed by [%]. *)
Lemma like_startswith (t s : string) :
  Str.startswith (Str.lower t) (Str.lower s) = true ->
  Str.like (t +:+ "%") s = true.
Proof.
  revert s. induction t as [|a t IH]; intros s H.
  - apply like_percent_any.
  - destruct s as [|c s]; [discriminate|].
    cbn [Str.lower Str.startswith] in H. apply andb_true_iff in H as [Hc Ht].
    change (String a t +:+ "%") with (String a (t +:+ "%")).
    destruct (Ascii.eqb a "%") eqn:Ea.
    + apply Ascii.eqb_eq in Ea. subst a.
      rewrite like_percent_cons. apply orb_true_iff. right.
      apply like_percent_here, IH, Ht.
    + cbn [Str.like]. rewrite Ea, Hc, orb_true_r. apply IH, Ht.
Qed.

Lemma like_contains (t s : string) :
  Str.contains (Str.lower t) (Str.lower s) = true ->
  Str.like ("%" +:+ t +:+ "%") s = true.
Proof.
  change ("%" +:+ t +:+ "%") with (String "%" (t +:+ "%")).
  induction s as [|c s IH]; intros H.
  - cbn [Str.lower Str.contains] in H. rewrite orb_false_r in H.
    apply like_percent_here, like_startswith, H.
  - cbn [Str.lower Str.contains] in H. apply orb_true_iff in H as [H | H].
    + apply like_percent_here, like_startswith, H.
    + rewrite like_percent_cons. apply orb_true_iff. right. apply IH, H.
Qed.

Lemma startswith_lower (t s : string) :
  Str.startswith t s = true -> Str.startswith (Str.lower t) (Str.lower s) = true.
Proof.
  revert s. induction t as [|a t IH]; intros s H; [reflexivity|].
  destruct s as [|c s]; [discriminate|].
  cbn [Str.lower Str.startswith] in *. apply andb_true_iff in H as [Hc Ht].
  apply Ascii.eqb_eq in Hc. subst c. rewrite Ascii.eqb_refl. apply IH, Ht.
Qed.

Lemma contains_lower (t s : string) :
  Str.contains t s = true -> Str.contains (Str.lower t) (Str.lower s) = true.
Proof.
  induction s as [|c s IH]; intros H.
  - cbn [Str.lower Str.contains] in *. rewrite orb_false_r in *.
    apply (startswith_lower t ""), H.
  - cbn [Str.contains] in H. apply orb_true_iff in H as [H | H].
    + cbn [Str.lower Str.contains]. apply orb_true_iff. left.
      apply (startswith_lower t (String c s)), H.
    + cbn [Str.lower Str.contains]. apply orb_true_iff. right. apply IH, H.
Qed.

(** X13.  The name filter of [list_items] misses no row: a row whose name
    contains the given text -- as it is written, or up to ASCII case -- passes
    the clause [Item.name.contains(text)]. *)
Theorem name_filter_finds_substrings (t : string) (r : models.Item) :
  (Str.contains t (models.name r) = true -> eval_clause r (NameContains t) = true)
  /\ (Str.contains (Str.lower t) (Str.lower (models.name r)) = true ->
      eval_clause r (NameContains t) = true).
Proof.
  split; intros H; cbn [eval_clause]; apply like_contains; [apply contains_lower |];
    exact H.
Qed.

Lemma name_filter_finds_substrings_witness :
  eval_clause Sample.widget (NameContains "idg") = true
  /\ eval_clause Sample.widget (NameContains "WIDGET") = true.
Proof.
  split.
  - apply (proj1 (name_filter_finds_substrings "idg" Sample.widget)). reflexivity.
  - apply (proj2 (name_filter_finds_substrings "WIDGET" Sample.widget)). reflexivity.
Defined.

(** ** The page of a listing *)

Lemma list_query_validate_defaults q skip limit_n min_price max_price name_contains :
  list_query_validate q = Valid (skip, limit_n, min_price, max_price, name_contains) ->
  skip = default 0 (q_skip q) /\ limit_n = default 100 (q_limit q).
Proof.
  unfold list_query_validate. intros H.
  apply vap_valid_inv in H as (g5 & nc & H & _ & E5).
  apply vap_valid_inv in H as (g4 & hi & H & _ & ->).
  apply vap_valid_inv in H as (g3 & lo & H & _ & ->).
  apply vap_valid_inv in H as (g2 & l & H & Hl & ->).
  apply vap_valid_inv in H as (g1 & k & H & Hk & ->).
  inversion H; subst g1. inversion E5; subst. clear H E5.
  split.
  - destruct (0 <=? default 0 (q_skip q)); inversion Hk; reflexivity.
  - destruct (default 100 (q_limit q) <? 1); [discriminate|].
    destruct (1000 <? default 100 (q_limit q)); inversion Hl; reflexivity.
Qed.

Lemma Item_validate_id r r' : Item_validate r = Valid r' -> models.id r' = models.id r.
Proof.
  unfold Item_validate. intros Hm.
  repeat (apply vap_valid_inv in Hm as (? & ? & Hm & _ & ->)).
  injection Hm as <-. reflexivity.
Qed.

Lemma List_Item_validate_ids c rows :
  List_Item_validate c = Valid rows -> map models.id rows = map models.id c.
Proof.
  revert rows. induction c as [|r c IH]; intros rows H; cbn [List_Item_validate] in H.
  - inversion H. reflexivity.
  - apply vap_valid_inv in H as (g & rows' & H & Hrows & ->).
    apply vap_valid_inv in H as (g' & r' & H & Hr & ->).
    inversion H; subst g'. cbn [map].
    rewrite (Item_validate_id _ _ Hr), (IH _ Hrows). reflexivity.
Qed.

Lemma sublist_map {A B : Type} (f : A -> B) (l1 l2 : list A) :
  l1 `sublist_of` l2 -> map f l1 `sublist_of` map f l2.
Proof.
  induction 1; cbn [map];
    [constructor | apply sublist_skip; assumption | apply sublist_cons; assumption].
Qed.

Lemma sublist_List_filter {A : Type} (f : A -> bool) (l : list A) :
  List.filter f l `sublist_of` l.
Proof.
  induction l as [|a l IH]; cbn [List.filter]; [constructor|].
  destruct (f a); [apply sublist_skip | apply sublist_cons]; exact IH.
Qed.

Lemma list_items_ret_inv skip limit_n min_price max_price name_contains s c s1 :
  1 <= limit_n ->
  list_items skip limit_n min_price max_price name_contains s = (Ret c, s1) ->
  c = page skip limit_n
        (List.filter (like_matches min_price max_price name_contains) (working s)).
Proof.
  intros Hl H.
  assert (Hq : next_fault s = None).
  { unfold list_items in H.
    apply try_except_ret_inv in H as [H | (e & s2 & _ & H)]; [| discriminate].
    apply db_execute_ret_inv in H as (Hq & _). exact Hq. }
  rewrite (list_items_quiet _ _ _ _ _ _ Hl Hq) in H. inversion H. reflexivity.
Qed.

Lemma list_query_validate_refuses q :
  (exists n, q_skip q = Some n /\ n < 0)
  \/ (exists n, q_limit q = Some n /\ (n < 1 \/ 1000 < n))
  \/ (exists m, q_min_price q = Some m /\ Dec.ltb m Dec.zero = true)
  \/ (exists m, q_max_price q = Some m /\ Dec.ltb m Dec.zero = true) ->
  exists errors, list_query_validate q = Invalid errors.
Proof.
  intros H. unfold list_query_validate.
  assert (Hbad :
    (0 <=? default 0 (q_skip q)) = false
    \/ (default 100 (q_limit q) <? 1) = true
    \/ ((default 100 (q_limit q) <? 1) = false
        /\ (1000 <? default 100 (q_limit q)) = true)
    \/ (exists m, q_min_price q = Some m /\ Dec.geb m Dec.zero = false)
    \/ (exists m, q_max_price q = Some m /\ Dec.geb m Dec.zero = false)).
  { destruct H as [(n & -> & Hn) | [(n & -> & Hn) | [(m & Hm & Hneg) | (m & Hm & Hneg)]]].
    - left. cbn. apply Z.leb_gt, Hn.
    - cbn. destruct (n <? 1) eqn:E; [auto|]. right; right; left.
      split; [reflexivity|]. apply Z.ltb_ge in E. apply Z.ltb_lt. lia.
    - do 3 right. left. exists m. split; [exact Hm | apply negative_not_ge0, Hneg].
    - do 4 right. exists m. split; [exact Hm | apply negative_not_ge0, Hneg]. }
  clear H.
  destruct (0 <=? default 0 (q_skip q)) eqn:E1;
    destruct (default 100 (q_limit q) <? 1) eqn:E2;
    destruct (1000 <? default 100 (q_limit q)) eqn:E3;
    destruct (q_min_price q) as [lo|] eqn:E4;
    destruct (q_max_price q) as [hi|] eqn:E5;
    cbn [from_option Schema.optional_nullable vbind];
    unfold Schema.decimal_ge0;
    try destruct (Dec.geb lo Dec.zero) eqn:E6;
    try destruct (Dec.geb hi Dec.zero) eqn:E7;
    cbn [vap vbind]; try (eexists; reflexivity); exfalso;
    destruct Hbad as [Hb | [Hb | [[_ Hb] | [(m & Hm & Hb) | (m & Hm & Hb)]]]];
    try discriminate; try (injection Hm as <-); congruence.
Qed.



(** ** The price validators *)

Lemma ltb_zero_false_ge0 (d : Dec.t) :
  Dec.ltb d Dec.zero = false -> Dec.geb d Dec.zero = true.
Proof.
  unfold Dec.ltb, Dec.geb, Dec.leb. rewrite (Dec_compare_antisym d Dec.zero).
  destruct (Dec.compare d Dec.zero); cbn; congruence.
Qed.

(** X15.  [ItemBase.validate_price] refuses a negative price with a value
    error and takes every other price whose integer part has at most 25
    digits to that price rounded to cents: two decimals, nearest cent, ties
    to the even cent; a price so rounded is accepted unchanged when it is
    validated again.  The override in [ItemUpdate] does the same on a
    decimal and lets [None] through. *)
Theorem validate_price_rounds_to_cents (v : Dec.t) :
  (Dec.ltb v Dec.zero = true ->
   ItemBase_validate_price v = Invalid ["price: Value error, Price must be positive"])
  /\ (Dec.ltb v Dec.zero = false ->
      Dec.exp v + Dec.ndigits (Dec.coeff v) <= 25 ->
      exists q, ItemBase_validate_price v = Valid q
                /\ two_places q /\ rounded_to_cents v q
                /\ ItemBase_validate_price q = Valid q)
  /\ ItemUpdate_validate_price (Some v)
     = vbind (ItemBase_validate_price v) (fun q => Valid (Some q))
  /\ ItemUpdate_validate_price None = Valid None.
Proof.
  split; [| split; [| split]].
  - intros H. unfold ItemBase_validate_price. rewrite H. reflexivity.
  - intros Hpos Hfit. destruct (quantize_cent_total v Hfit) as (q & Hq).
    exists q. unfold ItemBase_validate_price. rewrite Hpos, Hq.
    destruct (quantize_cent_rounded _ _ Hq) as (H2 & Hr).
    split; [reflexivity|]. split; [exact H2|]. split; [exact Hr|].
    assert (Hge : Dec.geb q Dec.zero = true).
    { apply ge0_iff. apply ltb_zero_false_ge0, ge0_iff in Hpos as [Hs | Hc].
      - left. rewrite (quantize_sign _ _ _ Hq). exact Hs.
      - right. apply (quantize_zero _ _ _ Hq Hc). }
    rewrite (ge0_not_lt0 _ Hge), (quantize_idempotent _ _ Hq). reflexivity.
  - unfold ItemUpdate_validate_price, ItemBase_validate_price.
    destruct (Dec.ltb v Dec.zero); [reflexivity|].
    destruct (Dec.quantize v Dec.cent); reflexivity.
  - reflexivity.
Qed.

Lemma validate_price_rounds_to_cents_witness :
  ItemBase_validate_price (Dec.mk true 1 0)
  = Invalid ["price: Value error, Price must be positive"]
  /\ exists q, ItemBase_validate_price (Dec.mk false 9999 (-3)) = Valid q
               /\ two_places q /\ rounded_to_cents (Dec.mk false 9999 (-3)) q
               /\ ItemBase_validate_price q = Valid q.
Proof.
  split.
  - apply (proj1 (validate_price_rounds_to_cents (Dec.mk true 1 0))). reflexivity.
  - apply (proj1 (proj2 (validate_price_rounds_to_cents (Dec.mk false 9999 (-3))))).
    + reflexivity.
    + vm_compute. discriminate.
Defined.

(** ** The stored rows under any sequence of requests *)

(** What [schemas.Item] asks of a row, constraint by constraint. *)
Lemma presentable_constraints (r : models.Item) :
  presentable r ->
  (1 <= String.length (models.name r) <= 50)%nat
  /\ (forall d, models.description r = Some d -> (String.length d <= 500)%nat)
  /\ Dec.geb (models.price r) Dec.zero = true
  /\ two_places (models.price r)
  /\ 0 <= models.quantity r.
Proof.
  intros H. apply presentable_iff in H as (Hn & Hd & Hp & Hq).
  split; [| split; [| split; [| split]]].
  - unfold Schema.constrained_str in Hn.
    destruct (String.length (models.name r) <? 1)%nat eqn:E1; [discriminate|].
    destruct (50 <? String.length (models.name r))%nat eqn:E2; [discriminate|].
    apply Nat.ltb_ge in E1, E2. lia.
  - intros d Ed. rewrite Ed in Hd.
    cbn [from_option Schema.optional_nullable] in Hd.
    unfold Schema.constrained_str in Hd.
    destruct (String.length d <? 0)%nat; [discriminate|].
    destruct (500 <? String.length d)%nat eqn:E2; [discriminate|].
    apply Nat.ltb_ge in E2. exact E2.
  - unfold Schema.decimal_ge0 in Hp.
    destruct (Dec.geb (models.price r) Dec.zero); [reflexivity | discriminate].
  - unfold Schema.decimal_ge0 in Hp.
    destruct (Dec.geb (models.price r) Dec.zero); [| discriminate].
    cbn [vbind] in Hp. unfold ItemBase_validate_price in Hp.
    destruct (Dec.ltb (models.price r) Dec.zero); [discriminate|].
    destruct (Dec.quantize (models.price r) Dec.cent) as [p|] eqn:Eq; [| discriminate].
    injection Hp as ->. apply (quantize_cent_rounded _ _ Eq).
  - unfold Schema.int_ge0 in Hq.
    destruct (0 <=? models.quantity r) eqn:E; [apply Z.leb_le, E | discriminate].
Qed.

Lemma serve_presentable (s : session) (req : request) :
  Forall presentable (committed s) -> Forall presentable (committed (serve s req)).
Proof.
  intros Hs. destruct (routes_keep_rows_presentable s Hs) as (H1 & H2 & H3 & H4 & H5).
  destruct req; cbn [serve]; auto.
Qed.

(** X16.  The constraints of the schema are an invariant of the stored
    table: starting from an empty table, after any sequence of requests to
    the five routes, whatever failures the store raised on the way, every
    stored row has a name of 1 to 50 characters, a description of at most
    500 characters when it has one, a price that is not negative and has
    exactly two decimals, and a quantity that is not negative. *)
Theorem stored_rows_meet_the_schema (script : list (option store_exc))
    (requests : list request) :
  Forall (fun r =>
            (1 <= String.length (models.name r) <= 50)%nat
            /\ (forall d, models.description r = Some d -> (String.length d <= 500)%nat)
            /\ Dec.geb (models.price r) Dec.zero = true
            /\ two_places (models.price r)
            /\ 0 <= models.quantity r)
    (committed (fold_left serve requests (store [] script))).
Proof.
  assert (H : forall s, Forall presentable (committed s) ->
                        Forall presentable (committed (fold_left serve requests s))).
  { induction requests as [|req requests IH]; intros s Hs; [exact Hs|].
    cbn [fold_left]. apply IH, serve_presentable, Hs. }
  eapply Forall_impl; [apply H; constructor|].
  intros r. apply presentable_constraints.
Qed.


(** ** Branches of [update_item] that no request reaches *)

(** X17.  Two branches of [update_item] are dead.  For every body the
    update schema accepts, the dict dumped with [exclude_unset] is not
    empty, so the check "No fields to update provided" is not taken, and
    its price is a [Decimal] or [None], never a text, so the conversion of
    a textual price changes nothing.  And no request at all is answered 400
    "No fields to update provided". *)
Theorem update_item_dead_branches (b : body) (item_id : Z) (s : session) :
  (forall it,
      ItemUpdate_validate b = Valid it ->
      ItemUpdate_model_dump_exclude_unset it <> ∅
      /\ (forall t, ItemUpdate_model_dump_exclude_unset it !! "price" <> Some (VStr t))
      /\ price_to_decimal (ItemUpdate_model_dump_exclude_unset it)
         = mret (ItemUpdate_model_dump_exclude_unset it))
  /\ fst (put_items_id item_id b s) <> ErrorResponse 400 "No fields to update provided".
Proof.
  split.
  - intros it Hv. split; [apply (ItemUpdate_validate_dump_nonempty _ _ Hv)|].
    split.
    + intros t E. apply model_dump_price in E. destruct (iu_price it); discriminate.
    + apply price_to_decimal_id, model_dump_price_normalized.
      apply (ItemUpdate_validate_price_normalized _ _ Hv).
  - intros H. apply put_items_id_error_inv in H as [[_ (msg & E)] | [E | E]];
      discriminate.
Qed.

Lemma update_item_dead_branches_witness :
  ItemUpdate_model_dump_exclude_unset (Sample.parsed_update Sample.full_update) <> ∅
  /\ (forall t,
        ItemUpdate_model_dump_exclude_unset (Sample.parsed_update Sample.full_update)
          !! "price" <> Some (VStr t))
  /\ price_to_decimal
       (ItemUpdate_model_dump_exclude_unset (Sample.parsed_update Sample.full_update))
     = mret (ItemUpdate_model_dump_exclude_unset
               (Sample.parsed_update Sample.full_update)).
Proof.
  apply (proj1 (update_item_dead_branches Sample.full_update 1
                  (store [Sample.widget] []))).
  vm_compute. reflexivity.
Defined.

(** ** The text of a stored price *)

Lemma text_append_empty_r (s : string) : s +:+ "" = s.
Proof.
  induction s as [|c s IH]; [reflexivity|].
  change (String c s +:+ "") with (String c (s +:+ "")). rewrite IH. reflexivity.
Qed.

Lemma to_str_two_places (d : Dec.t) :
  two_places d ->
  exists I F,
    DecStr.to_str d = (if Dec.sign d then "-" else "") +:+ I +:+ "." +:+ F
    /\ all_digits I = true /\ (1 <= String.length I)%nat
    /\ all_digits F = true /\ String.length F = 2%nat.
Proof.
  destruct d as [sg c ex]. unfold two_places. cbn [Dec.exp Dec.sign]. intros ->.
  unfold DecStr.to_str. cbn [Dec.sign Dec.coeff Dec.exp].
  destruct (digits_of_spec c) as (Ha & _ & Hl).
  set (int_ := DecStr.digits_of c) in *.
  assert (Hlen : 1 <= Z.of_nat (String.length int_)) by lia.
  set (len := Z.of_nat (String.length int_)) in *.
  assert (E1 : (-2 <=? 0) && (-6 <? -2 + len) = true)
    by (apply andb_true_iff; split; [reflexivity | apply Z.ltb_lt; lia]).
  rewrite E1, Z.eqb_refl.
  destruct (-2 + len <=? 0) eqn:E0; [apply Z.leb_le in E0 | apply Z.leb_gt in E0].
  - destruct (zeros_spec (Z.to_nat (- (-2 + len)))) as (Hza & _ & Hzl).
    exists "0", (DecStr.zeros (Z.to_nat (- (-2 + len))) +:+ int_).
    split; [rewrite text_append_empty_r; reflexivity|].
    split; [reflexivity|]. split; [cbn; lia|].
    split; [rewrite all_digits_app, Hza, Ha; reflexivity|].
    rewrite text_length_append, Hzl. lia.
  - destruct (len <=? -2 + len) eqn:E2; [apply Z.leb_le in E2; lia|].
    destruct (all_digits_take_drop (Z.to_nat (-2 + len)) int_ Ha) as (Hta & Hda).
    exists (DecStr.take (Z.to_nat (-2 + len)) int_),
           (DecStr.drop (Z.to_nat (-2 + len)) int_).
    split; [rewrite text_append_empty_r; reflexivity|]. split; [exact Hta|].
    split; [rewrite text_length_take by lia; lia|].
    split; [exact Hda|]. rewrite text_length_drop. lia.
Qed.

(** X18.  The price of an accepted create is rendered by [ItemBase.dict()]
    in plain notation with exactly two decimals -- digits, a point, two
    digits, no exponent -- and that text reads back as the price. *)
Theorem ItemBase_dict_price_has_two_decimals (b : body) (item : ItemCreate) :
  ItemCreate_validate b = Valid item ->
  exists I F,
    ItemBase_dict item !! "price"
    = Some (VStr ((if Dec.sign (ic_price item) then "-" else "") +:+ I +:+ "." +:+ F))
    /\ all_digits I = true /\ (1 <= String.length I)%nat
    /\ all_digits F = true /\ String.length F = 2%nat
    /\ DecParse.of_string
         ((if Dec.sign (ic_price item) then "-" else "") +:+ I +:+ "." +:+ F)
       = Some (ic_price item).
Proof.
  intros Hv.
  destruct (ItemCreate_validate_price _ _ Hv) as (v & _ & Hq).
  destruct (quantize_cent_rounded _ _ Hq) as (H2 & _).
  destruct (to_str_two_places _ H2) as (I & F & E & HI & HlI & HF & HlF).
  exists I, F.
  destruct (ItemBase_model_dump_lookup item) as (_ & _ & Hp & _).
  unfold ItemBase_dict. rewrite lookup_fmap, Hp. cbn [fmap option_fmap option_map].
  rewrite E. split; [reflexivity|].
  split; [exact HI|]. split; [exact HlI|]. split; [exact HF|]. split; [exact HlF|].
  rewrite <- E. apply to_str_of_string.
Qed.

Lemma ItemBase_dict_price_has_two_decimals_witness :
  exists I F,
    ItemBase_dict (mkItemCreate "Widget" (Some "a widget") (Sample.cents 1000) 5)
      !! "price"
    = Some (VStr ("" +:+ I +:+ "." +:+ F))
    /\ all_digits I = true /\ (1 <= String.length I)%nat
    /\ all_digits F = true /\ String.length F = 2%nat
    /\ DecParse.of_string ("" +:+ I +:+ "." +:+ F) = Some (Sample.cents 1000).
Proof.
  apply (ItemBase_dict_price_has_two_decimals Sample.widget_body
           (mkItemCreate "Widget" (Some "a widget") (Sample.cents 1000) 5)).
  vm_compute. reflexivity.
Defined.

(** ** What an update leaves alone *)

Section Stable.

Context {B : Type} (f : list models.Item -> B).

Lemma stable_refl s : stable f s s.
Proof. intros H. split; [exact H | reflexivity]. Qed.

Lemma stable_trans a b c : stable f a b -> stable f b c -> stable f a c.
Proof.
  intros Hab Hbc Ha. destruct (Hab Ha) as [Hb Eb]. destruct (Hbc Hb) as [Hc Ec].
  split; [exact Hc | congruence].
Qed.

Lemma store_call_stable ev : steps (stable f) (store_call ev).
Proof.
  intros s r s' H. unfold store_call in H.
  assert (E : s' = called ev s) by (destruct (next_fault s); inversion H; reflexivity).
  subst s'. intros Hs. split; [exact Hs | reflexivity].
Qed.

Lemma db_execute_stable q : steps (stable f) (db_execute q).
Proof.
  unfold db_execute. walk stable_refl stable_trans ltac:(apply store_call_stable).
Qed.

Lemma db_commit_stable : steps (stable f) db_commit.
Proof.
  unfold db_commit. apply (steps_bind _ stable_trans);
    [apply store_call_stable | intros _].
  intros s r s' H. inversion H; subst. intros (Hw & Hn & Hd).
  unfold durable, in_step. cbn [working committed new_ deleted].
  rewrite flushed_nothing by assumption. auto.
Qed.

Lemma db_rollback_stable : steps (stable f) db_rollback.
Proof.
  intros s r s' H. inversion H; subst. intros Hs. split; [repeat split | reflexivity].
Qed.

Lemma asyncio_sleep_stable ms : steps (stable f) (asyncio_sleep ms).
Proof. intros s r s' H. inversion H; subst. intros Hs. split; [exact Hs | reflexivity]. Qed.

Section Update.

Variable item_id : Z.
Hypothesis update_rows_stable :
  forall data table table',
    update_rows item_id data table = Ret table' -> f table' = f table.

Lemma db_execute_update_stable data : steps (stable f) (db_execute_update item_id data).
Proof.
  unfold db_execute_update.
  apply (steps_bind _ stable_trans); [apply store_call_stable | intros _].
  intros s r s'. rewrite bind_run. cbn [gets]. rewrite bind_run. unfold of_result.
  destruct (update_rows item_id data (working s)) as [table'|e] eqn:E.
  - intros H. inversion H; subst. intros (Hw & Hn & Hd).
    unfold in_step. cbn [working committed new_ deleted].
    rewrite (update_rows_stable _ _ _ E). auto.
  - intros H. inversion H; subst. apply stable_refl.
Qed.

Lemma update_item_try_stable item : steps (stable f) (update_item_try item_id item).
Proof.
  unfold update_item_try.
  apply (steps_bind _ stable_trans); [apply db_execute_stable | intros rows].
  apply (steps_bind _ stable_trans);
    [apply (steps_scalar_one_or_none _ stable_refl) | intros o].
  destruct o; [| apply (steps_throw _ stable_refl)].
  destruct (decide _); [apply (steps_throw _ stable_refl)|].
  apply (steps_bind _ stable_trans);
    [apply (steps_price_to_decimal _ stable_refl) | intros data].
  apply (steps_bind _ stable_trans); [apply db_execute_update_stable | intros _].
  apply (steps_bind _ stable_trans); [apply db_commit_stable | intros _].
  apply (steps_bind _ stable_trans); [apply db_execute_stable | intros rows'].
  apply (steps_scalar_one _ stable_refl).
Qed.

Lemma update_item_for_stable attempts item :
  steps (stable f) (update_item_for attempts item_id item).
Proof.
  induction attempts as [|attempt rest IH]; cbn [update_item_for].
  - apply (steps_throw _ stable_refl).
  - apply (steps_try_except _ stable_trans); [apply update_item_try_stable | intros e].
    assert (Hstop : forall e1 : exn,
               steps (stable f) (db_rollback ;; (mthrow e1 : db models.Item))).
    { intros e1. apply (steps_bind _ stable_trans);
        [apply db_rollback_stable | intros _; apply (steps_throw _ stable_refl)]. }
    destruct e as [msg|msg|code detail|msg]; try apply Hstop.
    destruct (_ && _); [| apply Hstop].
    apply (steps_bind _ stable_trans); [apply db_rollback_stable | intros _].
    apply (steps_bind _ stable_trans); [apply asyncio_sleep_stable | intros _].
    exact IH.
Qed.

End Update.

(** A route over an endpoint under which the view is stable leaves the
    view of the stored table as it was. *)
Lemma route_stable {A : Type} (success : Z) (response_model : A -> vres A)
    (endpoint : db A) s :
  steps (stable f) endpoint ->
  f (committed (snd (route success response_model endpoint s))) = f (committed s).
Proof.
  intros He. rewrite route_run.
  assert (H0 : in_step f (AsyncSessionLocal s)) by (repeat split).
  destruct (endpoint (AsyncSessionLocal s)) as [[c|e] s1] eqn:E;
    destruct (He _ _ _ E H0) as [Hs Hc];
    change (committed (AsyncSessionLocal s)) with (committed s) in Hc.
  - destruct (response_model c) as [a|errs|exc]; cbn [snd]; try exact Hc.
    destruct (next_fault s1); cbn [snd]; [exact Hc |].
    destruct Hs as (Hw & Hn & Hd).
    unfold durable. cbn [committed].
    rewrite (flushed_nothing (called EvCommit s1)) by assumption.
    change (working (called EvCommit s1)) with (working s1). congruence.
  - cbn [snd]. exact Hc.
Qed.

End Stable.

Lemma set_values_id data r r' : set_values data r = Ret r' -> models.id r' = models.id r.
Proof.
  unfold set_values. destruct (decide _); [| discriminate]. intros H.
  apply rbind_ret_inv in H as (r1 & H1 & H).
  apply rbind_ret_inv in H as (r2 & H2 & H).
  apply rbind_ret_inv in H as (r3 & H3 & H4).
  assert (E1 : models.id r1 = models.id r).
  { unfold set_name in H1. destruct (data !! "name") as [[]|]; inversion H1; reflexivity. }
  assert (E2 : models.id r2 = models.id r1).
  { unfold set_description in H2.
    destruct (data !! "description") as [[]|]; inversion H2; reflexivity. }
  assert (E3 : models.id r3 = models.id r2).
  { unfold set_price in H3. destruct (data !! "price") as [[]|]; inversion H3; reflexivity. }
  assert (E4 : models.id r' = models.id r3).
  { unfold set_quantity in H4.
    destruct (data !! "quantity") as [[]|]; inversion H4; reflexivity. }
  congruence.
Qed.

Lemma update_rows_ids item_id data table table' :
  update_rows item_id data table = Ret table' ->
  map models.id table' = map models.id table.
Proof.
  revert table'. induction table as [|r table IH]; intros table' H;
    cbn [update_rows] in H.
  - inversion H. reflexivity.
  - apply rbind_ret_inv in H as (r' & Hr & H).
    apply rbind_ret_inv in H as (rest' & Hrest & H).
    inversion H; subst table'. cbn [map]. rewrite (IH _ Hrest). f_equal.
    destruct (models.id r =? item_id);
      [apply (set_values_id _ _ _ Hr) | inversion Hr; reflexivity].
Qed.

Lemma update_rows_without item_id data table table' :
  update_rows item_id data table = Ret table' ->
  rows_without item_id table' = rows_without item_id table.
Proof.
  revert table'. induction table as [|r table IH]; intros table' H;
    cbn [update_rows] in H.
  - inversion H. reflexivity.
  - apply rbind_ret_inv in H as (r' & Hr & H).
    apply rbind_ret_inv in H as (rest' & Hrest & H).
    inversion H; subst table'. unfold rows_without in *. cbn [List.filter].
    rewrite (IH _ Hrest).
    destruct (models.id r =? item_id) eqn:E.
    + rewrite (set_values_id _ _ _ Hr), E. reflexivity.
    + inversion Hr; subst r'. rewrite E. reflexivity.
Qed.

(** X19.  Whatever an update does -- answered or refused, with retries and
    store failures -- it adds no row, removes none and changes no key, and
    the rows that do not carry the id of the request are stored as they
    were. *)
Theorem put_items_id_touches_only_its_row (item_id : Z) (b : body) (s : session) :
  map models.id (committed (snd (put_items_id item_id b s)))
  = map models.id (committed s)
  /\ rows_without item_id (committed (snd (put_items_id item_id b s)))
     = rows_without item_id (committed s).
Proof.
  unfold put_items_id, validated.
  destruct (ItemUpdate_validate b) as [it|errs|exc]; cbn [snd];
    [| split; reflexivity | split; reflexivity].
  split.
  - apply (route_stable (map models.id)). unfold update_item.
    apply update_item_for_stable. intros data table table'. apply update_rows_ids.
  - apply (route_stable (rows_without item_id)). unfold update_item.
    apply update_item_for_stable. intros data table table'. apply update_rows_without.
Qed.

(** ** What the create schema accepts *)

Lemma constrained_str_valid_iff loc lo hi s s' :
  Schema.constrained_str loc lo hi s = Valid s'
  <-> s' = s /\ (lo <= String.length s <= hi)%nat.
Proof.
  unfold Schema.constrained_str.
  destruct (String.length s <? lo)%nat eqn:E1;
    [apply Nat.ltb_lt in E1 | apply Nat.ltb_ge in E1].
  - split; [discriminate | intros [_ H]; lia].
  - destruct (hi <? String.length s)%nat eqn:E2;
      [apply Nat.ltb_lt in E2 | apply Nat.ltb_ge in E2].
    + split; [discriminate | intros [_ H]; lia].
    + split; [intros H; injection H as <-; split; [reflexivity | lia]
             | intros [-> _]; reflexivity].
Qed.

(** X20.  What [ItemCreate] accepts, exactly: a body is accepted if and
    only if it gives a name of 1 to 50 characters, a price that is not
    negative and can be rounded to cents, and a quantity that is not
    negative, with a description of at most 500 characters, [null], or
    none at all.  The accepted item has the name and the quantity as
    given, the price rounded to cents, and the description as given
    ([None] for [null] or none). *)
Theorem ItemCreate_validate_accepts_iff (b : body) (item : ItemCreate) :
  ItemCreate_validate b = Valid item
  <-> exists n v q,
        b_name b = Given n /\ (1 <= String.length n <= 50)%nat
        /\ b_price b = Given v /\ Dec.geb v Dec.zero = true
        /\ Dec.quantize v Dec.cent = Some (ic_price item)
        /\ b_quantity b = Given q /\ 0 <= q
        /\ match b_description b with
           | Given d => (String.length d <= 500)%nat /\ ic_description item = Some d
           | _ => ic_description item = None
           end
        /\ ic_name item = n /\ ic_quantity item = q.
Proof.
  unfold ItemCreate_validate. split.
  - intros H.
    apply vap_valid_inv in H as (g4 & q & H & Hq & ->).
    apply vap_valid_inv in H as (g3 & p & H & Hp & ->).
    apply vap_valid_inv in H as (g2 & d & H & Hd & ->).
    apply vap_valid_inv in H as (g1 & n & H & Hn & ->).
    inversion H; subst g1. clear H.
    cbn [ic_name ic_description ic_price ic_quantity].
    destruct (b_name b) as [| |n0]; try discriminate. cbn in Hn.
    apply constrained_str_valid_iff in Hn as [-> Hlen].
    destruct (b_price b) as [| |v]; try discriminate.
    cbn [Schema.required vbind] in Hp. unfold Schema.decimal_ge0 in Hp.
    destruct (Dec.geb v Dec.zero) eqn:Hge; [| discriminate].
    cbn [vbind] in Hp. unfold ItemBase_validate_price in Hp.
    destruct (Dec.ltb v Dec.zero); [discriminate|].
    destruct (Dec.quantize v Dec.cent) as [p0|] eqn:Hquant; [| discriminate].
    injection Hp as <-.
    destruct (b_quantity b) as [| |q0]; try discriminate.
    cbn [Schema.required] in Hq. unfold Schema.int_ge0 in Hq.
    destruct (0 <=? q0) eqn:Hq0; [| discriminate]. injection Hq as <-.
    apply Z.leb_le in Hq0.
    exists n0, v, q0.
    split; [reflexivity|]. split; [exact Hlen|]. split; [reflexivity|].
    split; [exact Hge|]. split; [exact Hquant|]. split; [reflexivity|].
    split; [exact Hq0|]. split; [| split; reflexivity].
    destruct (b_description b) as [| |d0]; cbn [Schema.optional_nullable] in Hd;
      try (injection Hd as <-; reflexivity).
    destruct (Schema.constrained_str "description" 0 500 d0) as [d1| |] eqn:Ed;
      cbn [vbind] in Hd; try discriminate. injection Hd as <-.
    apply constrained_str_valid_iff in Ed as [-> Hl]. split; [lia | reflexivity].
  - intros (n & v & q & -> & Hlen & -> & Hge & Hquant & -> & Hq & Hd & Hn & Hqq).
    cbn [Schema.required].
    rewrite (proj2 (constrained_str_valid_iff "name" 1 50 n n) (conj eq_refl Hlen)).
    unfold Schema.decimal_ge0. rewrite Hge. cbn [vbind].
    unfold ItemBase_validate_price.
    rewrite (ge0_not_lt0 _ Hge), Hquant.
    unfold Schema.int_ge0. apply Z.leb_le in Hq. rewrite Hq.
    destruct item as [n' d' p' q']. cbn in *. subst n' q'.
    destruct (b_description b) as [| |d0]; cbn [Schema.optional_nullable].
    + subst d'. reflexivity.
    + subst d'. reflexivity.
    + destruct Hd as [Hl ->].
      rewrite (proj2 (constrained_str_valid_iff "description" 0 500 d0 d0)
                 (conj eq_refl (conj (Nat.le_0_l _) Hl))).
      reflexivity.
Qed.

Lemma ItemCreate_validate_accepts_iff_witness :
  ItemCreate_validate Sample.widget_body
  = Valid (mkItemCreate "Widget" (Some "a widget") (Sample.cents 1000) 5).
Proof.
  apply (proj2 (ItemCreate_validate_accepts_iff Sample.widget_body
                  (mkItemCreate "Widget" (Some "a widget") (Sample.cents 1000) 5))).
  exists "Widget", (Dec.mk false 9999 (-3)), 5.
  split; [reflexivity|]. split; [cbn; lia|]. split; [reflexivity|].
  split; [reflexivity|]. split; [reflexivity|]. split; [reflexivity|].
  split; [lia|]. split; [split; [cbn; lia | reflexivity]|]. split; reflexivity.
Defined.

(** ** The keys of the stored rows *)

Lemma keys_kept_refl s : keys_kept s s.
Proof. intros H. exact H. Qed.

Lemma keys_kept_trans a b c : keys_kept a b -> keys_kept b c -> keys_kept a c.
Proof. unfold keys_kept. auto. Qed.

Lemma keyed_delete_ids ids table : keyed table -> keyed (delete_ids ids table).
Proof.
  unfold keyed, delete_ids. intros H.
  eapply sublist_NoDup; [exact H | apply sublist_map, sublist_List_filter].
Qed.

Lemma keyed_new_row table it : keyed table -> keyed (table ++ [new_row (next_id table) it]).
Proof.
  unfold keyed. intros H. rewrite map_app. cbn [map new_row models.id].
  apply NoDup_app. split; [exact H|]. split; [| apply NoDup_singleton].
  intros k Hk Hk'. apply list_elem_of_singleton in Hk'. subst k.
  apply list_elem_of_In, in_map_iff in Hk as (r & Hr & Hin).
  pose proof (next_id_above table) as Habove.
  rewrite List.Forall_forall in Habove. specialize (Habove r Hin). lia.
Qed.

Lemma keyed_insert_all news table :
  keyed table -> keyed (fst (insert_all news table)).
Proof.
  revert table. induction news as [|it news IH]; intros table Ht; [exact Ht|].
  cbn [insert_all].
  specialize (IH (table ++ [new_row (next_id table) it]) (keyed_new_row _ _ Ht)).
  destruct (insert_all news (table ++ [new_row (next_id table) it])) as [t ids].
  exact IH.
Qed.

Lemma flushed_keys s : keys_kept s (flushed s).
Proof.
  intros (Hc & Hw). unfold flushed.
  pose proof (keyed_insert_all (new_ s) _ (keyed_delete_ids (deleted s) _ Hw)) as H.
  destruct (insert_all (new_ s) (delete_ids (deleted s) (working s))) as [t ids].
  split; [exact Hc | exact H].
Qed.

Lemma durable_keys s : keys_kept s (durable s).
Proof.
  intros H. apply flushed_keys in H as (_ & Hw). unfold durable. split; exact Hw.
Qed.

Lemma store_call_keys ev : steps keys_kept (store_call ev).
Proof.
  intros s r s' H. unfold store_call in H.
  assert (E : s' = called ev s) by (destruct (next_fault s); inversion H; reflexivity).
  subst s'. intros Hk. exact Hk.
Qed.

Lemma modify_keys (f : session -> session) :
  (forall s, keys_kept s (f s)) -> steps keys_kept (modify f).
Proof. intros Hf s r s' H. inversion H; subst. apply Hf. Qed.

Lemma db_execute_update_keys item_id data : steps keys_kept (db_execute_update item_id data).
Proof.
  unfold db_execute_update.
  apply (steps_bind _ keys_kept_trans); [apply store_call_keys | intros _].
  intros s r s'. rewrite bind_run. cbn [gets]. rewrite bind_run. unfold of_result.
  destruct (update_rows item_id data (working s)) as [table'|e] eqn:E.
  - intros H. inversion H; subst. intros (Hc & Hw). split; [exact Hc|].
    cbn [working]. unfold keyed. rewrite (update_rows_ids _ _ _ _ E). exact Hw.
  - intros H. inversion H; subst. apply keys_kept_refl.
Qed.

Lemma asyncio_sleep_keys ms : steps keys_kept (asyncio_sleep ms).
Proof. intros s r s' H. inversion H; subst. intros Hk. exact Hk. Qed.

Ltac keys_prim :=
  first
    [ apply store_call_keys
    | apply db_execute_update_keys
    | apply asyncio_sleep_keys
    | apply modify_keys; intros ?;
      first [ apply durable_keys | apply flushed_keys
            | intros [? ?]; split; assumption ] ].

Ltac keys_walk :=
  repeat first
    [ progress walk keys_kept_refl keys_kept_trans keys_prim
    | match goal with
      | |- steps _ (match ?x with _ => _ end) => destruct x
      | |- steps _ (if ?c then _ else _) => destruct c
      end ].

Lemma create_item_keys item : steps keys_kept (create_item item).
Proof.
  unfold create_item, db_add, db_commit, db_item_id, db_execute, db_rollback.
  keys_walk.
Qed.

Lemma get_item_keys item_id : steps keys_kept (get_item item_id).
Proof. unfold get_item, db_execute. keys_walk. Qed.

Lemma list_items_keys skip limit_n min_price max_price name_contains :
  steps keys_kept (list_items skip limit_n min_price max_price name_contains).
Proof. unfold list_items, db_execute. keys_walk. Qed.

Lemma delete_item_keys item_id : steps keys_kept (delete_item item_id).
Proof.
  unfold delete_item, db_execute, db_delete, db_flush, db_rollback. keys_walk.
Qed.

Lemma update_item_try_keys item_id item : steps keys_kept (update_item_try item_id item).
Proof.
  unfold update_item_try.
  apply (steps_bind _ keys_kept_trans); [unfold db_execute; keys_walk | intros rows].
  apply (steps_bind _ keys_kept_trans); [keys_walk | intros o].
  destruct o; [| keys_walk].
  destruct (decide _); [keys_walk|].
  apply (steps_bind _ keys_kept_trans); [keys_walk | intros data].
  apply (steps_bind _ keys_kept_trans); [apply db_execute_update_keys | intros _].
  apply (steps_bind _ keys_kept_trans); [unfold db_commit; keys_walk | intros _].
  apply (steps_bind _ keys_kept_trans); [unfold db_execute; keys_walk | intros rows'].
  keys_walk.
Qed.

Lemma update_item_for_keys attempts item_id item :
  steps keys_kept (update_item_for attempts item_id item).
Proof.
  induction attempts as [|attempt rest IH]; cbn [update_item_for].
  - keys_walk.
  - apply (steps_try_except _ keys_kept_trans); [apply update_item_try_keys | intros e].
    unfold db_rollback.
    destruct e as [msg|msg|code detail|msg]; try solve [keys_walk].
    destruct (_ && _); [| solve [keys_walk]].
    apply (steps_bind _ keys_kept_trans); [keys_walk | intros _].
    apply (steps_bind _ keys_kept_trans); [keys_walk | intros _].
    exact IH.
Qed.

Lemma route_keys {A : Type} (success : Z) (response_model : A -> vres A)
    (endpoint : db A) s :
  steps keys_kept endpoint ->
  keyed (committed s) ->
  keyed (committed (snd (route success response_model endpoint s))).
Proof.
  intros He Hs. rewrite route_run.
  assert (H0 : keyed (committed (AsyncSessionLocal s))
               /\ keyed (working (AsyncSessionLocal s))) by (split; exact Hs).
  destruct (endpoint (AsyncSessionLocal s)) as [[c|e] s1] eqn:E;
    destruct (He _ _ _ E H0) as [Hc Hw]; cbn [snd].
  - destruct (response_model c) as [a|errs|exc]; cbn [snd]; try exact Hc.
    destruct (next_fault s1); cbn [snd]; [exact Hc|].
    apply (durable_keys (called EvCommit s1)). split; assumption.
  - exact Hc.
Qed.

Lemma serve_keyed (s : session) (req : request) :
  keyed (committed s) -> keyed (committed (serve s req)).
Proof.
  intros Hs. destruct req as [b|q|item_id|item_id b|item_id]; cbn [serve].
  - unfold post_items, validated. destruct (ItemCreate_validate b); try exact Hs.
    apply route_keys; [apply create_item_keys | exact Hs].
  - unfold get_items, validated.
    destruct (list_query_validate q) as [[[[[skip limit_n] lo] hi] nc]|errs|exc];
      try exact Hs.
    apply route_keys; [apply list_items_keys | exact Hs].
  - apply route_keys; [apply get_item_keys | exact Hs].
  - unfold put_items_id, validated. destruct (ItemUpdate_validate b); try exact Hs.
    apply route_keys; [apply update_item_for_keys | exact Hs].
  - apply route_keys; [apply delete_item_keys | exact Hs].
Qed.

Lemma served_keyed requests s :
  keyed (committed s) -> keyed (committed (fold_left serve requests s)).
Proof.
  revert s. induction requests as [|req requests IH]; intros s Hs; [exact Hs|].
  cbn [fold_left]. apply IH, serve_keyed, Hs.
Qed.

Lemma served_presentable requests s :
  Forall presentable (committed s) ->
  Forall presentable (committed (fold_left serve requests s)).
Proof.
  revert s. induction requests as [|req requests IH]; intros s Hs; [exact Hs|].
  cbn [fold_left]. apply IH, serve_presentable, Hs.
Qed.

(** In a table with distinct keys a row is the one row under its key. *)
Lemma rows_with_keyed table r :
  keyed table -> In r table -> rows_with (models.id r) table = [r].
Proof.
  unfold keyed, rows_with. induction table as [|r0 table IH]; intros Hk Hin;
    [destruct Hin|].
  cbn [map] in Hk. apply NoDup_cons in Hk as [Hnot Hk]. cbn [List.filter].
  assert (Hnone : forall k, k ∉ map models.id table ->
                            List.filter (fun x => models.id x =? k) table = []).
  { intros k Hk0. clear -Hk0. induction table as [|x table IH]; [reflexivity|].
    cbn [List.filter map] in *. apply not_elem_of_cons in Hk0 as [Hne Hk0].
    destruct (models.id x =? k) eqn:E; [apply Z.eqb_eq in E; congruence|].
    apply IH, Hk0. }
  destruct Hin as [-> | Hin].
  - rewrite Z.eqb_refl, (Hnone _ Hnot). reflexivity.
  - destruct (models.id r0 =? models.id r) eqn:E; [| apply IH; assumption].
    apply Z.eqb_eq in E. exfalso. apply Hnot. rewrite E.
    apply list_elem_of_In, in_map, Hin.
Qed.

Lemma rows_with_none item_id table :
  (forall r, In r table -> models.id r <> item_id) -> rows_with item_id table = [].
Proof.
  unfold rows_with. induction table as [|r0 table IH]; intros H; [reflexivity|].
  cbn [List.filter].
  destruct (models.id r0 =? item_id) eqn:E.
  - apply Z.eqb_eq in E. exfalso. apply (H r0); [left; reflexivity | exact E].
  - apply IH. intros r Hr. apply H. right. exact Hr.
Qed.

(** X21.  Keys stay distinct: starting from an empty table, after any
    sequence of requests to the five routes, whatever failures the store
    raised on the way, no two stored rows carry the same key; so a stored
    row is the one row the select by its key returns. *)
Theorem stored_keys_are_distinct (script : list (option store_exc))
    (requests : list request) :
  NoDup (map models.id (committed (fold_left serve requests (store [] script))))
  /\ forall r,
       In r (committed (fold_left serve requests (store [] script))) ->
       run_select (where_ (IdEq (models.id r)) select_Item)
         (committed (fold_left serve requests (store [] script)))
       = [r].
Proof.
  assert (Hk : keyed (committed (fold_left serve requests (store [] script))))
    by (apply served_keyed; constructor).
  split; [exact Hk|].
  intros r Hin. rewrite run_select_by_id. apply rows_with_keyed; assumption.
Qed.

Lemma stored_keys_are_distinct_witness :
  run_select (where_ (IdEq 1) select_Item)
    (committed (fold_left serve [POST_items Sample.widget_body] (store [] [])))
  = [Sample.widget].
Proof.
  apply (proj2 (stored_keys_are_distinct [] [POST_items Sample.widget_body])
           Sample.widget).
  vm_compute. left. reflexivity.
Defined.

(** ** Finding a row by its key *)

Lemma quiet_flushed s : quiet s -> quiet (flushed s).
Proof. unfold quiet. rewrite faults_flushed. auto. Qed.

Lemma delete_item_quiet item_id s r :
  quiet s -> rows_with item_id (working s) = [r] ->
  exists s1,
    delete_item item_id s = (Ret "Item deleted successfully", s1) /\ quiet s1.
Proof.
  intros Hq Hr. unfold delete_item, try_except.
  rewrite bind_run, db_execute_quiet by (apply quiet_next_fault, Hq).
  rewrite run_select_by_id, Hr. rewrite bind_run.
  cbn [scalar_one_or_none mret db_ret].
  rewrite bind_run. unfold db_delete at 1. cbn [modify].
  set (s2 := mkSession _ _ _ _ _ _ _).
  assert (Hq2 : quiet s2) by (apply (quiet_called EvSelect s Hq)).
  rewrite bind_run. unfold db_flush. rewrite bind_run.
  rewrite store_call_quiet by (apply quiet_next_fault, Hq2).
  cbn [modify mret db_ret].
  eexists. split; [reflexivity|]. apply quiet_flushed, quiet_called, Hq2.
Qed.

Lemma delete_item_absent item_id s :
  rows_with item_id (working s) = [] -> next_fault s = None ->
  delete_item item_id s
  = (Raise (HTTPException 404 "Item not found"), rolled_back (called EvSelect s)).
Proof.
  intros Hr Hq. unfold delete_item, try_except.
  rewrite bind_run, db_execute_quiet by exact Hq.
  rewrite run_select_by_id, Hr. reflexivity.
Qed.

Lemma delete_items_id_present item_id s r :
  quiet s -> rows_with item_id (committed s) = [r] ->
  fst (delete_items_id item_id s) = Response 200 "Item deleted successfully"
  /\ committed (snd (delete_items_id item_id s)) = rows_without item_id (committed s).
Proof.
  intros Hq Hr.
  destruct (delete_item_quiet item_id (AsyncSessionLocal s) r Hq Hr) as (s1 & Hd & Hq1).
  unfold delete_items_id. rewrite route_run, Hd. unfold as_returned.
  rewrite (quiet_next_fault _ Hq1). cbn [fst snd]. split; [reflexivity|].
  apply delete_item_ret_inv in Hd as (_ & _ & Hw & Hn & Hdel); try reflexivity.
  unfold durable. cbn [committed].
  rewrite (flushed_nothing (called EvCommit s1)) by assumption.
  change (working (called EvCommit s1)) with (working s1).
  rewrite Hw. apply delete_ids_one.
Qed.



(** ** What the update schema accepts *)

(** X23.  What [ItemUpdate] accepts, exactly: a body is accepted if and
    only if name, price and quantity are each given or [null] -- none of
    them may be left out --, a given name has 1 to 50 characters, a given
    price is not negative and can be rounded to cents, a given quantity is
    not negative, and the description is left out, [null], or has at most
    500 characters.  The accepted update holds [None] for a member that is
    [null] (or a description left out), the given name, description and
    quantity, the given price rounded to cents, and as the set of its
    fields the members the body supplied. *)
Theorem ItemUpdate_validate_accepts_iff (b : body) (it : ItemUpdate) :
  ItemUpdate_validate b = Valid it
  <-> match b_name b with
      | Absent => False
      | Null => iu_name it = None
      | Given n => (1 <= String.length n <= 50)%nat /\ iu_name it = Some n
      end
      /\ match b_description b with
         | Given d => (String.length d <= 500)%nat /\ iu_description it = Some d
         | _ => iu_description it = None
         end
      /\ match b_price b with
         | Absent => False
         | Null => iu_price it = None
         | Given v =>
             Dec.geb v Dec.zero = true
             /\ exists p, Dec.quantize v Dec.cent = Some p /\ iu_price it = Some p
         end
      /\ match b_quantity b with
         | Absent => False
         | Null => iu_quantity it = None
         | Given q => 0 <= q /\ iu_quantity it = Some q
         end
      /\ iu_fields_set it = body_fields_set b.
Proof.
  unfold ItemUpdate_validate. split.
  - intros H.
    apply vap_valid_inv in H as (g5 & fs & H & Hfs & ->).
    apply vap_valid_inv in H as (g4 & q & H & Hq & ->).
    apply vap_valid_inv in H as (g3 & p & H & Hp & ->).
    apply vap_valid_inv in H as (g2 & d & H & Hd & ->).
    apply vap_valid_inv in H as (g1 & n & H & Hn & ->).
    inversion H; subst g1. clear H. injection Hfs as <-.
    cbn [iu_name iu_description iu_price iu_quantity iu_fields_set].
    split; [| split; [| split; [| split; [| reflexivity]]]].
    + destruct (b_name b) as [| |n0]; cbn [Schema.required_nullable] in Hn;
        [discriminate | injection Hn as <-; reflexivity |].
      destruct (Schema.constrained_str "name" 1 50 n0) as [n1| |] eqn:En;
        cbn [vbind] in Hn; try discriminate. injection Hn as <-.
      apply constrained_str_valid_iff in En as [-> Hl]. split; [exact Hl | reflexivity].
    + destruct (b_description b) as [| |d0]; cbn [Schema.optional_nullable] in Hd;
        try (injection Hd as <-; reflexivity).
      destruct (Schema.constrained_str "description" 0 500 d0) as [d1| |] eqn:Ed;
        cbn [vbind] in Hd; try discriminate. injection Hd as <-.
      apply constrained_str_valid_iff in Ed as [-> Hl]. split; [lia | reflexivity].
    + destruct (b_price b) as [| |v]; cbn [Schema.required_nullable vbind] in Hp;
        [discriminate | injection Hp as <-; reflexivity |].
      unfold Schema.decimal_ge0 in Hp.
      destruct (Dec.geb v Dec.zero) eqn:Hge; cbn [vbind] in Hp; [| discriminate].
      unfold ItemUpdate_validate_price in Hp.
      destruct (Dec.ltb v Dec.zero); [discriminate|].
      destruct (Dec.quantize v Dec.cent) as [p0|] eqn:Hquant; [| discriminate].
      injection Hp as <-. split; [reflexivity | eauto].
    + destruct (b_quantity b) as [| |q0]; cbn [Schema.required_nullable] in Hq;
        [discriminate | injection Hq as <-; reflexivity |].
      unfold Schema.int_ge0 in Hq.
      destruct (0 <=? q0) eqn:Hq0; cbn [vbind] in Hq; [| discriminate].
      injection Hq as <-. apply Z.leb_le in Hq0. split; [exact Hq0 | reflexivity].
  - intros (Hn & Hd & Hp & Hq & Hfs).
    destruct it as [n d p q fs].
    cbn [iu_name iu_description iu_price iu_quantity iu_fields_set] in *. subst fs.
    assert (En : Schema.required_nullable "name" (Schema.constrained_str "name" 1 50)
                   (b_name b) = Valid n).
    { destruct (b_name b) as [| |n0]; [destruct Hn | subst n; reflexivity |].
      destruct Hn as [Hl ->]. cbn [Schema.required_nullable].
      rewrite (proj2 (constrained_str_valid_iff "name" 1 50 n0 n0) (conj eq_refl Hl)).
      reflexivity. }
    assert (Ed : Schema.optional_nullable (Schema.constrained_str "description" 0 500)
                   (b_description b) = Valid d).
    { destruct (b_description b) as [| |d0];
        [subst d; reflexivity | subst d; reflexivity |].
      destruct Hd as [Hl ->]. cbn [Schema.optional_nullable].
      rewrite (proj2 (constrained_str_valid_iff "description" 0 500 d0 d0)
                 (conj eq_refl (conj (Nat.le_0_l _) Hl))).
      reflexivity. }
    assert (Ep : vbind (Schema.required_nullable "price" (Schema.decimal_ge0 "price")
                          (b_price b)) ItemUpdate_validate_price = Valid p).
    { destruct (b_price b) as [| |v]; [destruct Hp | subst p; reflexivity |].
      destruct Hp as (Hge & p0 & Hquant & ->). cbn [Schema.required_nullable].
      unfold Schema.decimal_ge0. rewrite Hge. cbn [vbind].
      unfold ItemUpdate_validate_price. rewrite (ge0_not_lt0 _ Hge), Hquant.
      reflexivity. }
    assert (Eq : Schema.required_nullable "quantity" (Schema.int_ge0 "quantity")
                   (b_quantity b) = Valid q).
    { destruct (b_quantity b) as [| |q0]; [destruct Hq | subst q; reflexivity |].
      destruct Hq as [Hq0 ->]. cbn [Schema.required_nullable].
      unfold Schema.int_ge0. apply Z.leb_le in Hq0. rewrite Hq0. reflexivity. }
    rewrite En, Ed, Ep, Eq. reflexivity.
Qed.

Lemma ItemUpdate_validate_accepts_iff_witness :
  ItemUpdate_validate Sample.null_description
  = Valid (mkItemUpdate (Some "Gadget") None (Some (Sample.cents 500)) (Some 3)
             (body_fields_set Sample.null_description)).
Proof.
  apply (proj2 (ItemUpdate_validate_accepts_iff Sample.null_description
                  (mkItemUpdate (Some "Gadget") None (Some (Sample.cents 500)) (Some 3)
                     (body_fields_set Sample.null_description)))).
  split; [split; [cbn; lia | reflexivity]|]. split; [reflexivity|].
  split; [split; [reflexivity | exists (Sample.cents 500); split; reflexivity]|].
  split; [split; [lia | reflexivity] | reflexivity].
Defined.
